(** * lcmaps_pilot_sub_proxy_utils.c: the functions and their properties

    The C unit is modelled function by function.  Code that touches the
    operating system (credentials, descriptors, advisory locks, the heap,
    the log) runs in a small state monad over a [World]; a C [return] in
    the middle of a function is the [Return] outcome of that monad.
    OpenSSL and the LCMAPS framework are outside the unit: their entry
    points are Section variables or small models of their documented
    behaviour.  A log line is recorded with the constant part of its
    message; integers are [Z], and sizes and ids are taken to be in the
    range of their C type. *)

From Stdlib Require Import String Ascii ZArith List Bool Lia.
Import ListNotations.
Open Scope string_scope.
Open Scope list_scope.
Open Scope Z_scope.

(* ================================================================== *)
(** ** Constants of the unit *)

Definition OBJ_BUF_SIZE : Z := 80.
Definition OID_RFC_PROXY : string := "1.3.6.1.5.5.7.1.14".
Definition OID_LIMITED_PROXY : string := "1.3.6.1.4.1.3536.1.1.1.9".

Definition LCK_NOLOCK : Z := Z.shiftl 1 0.
Definition LCK_FCNTL : Z := Z.shiftl 1 1.
Definition LCK_FLOCK : Z := Z.shiftl 1 2.
Definition LCK_READ : Z := Z.shiftl 1 0.
Definition LCK_WRITE : Z := Z.shiftl 1 1.
Definition LCK_UNLOCK : Z := Z.shiftl 1 2.

(** Permission bits of <sys/stat.h>. *)
Definition S_IRGRP : Z := 32.
Definition S_IWGRP : Z := 16.
Definition S_IROTH : Z := 4.
Definition S_IWOTH : Z := 2.

(** C truth value of an integer expression. *)
Definition truthy (z : Z) : bool := negb (z =? 0).

(* ================================================================== *)
(** ** The operating-system state *)

(** Process credentials: real, effective and saved set-ids. *)
Record Cred := mkCred {
  c_ruid : Z; c_euid : Z; c_suid : Z;
  c_rgid : Z; c_egid : Z; c_sgid : Z }.

(** A regular file as the unit observes it. *)
Record File := mkFile {
  f_uid : Z; f_mode : Z; f_mtime : Z; f_ctime : Z;
  f_data : list Byte.byte }.

(** The fields of [struct stat] that the unit reads. *)
Record Stat := mkStat {
  st_uid : Z; st_mode : Z; st_size : Z; st_mtime : Z; st_ctime : Z }.

Definition stat_of (f : File) : Stat :=
  mkStat (f_uid f) (f_mode f) (Z.of_nat (length (f_data f)))
         (f_mtime f) (f_ctime f).

Inductive FlockOp := LOCK_SH | LOCK_EX | LOCK_UN.
Inductive FcntlType := F_RDLCK | F_WRLCK | F_UNLCK.

(** An open descriptor: the inode it refers to (its state at every
    observation, since other processes may rewrite it), the file offset
    and the advisory locks held through it. *)
Record OpenFile := mkOpenFile {
  of_inode : nat -> File;
  of_off : Z;
  of_flock : option FlockOp;
  of_fcntl : option FcntlType }.

(** System calls that may fail for reasons outside the program. *)
Inductive Syscall :=
  SysOpen | SysFlock | SysFcntl | SysFstat | SysRead | SysLseek
| SysMalloc | SysRealloc | SysStackNew | SysBioNew | SysAddCred.

Inductive LogLevel := LOG_ERR | LOG_WARNING | LOG_INFO | LOG_DEBUG.

Inductive Event :=
| EvSeteuid (u rc : Z)
| EvSetegid (g rc : Z)
| EvOpen (path : string) (fd : Z)
| EvFlock (fd : Z) (op : FlockOp) (rc : Z)
| EvFcntl (fd : Z) (ty : FcntlType) (rc : Z)
| EvFstat (fd rc : Z)
| EvRead (fd count rc : Z)
| EvLseek (fd off rc : Z)
| EvClose (fd : Z)
| EvMalloc (n : Z) (ok : bool)
| EvRealloc (n : Z) (ok : bool)
| EvFree
| EvUsleep (us : Z)
| EvAddCred (kind : string) (data : string) (rc : Z)
| EvLog (lvl : LogLevel) (msg : string).

(** [w_clock] counts the observations of file state made so far ([fstat]
    and [read]); an inode history is indexed by it.  [w_fault s t] says
    that a call of kind [s] issued at clock [t] fails (EIO, EINTR, ENOMEM,
    ENOLCK, EACCES, ...).  [w_trace] is the log of calls, newest first. *)
Record World := mkWorld {
  w_cred : Cred;
  w_fs : string -> option (nat -> File);
  w_clock : nat;
  w_fault : Syscall -> nat -> bool;
  w_junk : Byte.byte;
  w_fdt : list (Z * OpenFile);
  w_trace : list Event }.

Definition set_cred (c : Cred) (w : World) : World :=
  mkWorld c (w_fs w) (w_clock w) (w_fault w) (w_junk w) (w_fdt w) (w_trace w).
Definition set_fdt (t : list (Z * OpenFile)) (w : World) : World :=
  mkWorld (w_cred w) (w_fs w) (w_clock w) (w_fault w) (w_junk w) t (w_trace w).
Definition tick (w : World) : World :=
  mkWorld (w_cred w) (w_fs w) (S (w_clock w)) (w_fault w) (w_junk w)
          (w_fdt w) (w_trace w).
Definition emit (e : Event) (w : World) : World :=
  mkWorld (w_cred w) (w_fs w) (w_clock w) (w_fault w) (w_junk w) (w_fdt w)
          (e :: w_trace w).

(** Descriptor table. *)
Fixpoint fd_lookup (fd : Z) (t : list (Z * OpenFile)) : option OpenFile :=
  match t with
  | [] => None
  | (k, o) :: t' => if k =? fd then Some o else fd_lookup fd t'
  end.

Fixpoint fd_remove (fd : Z) (t : list (Z * OpenFile)) : list (Z * OpenFile) :=
  match t with
  | [] => []
  | (k, o) :: t' => if k =? fd then fd_remove fd t' else (k, o) :: fd_remove fd t'
  end.

Definition fd_store (fd : Z) (o : OpenFile) (t : list (Z * OpenFile)) :=
  (fd, o) :: fd_remove fd t.

Definition fd_fresh (t : list (Z * OpenFile)) : Z :=
  fold_right (fun p m => Z.max (fst p + 1) m) 3 t.

(* ================================================================== *)
(** ** The monad of C function bodies *)

Inductive Flow (R A : Type) :=
| Next (a : A)
| Return (r : R).
Arguments Next {R A} a.
Arguments Return {R A} r.

(** A statement sequence of a function returning [R]. *)
Definition M (R A : Type) := World -> Flow R A * World.
(** A whole C function returning [R]. *)
Definition Fn (R : Type) := World -> R * World.

Definition ret {R A} (a : A) : M R A := fun w => (Next a, w).
Definition exit {R A} (r : R) : M R A := fun w => (Return r, w).
Definition bind {R A B} (m : M R A) (k : A -> M R B) : M R B :=
  fun w => match m w with
           | (Next a, w') => k a w'
           | (Return r, w') => (Return r, w')
           end.
(** Calling a function inside a body. *)
Definition call {R A} (f : Fn A) : M R A :=
  fun w => let (a, w') := f w in (Next a, w').
(** The body of a function: falling off the end yields the value. *)
Definition body {R} (m : M R R) : Fn R :=
  fun w => match m w with
           | (Next r, w') => (r, w')
           | (Return r, w') => (r, w')
           end.
Definition when {R} (b : bool) (m : M R unit) : M R unit :=
  if b then m else ret tt.

Declare Scope cfun_scope.
Delimit Scope cfun_scope with cfun.
Notation "x <- m ;; k" := (bind m (fun x => k))
  (at level 61, m at next level, right associativity) : cfun_scope.
Notation "m ;;; k" := (bind m (fun _ => k))
  (at level 61, right associativity) : cfun_scope.
Open Scope cfun_scope.

Definition lcmaps_log {R} (lvl : LogLevel) (msg : string) : M R unit :=
  fun w => (Next tt, emit (EvLog lvl msg) w).

(* ================================================================== *)
(** ** Credential system calls (POSIX.1-2008 semantics) *)

Definition getuid : Fn Z := fun w => (c_ruid (w_cred w), w).
Definition geteuid : Fn Z := fun w => (c_euid (w_cred w), w).
Definition getgid : Fn Z := fun w => (c_rgid (w_cred w), w).
Definition getegid : Fn Z := fun w => (c_egid (w_cred w), w).

(** [uid_t] and [gid_t] are unsigned 32-bit types.  Their last value,
    [(uid_t)-1], is not an id: the set-id calls refuse it with EINVAL.
    Every other value of the type is a valid id. *)
Definition id_valid (i : Z) : bool := (0 <=? i) && (i <? 4294967295).

(** [seteuid(u)] succeeds when [u] is the real, effective or saved user
    id of the process (ids that a process holds are valid ids), and for
    a process with effective user 0 when [u] is any valid id; only the
    effective id changes.  No other refusal is modelled: a process with
    effective user 0 is taken to hold the capabilities to set ids. *)
Definition may_seteuid (c : Cred) (u : Z) : bool :=
  (u =? c_ruid c) || (u =? c_euid c) || (u =? c_suid c)
  || ((c_euid c =? 0) && id_valid u).
Definition may_setegid (c : Cred) (g : Z) : bool :=
  (g =? c_rgid c) || (g =? c_egid c) || (g =? c_sgid c)
  || ((c_euid c =? 0) && id_valid g).

Definition seteuid (u : Z) : Fn Z := fun w =>
  let c := w_cred w in
  if may_seteuid c u then
    (0, emit (EvSeteuid u 0)
          (set_cred (mkCred (c_ruid c) u (c_suid c)
                            (c_rgid c) (c_egid c) (c_sgid c)) w))
  else (-1, emit (EvSeteuid u (-1)) w).

Definition setegid (g : Z) : Fn Z := fun w =>
  let c := w_cred w in
  if may_setegid c g then
    (0, emit (EvSetegid g 0)
          (set_cred (mkCred (c_ruid c) (c_euid c) (c_suid c)
                            (c_rgid c) g (c_sgid c)) w))
  else (-1, emit (EvSetegid g (-1)) w).

(* ================================================================== *)
(** ** priv_drop and raise_priv *)

Definition priv_drop (unpriv_uid unpriv_gid : Z) : Fn Z :=
  body (
    euid <- call geteuid ;;
    egid <- call getegid ;;
    rc <- (if unpriv_gid =? egid then ret 0 else call (setegid unpriv_gid)) ;;
    when (truthy rc) (exit rc) ;;;
    rc <- (if (unpriv_uid =? 0) || (unpriv_uid =? euid) then ret 0
           else call (seteuid unpriv_uid)) ;;
    when (truthy rc) (_ <- call (setegid egid) ;; ret tt) ;;;
    exit rc).

(** [a || b] of C on calls: [b] is not issued when [a] is nonzero. *)
Definition nonzero {R} (m : M R Z) : M R bool := r <- m ;; ret (truthy r).
Definition orelse {R} (a b : M R bool) : M R bool :=
  x <- a ;; if (x : bool) then ret true else b.
Notation "a ||| b" := (orelse a b)
  (at level 50, left associativity) : cfun_scope.

Definition raise_priv (euid egid : Z) : Fn Z :=
  body (
    uid <- call getuid ;;
    (if euid =? 0 then
       failed <- nonzero (call (seteuid euid))
                 ||| nonzero (call (setegid egid)) ;;
       if (failed : bool) then exit (-1) else exit 0
     else ret tt) ;;;
    (if uid =? 0 then
       failed <- nonzero (call (seteuid 0))
                 ||| nonzero (call (setegid egid))
                 ||| nonzero (call (seteuid euid)) ;;
       if (failed : bool) then exit (-1) else exit 0
     else ret tt) ;;;
    exit (-1)).

(* ================================================================== *)
(** ** File system calls *)

Definition sys_open (path : string) : Fn Z := fun w =>
  match w_fs w path with
  | Some h =>
      if w_fault w SysOpen (w_clock w) then (-1, emit (EvOpen path (-1)) w)
      else
        let fd := fd_fresh (w_fdt w) in
        (fd, emit (EvOpen path fd)
               (set_fdt (fd_store fd (mkOpenFile h 0 None None) (w_fdt w)) w))
  | None => (-1, emit (EvOpen path (-1)) w)
  end.

(** Closing the descriptor drops its table entry and with it every
    advisory lock held through it. *)
Definition sys_close (fd : Z) : Fn Z := fun w =>
  match fd_lookup fd (w_fdt w) with
  | Some _ => (0, emit (EvClose fd) (set_fdt (fd_remove fd (w_fdt w)) w))
  | None => (-1, emit (EvClose fd) w)
  end.

Definition sys_flock (fd : Z) (op : FlockOp) : Fn Z := fun w =>
  match fd_lookup fd (w_fdt w) with
  | Some o =>
      if w_fault w SysFlock (w_clock w) then (-1, emit (EvFlock fd op (-1)) w)
      else
        let held := match op with LOCK_UN => None | _ => Some op end in
        (0, emit (EvFlock fd op 0)
              (set_fdt (fd_store fd (mkOpenFile (of_inode o) (of_off o) held
                                                (of_fcntl o)) (w_fdt w)) w))
  | None => (-1, emit (EvFlock fd op (-1)) w)
  end.

(** [fcntl(fd, F_SETLKW, &lck)] on the whole file. *)
Definition sys_fcntl_setlkw (fd : Z) (ty : FcntlType) : Fn Z := fun w =>
  match fd_lookup fd (w_fdt w) with
  | Some o =>
      if w_fault w SysFcntl (w_clock w) then (-1, emit (EvFcntl fd ty (-1)) w)
      else
        let held := match ty with F_UNLCK => None | _ => Some ty end in
        (0, emit (EvFcntl fd ty 0)
              (set_fdt (fd_store fd (mkOpenFile (of_inode o) (of_off o)
                                                (of_flock o) held) (w_fdt w)) w))
  | None => (-1, emit (EvFcntl fd ty (-1)) w)
  end.

(** [fstat]: [None] is the -1 result. *)
Definition sys_fstat (fd : Z) : Fn (option Stat) := fun w =>
  match fd_lookup fd (w_fdt w) with
  | Some o =>
      if w_fault w SysFstat (w_clock w)
      then (None, tick (emit (EvFstat fd (-1)) w))
      else (Some (stat_of (of_inode o (w_clock w))),
            tick (emit (EvFstat fd 0) w))
  | None => (None, tick (emit (EvFstat fd (-1)) w))
  end.

(** [read(fd, buf, count)]: the bytes available from the offset, at most
    [count], overwrite the front of [buf]; the result is their number. *)
Definition sys_read (fd : Z) (buf : list Byte.byte) (count : Z)
  : Fn (Z * list Byte.byte) := fun w =>
  match fd_lookup fd (w_fdt w) with
  | Some o =>
      if w_fault w SysRead (w_clock w)
      then ((-1, buf), tick (emit (EvRead fd count (-1)) w))
      else
        let got := firstn (Z.to_nat count)
                     (skipn (Z.to_nat (of_off o))
                            (f_data (of_inode o (w_clock w)))) in
        let n := Z.of_nat (length got) in
        ((n, got ++ skipn (length got) buf),
         tick (emit (EvRead fd count n)
                 (set_fdt (fd_store fd (mkOpenFile (of_inode o) (of_off o + n)
                                          (of_flock o) (of_fcntl o))
                                    (w_fdt w)) w)))
  | None => ((-1, buf), tick (emit (EvRead fd count (-1)) w))
  end.

(** [lseek(fd, off, SEEK_SET)]. *)
Definition sys_lseek_set (fd off : Z) : Fn Z := fun w =>
  match fd_lookup fd (w_fdt w) with
  | Some o =>
      if w_fault w SysLseek (w_clock w) || (off <? 0)
      then (-1, emit (EvLseek fd off (-1)) w)
      else (off, emit (EvLseek fd off off)
                   (set_fdt (fd_store fd (mkOpenFile (of_inode o) off
                                            (of_flock o) (of_fcntl o))
                                      (w_fdt w)) w))
  | None => (-1, emit (EvLseek fd off (-1)) w)
  end.

(** The heap: a block is the list of its bytes; fresh bytes are
    indeterminate ([w_junk]). *)
Definition malloc (n : Z) : Fn (option (list Byte.byte)) := fun w =>
  if w_fault w SysMalloc (w_clock w) then (None, emit (EvMalloc n false) w)
  else (Some (repeat (w_junk w) (Z.to_nat n)), emit (EvMalloc n true) w).

Definition realloc (buf : list Byte.byte) (n : Z)
  : Fn (option (list Byte.byte)) := fun w =>
  if w_fault w SysRealloc (w_clock w) then (None, emit (EvRealloc n false) w)
  else (Some (firstn (Z.to_nat n) buf
              ++ repeat (w_junk w) (Z.to_nat n - length buf)),
        emit (EvRealloc n true) w).

Definition free : Fn unit := fun w => (tt, emit EvFree w).
Definition usleep (us : Z) : Fn unit := fun w => (tt, emit (EvUsleep us) w).

(** [buf[i] = c]; a store outside the block is not modelled (no change). *)
Fixpoint store_byte (buf : list Byte.byte) (i : nat) (c : Byte.byte) :=
  match buf, i with
  | [], _ => []
  | _ :: t, O => c :: t
  | b :: t, S i' => b :: store_byte t i' c
  end.

(* ================================================================== *)
(** ** filelock *)

Section Platform.

(** [sun] is true when the unit is compiled with [__sun] defined. *)
Variable sun : bool.

Definition filelock (fd lock_type action : Z) : Fn Z :=
  body (
    when (truthy (Z.land lock_type LCK_NOLOCK)) (exit 0) ;;;
    rc1 <- (if truthy (Z.land lock_type LCK_FLOCK) then
              if sun then exit (-1)
              else
                lck <- (if action =? LCK_READ then ret LOCK_SH
                        else if action =? LCK_WRITE then ret LOCK_EX
                        else if action =? LCK_UNLOCK then ret LOCK_UN
                        else exit (-1)) ;;
                call (sys_flock fd lck)
            else ret 0) ;;
    rc2 <- (if truthy (Z.land lock_type LCK_FCNTL) then
              l_type <- (if action =? LCK_READ then ret F_RDLCK
                         else if action =? LCK_WRITE then ret F_WRLCK
                         else if action =? LCK_UNLOCK then ret F_UNLCK
                         else exit (-1)) ;;
              call (sys_fcntl_setlkw fd l_type)
            else ret 0) ;;
    exit (if truthy rc1 || truthy rc2 then -1 else 0)).

(* ================================================================== *)
(** ** read_proxy *)

Definition tries : Z := 10.

(** Local variables of the retry loop.  [l_s1] and [l_s2] are the structs
    that [sptr1] and [sptr2] point to; [l_s2] is [None] while its content
    is indeterminate. *)
Record Locals := mkLocals {
  l_buf : list Byte.byte;
  l_size : Z;
  l_s1 : Stat;
  l_s2 : option Stat;
  l_rc : Z }.

Definition same_stamp (a b : Stat) : bool :=
  (st_size a =? st_size b) && (st_mtime a =? st_mtime b)
  && (st_ctime a =? st_ctime b).

(** The [for (i=0; i<tries; i++)] loop; [n] is [tries - i].  The result
    is the state at the [break] or at loop exit. *)
Fixpoint read_loop (fd : Z) (n : nat) (i : Z) (l : Locals) (w : World)
  : Locals * World :=
  match n with
  | O => (l, w)
  | S n' =>
      let '((size, buf), w1) := sys_read fd (l_buf l) (st_size (l_s1 l)) w in
      match sys_fstat fd w1 with
      | (None, w2) => (mkLocals buf size (l_s1 l) None (-1), w2)
      | (Some s2, w2) =>
          if same_stamp s2 (l_s1 l) then
            (mkLocals buf size (l_s1 l) (Some s2)
                      (if size =? st_size (l_s1 l) then 0 else -1), w2)
          else if i <? tries - 1 then
            match realloc buf (st_size s2 + 1) w2 with
            | (None, w3) => (mkLocals buf size (l_s1 l) (Some s2) (-4), w3)
            | (Some buf_new, w3) =>
                let l' := mkLocals buf_new size s2 (Some (l_s1 l)) (l_rc l) in
                let (_, w4) := usleep 500 w3 in
                let (pos, w5) := sys_lseek_set fd 0 w4 in
                if truthy pos then
                  (mkLocals buf_new size s2 (Some (l_s1 l)) (-1), w5)
                else read_loop fd n' (i + 1) l' w5
            end
          else
            read_loop fd n' (i + 1)
                      (mkLocals buf size (l_s1 l) (Some s2) (-5)) w2
      end
  end.

Definition unsafe_perms (uid : Z) (st : Stat) : bool :=
  negb (st_uid st =? uid)
  || truthy (Z.land (st_mode st) S_IRGRP)
  || truthy (Z.land (st_mode st) S_IWGRP)
  || truthy (Z.land (st_mode st) S_IROTH)
  || truthy (Z.land (st_mode st) S_IWOTH).

(** The result pairs the return value with the final content of
    [*proxy] ([None] when the function did not assign it). *)
Definition read_proxy (path : string) (lock_type : Z)
  : Fn (Z * option (list Byte.byte)) :=
  body (
    uid <- call getuid ;; euid <- call geteuid ;;
    gid <- call getgid ;; egid <- call getegid ;;
    dropfail <- (if (euid =? 0) && negb (uid =? 0)
                 then nonzero (call (priv_drop uid gid)) else ret false) ;;
    when dropfail
      (lcmaps_log LOG_WARNING "read_proxy: cannot drop privilege" ;;;
       exit (-2, None)) ;;;
    fd <- call (sys_open path) ;;
    when (fd =? -1)
      (lcmaps_log LOG_WARNING "read_proxy: cannot open proxy" ;;;
       _ <- call (raise_priv euid egid) ;;
       exit (-1, None)) ;;;
    lk <- call (filelock fd lock_type LCK_READ) ;;
    when (truthy lk)
      (_ <- call (sys_close fd) ;;
       _ <- call (raise_priv euid egid) ;;
       exit (-6, None)) ;;;
    st <- call (sys_fstat fd) ;;
    match st with
    | None =>
        lcmaps_log LOG_WARNING "read_proxy: cannot stat proxy" ;;;
        _ <- call (sys_close fd) ;;
        _ <- call (raise_priv euid egid) ;;
        exit (-1, None)
    | Some st1 =>
        when (unsafe_perms uid st1)
          (lcmaps_log LOG_WARNING "read_proxy: unsafe permissions on proxy" ;;;
           _ <- call (sys_close fd) ;;
           _ <- call (raise_priv euid egid) ;;
           exit (-3, None)) ;;;
        mem <- call (malloc (st_size st1 + 1)) ;;
        match mem with
        | None =>
            lcmaps_log LOG_WARNING "read_proxy: out of memory" ;;;
            _ <- call (sys_close fd) ;;
            _ <- call (raise_priv euid egid) ;;
            exit (-4, None)
        | Some buf =>
            l <- call (read_loop fd (Z.to_nat tries) 0
                         (mkLocals buf 0 st1 None 0)) ;;
            _ <- call (filelock fd lock_type LCK_UNLOCK) ;;
            _ <- call (sys_close fd) ;;
            _ <- call (raise_priv euid egid) ;;
            when (truthy (l_rc l))
              (_ <- call free ;; exit (l_rc l, None)) ;;;
            exit (0, Some (store_byte (l_buf l) (Z.to_nat (l_size l))
                                      Byte.x00))
        end
    end).

End Platform.

(* ================================================================== *)
(** ** Certificates (OpenSSL objects as the unit uses them) *)

(** An [ASN1_OBJECT] is an object identifier; it is represented by its
    numeric dotted text. *)
Definition ASN1_OBJECT := string.

Record X509_EXTENSION := mkExt {
  ex_object : option ASN1_OBJECT;
  ex_critical : bool;
  ex_value : list Byte.byte }.

Record X509 := mkX509 {
  x_serial : Z;
  x_subject : option string;
  x_exts : list X509_EXTENSION }.

Record PROXY_POLICY := mkPolicy {
  policyLanguage : option ASN1_OBJECT;
  policy : option (list Byte.byte) }.

Record PROXY_CERT_INFO_EXTENSION := mkPci {
  pcPathLengthConstraint : option Z;
  proxyPolicy : option PROXY_POLICY }.

(** One entry of the stack that [PEM_X509_INFO_read_bio] returns.  An
    entry can hold a certificate, a CRL and a key; [xi_x509] is [None]
    when it holds no certificate, [xi_other] says that it holds something
    else. *)
Record X509_INFO := mkInfo {
  xi_x509 : option X509;
  xi_other : bool }.

(** The first [n] characters of a string. *)
Fixpoint str_take (n : nat) (s : string) : string :=
  match n, s with
  | S n', String c s' => String c (str_take n' s')
  | _, _ => EmptyString
  end.

(** [OBJ_obj2txt(buf, buf_len, obj, 1)]: the numeric form, cut to
    [buf_len - 1] characters so that the terminator fits. *)
Definition OBJ_obj2txt (buf_len : Z) (obj : ASN1_OBJECT) : string :=
  str_take (Z.to_nat (buf_len - 1)) obj.

(** [OBJ_txt2obj(s, 0)] on a numeric dotted text is that identifier. *)
Definition OBJ_txt2obj (s : string) : ASN1_OBJECT := s.

Definition NID_undef : Z := 0.

Section OpenSSL.

(** OpenSSL's table of known objects. *)
Variable OBJ_obj2nid : ASN1_OBJECT -> Z.
(** DER decoder of the proxy-certificate-information extension. *)
Variable d2i_PROXY_CERT_INFO_EXTENSION
  : list Byte.byte -> option PROXY_CERT_INFO_EXTENSION.
(** Public keys and signature verification. *)
Variable EVP_PKEY : Type.
Variable X509_get_pubkey : X509 -> option EVP_PKEY.
Variable X509_verify : X509 -> EVP_PKEY -> Z.
(** The PEM reader: [None] is the NULL result. *)
Variable PEM_X509_INFO_read_bio : string -> option (list X509_INFO).

Definition ext_has_nid (nid : Z) (ex : X509_EXTENSION) : bool :=
  match ex_object ex with
  | Some o => OBJ_obj2nid o =? nid
  | None => NID_undef =? nid
  end.

(** [X509_get_ext_d2i(x, nid, &crit, NULL)] as documented: NULL when no
    extension has the nid, NULL when more than one has it, otherwise the
    decoded value of the only one (NULL when it does not decode). *)
Definition X509_get_ext_d2i (x : X509) (nid : Z)
  : option PROXY_CERT_INFO_EXTENSION :=
  match filter (ext_has_nid nid) (x_exts x) with
  | [ex] => d2i_PROXY_CERT_INFO_EXTENSION (ex_value ex)
  | _ => None
  end.

(** ** psp_verify_proxy_signature *)

Definition psp_verify_proxy_signature (payload pilot : option X509) : Fn Z :=
  body (
    match pilot, payload with
    | Some pilot, Some payload =>
        match X509_get_pubkey pilot with
        | None =>
            lcmaps_log LOG_WARNING
              "psp_verify_proxy_signature: cannot get public key from pilot cert" ;;;
            exit (-1)
        | Some pilot_key =>
            let result := X509_verify payload pilot_key in
            when (negb (result =? 1))
              (lcmaps_log LOG_WARNING
                 "psp_verify_proxy_signature: payload cert is not signed by pilot cert" ;;;
               exit (-1)) ;;;
            exit 0
        end
    | _, _ =>
        lcmaps_log LOG_WARNING
          "psp_verify_proxy_signature: pilot or payload proxy is unset." ;;;
        exit (-1)
    end).

(** ** psp_proxy_is_rfc *)

(** The extension loop, from index [i] on; [exts] are the extensions
    not yet visited. *)
Fixpoint rfc_loop (exts : list X509_EXTENSION) : Z :=
  match exts with
  | [] => 0
  | ex :: rest =>
      match ex_object ex with
      | Some o =>
          if String.eqb (OBJ_obj2txt OBJ_BUF_SIZE o) OID_RFC_PROXY then 1
          else rfc_loop rest
      | None => rfc_loop rest
      end
  end.

Definition psp_proxy_is_rfc (proxy : X509) : Z := rfc_loop (x_exts proxy).

(** ** psp_proxy_is_limited *)

Definition psp_proxy_is_limited (proxy : X509) : Fn Z :=
  body (
    let obj := OBJ_txt2obj OID_RFC_PROXY in
    let nid := OBJ_obj2nid obj in
    match X509_get_ext_d2i proxy nid with
    | Some pci =>
        match proxyPolicy pci with
        | Some pol =>
            match policyLanguage pol with
            | Some policy_lang =>
                let buffer := OBJ_obj2txt OBJ_BUF_SIZE policy_lang in
                lcmaps_log LOG_DEBUG
                  ("psp_proxy_is_limited: found policy_lang " ++ buffer)%string ;;;
                if String.eqb buffer OID_LIMITED_PROXY then exit 1 else exit 0
            | None => exit 0
            end
        | None => exit 0
        end
    | None => exit 0
    end).

(** ** pem_string_to_x509_chain *)

Definition sk_X509_new_null : Fn (option (list X509)) := fun w =>
  if w_fault w SysStackNew (w_clock w) then (None, w) else (Some [], w).

Definition BIO_new_mem_buf (s : string) : Fn (option string) := fun w =>
  if w_fault w SysBioNew (w_clock w) then (None, w) else (Some s, w).

(** [while (sk_X509_INFO_num(sk))]: shift the first entry, push its
    certificate when it has one. *)
Fixpoint convert_loop (sk : list X509_INFO) (mystack : list X509)
  : list X509 :=
  match sk with
  | [] => mystack
  | xi :: sk' =>
      match xi_x509 xi with
      | Some c => convert_loop sk' (mystack ++ [c])
      | None => convert_loop sk' mystack
      end
  end.

(** [certstack] is [None] for a NULL pointer, else the stack pointer it
    points to; the result carries the pointee afterwards. *)
Definition pem_string_to_x509_chain
    (certstack : option (option (list X509))) (certstring : option string)
  : Fn (Z * option (option (list X509))) :=
  body (
    match certstack, certstring with
    | Some old, Some str =>
        mystack <- call sk_X509_new_null ;;
        match mystack with
        | None =>
            lcmaps_log LOG_ERR "pem_string_to_x509_chain: out of memory" ;;;
            exit (-1, certstack)
        | Some mystack =>
            certbio <- call (BIO_new_mem_buf str) ;;
            match certbio with
            | None =>
                lcmaps_log LOG_ERR "pem_string_to_x509_chain: out of memory" ;;;
                exit (-1, certstack)
            | Some bio =>
                match PEM_X509_INFO_read_bio bio with
                | None => exit (1, certstack)
                | Some sk =>
                    let mystack := convert_loop sk mystack in
                    if (length mystack =? 0)%nat then exit (1, certstack)
                    else exit (0, Some (Some mystack))
                end
            end
        end
    | _, _ =>
        lcmaps_log LOG_ERR
          "pem_string_to_x509_chain: certstack and/or certstring is NULL" ;;;
        exit (-1, certstack)
    end).

End OpenSSL.

(* ================================================================== *)
(** ** Arguments of the LCMAPS framework *)

Inductive ArgValue :=
| ArgInt (n : Z)
| ArgStrings (l : option (list string))
| ArgPem (s : option string)
| ArgChain (c : option (list X509)).

(** [value] is [None] when the framework left the pointer unset. *)
Record lcmaps_argument_t := mkArg {
  argName : string;
  argType : string;
  value : option ArgValue }.

(** [lcmaps_getArgValue]: the value pointer of the first of the [argc]
    arguments with this name and type, NULL when there is none. *)
Fixpoint find_arg (name type : string) (argv : list lcmaps_argument_t)
  : option lcmaps_argument_t :=
  match argv with
  | [] => None
  | a :: rest =>
      if String.eqb (argName a) name && String.eqb (argType a) type
      then Some a else find_arg name type rest
  end.

Definition lcmaps_getArgValue (name type : string) (argc : Z)
    (argv : list lcmaps_argument_t) : option ArgValue :=
  match find_arg name type (firstn (Z.to_nat argc) argv) with
  | Some a => value a
  | None => None
  end.

(** ** psp_get_fqans *)

(** [nfqans] and [fqans] are the contents of the caller's variables on
    entry; the result carries them on return.  [None] for [fqans] is a
    NULL list pointer.  An argument whose stored value is not of its
    declared type is outside the framework's contract: the variable then
    keeps its content. *)
Definition psp_get_fqans (nfqans : Z) (fqans : option (list string))
    (argc : Z) (argv : list lcmaps_argument_t)
  : Fn (Z * (Z * option (list string))) :=
  body (
    match lcmaps_getArgValue "nfqan" "int" argc argv with
    | Some v =>
        let nfqans := match v with ArgInt n => n | _ => nfqans end in
        lcmaps_log LOG_DEBUG "psp_get_fqans: found nfqan" ;;;
        if nfqans >? 0 then
          lcmaps_log LOG_DEBUG
            "psp_get_fqans: the list of FQANs should contain elements" ;;;
          match lcmaps_getArgValue "fqan_list" "char **" argc argv with
          | Some v2 =>
              let fqans := match v2 with ArgStrings l => l | _ => fqans end in
              lcmaps_log LOG_DEBUG "psp_get_fqans: found list of FQANs" ;;;
              exit (0, (nfqans, fqans))
          | None => exit (0, (nfqans, fqans))
          end
        else
          lcmaps_log LOG_INFO
            "psp_get_fqans: No VOMS FQANs present in the proxy chain" ;;;
          exit (0, (nfqans, fqans))
    | None =>
        lcmaps_log LOG_INFO
          "psp_get_fqans: No VOMS AC(s) found by the framework in the proxy chain." ;;;
        exit (0, (nfqans, fqans))
    end).

(** ** Consumers of the FQAN list *)

Section Consumers.

(** [fnmatch(pattern, string, FNM_NOESCAPE)]. *)
Variable fnmatch_noescape : string -> string -> Z.

(** [fqans[i]]: [None] when the access leaves the array (or the pointer
    is NULL), which C leaves undefined. *)
Definition fqan_at (fqans : option (list string)) (i : Z) : option string :=
  match fqans with
  | Some l => if i <? 0 then None else nth_error l (Z.to_nat i)
  | None => None
  end.

(** [for (i=0; i<nfqan; i++)] of [psp_match_fqan]; [n] is [nfqan - i].
    The result is [None] when an access is undefined. *)
Fixpoint match_loop (n : nat) (i : Z) (fqans : option (list string))
    (pattern : string) : M (option Z) unit :=
  match n with
  | O => ret tt
  | S n' =>
      match fqan_at fqans i with
      | Some f =>
          if fnmatch_noescape pattern f =? 0 then
            lcmaps_log LOG_DEBUG "psp_match_fqan: found FQAN matching" ;;;
            exit (Some 1)
          else match_loop n' (i + 1) fqans pattern
      | None => exit None
      end
  end.

Definition psp_match_fqan (nfqan : Z) (fqans : option (list string))
    (pattern : string) : Fn (option Z) :=
  body (match_loop (Z.to_nat nfqan) 0 fqans pattern ;;; exit (Some 0)).

(** [addCredentialData(LCMAPS_VO_CRED_STRING, &fqan)]. *)
Definition addCredentialData (kind data : string) : Fn Z := fun w =>
  if w_fault w SysAddCred (w_clock w)
  then (-1, emit (EvAddCred kind data (-1)) w)
  else (0, emit (EvAddCred kind data 0) w).

Fixpoint store_loop (n : nat) (i : Z) (fqans : option (list string))
  : M (option Z) unit :=
  match n with
  | O => ret tt
  | S n' =>
      match fqan_at fqans i with
      | Some f =>
          rc <- call (addCredentialData "LCMAPS_VO_CRED_STRING" f) ;;
          if truthy rc then
            lcmaps_log LOG_WARNING
              "psp_store_fqans: failed to add FQAN to credential data" ;;;
            exit (Some (-1))
          else store_loop n' (i + 1) fqans
      | None => exit None
      end
  end.

Definition psp_store_fqans (nfqans : Z) (fqans : option (list string))
  : Fn (option Z) :=
  body (
    store_loop (Z.to_nat nfqans) 0 fqans ;;;
    lcmaps_log LOG_DEBUG
      "psp_store_fqans: successfully added FQANs to credential data" ;;;
    exit (Some 0)).

End Consumers.

(* ================================================================== *)
(** ** The verdicts of the specification *)

Inductive TrustVerdict := Verified | SignatureMismatch | MissingKey | MissingInput.

Section VerdictSpec.

Variable EVP_PKEY : Type.
Variable X509_get_pubkey : X509 -> option EVP_PKEY.
Variable X509_verify : X509 -> EVP_PKEY -> Z.

(** The specification's [verify], in its own words: either input missing
    is [MissingInput]; a pilot key that cannot be extracted is
    [MissingKey]; a signature that does not verify under that key is
    [SignatureMismatch]; otherwise [Verified]. *)
Definition verify_spec (payload pilot : option X509) : TrustVerdict :=
  match payload, pilot with
  | Some pa, Some pi =>
      match X509_get_pubkey pi with
      | None => MissingKey
      | Some k => if X509_verify pa k =? 1 then Verified else SignatureMismatch
      end
  | _, _ => MissingInput
  end.

End VerdictSpec.

(** How the unit reports a verdict: the return value and the warning it
    logs on the way. *)
Definition verdict_code (v : TrustVerdict) : Z :=
  match v with Verified => 0 | _ => -1 end.

Definition verdict_log (v : TrustVerdict) : list Event :=
  match v with
  | Verified => []
  | SignatureMismatch =>
      [EvLog LOG_WARNING
         "psp_verify_proxy_signature: payload cert is not signed by pilot cert"]
  | MissingKey =>
      [EvLog LOG_WARNING
         "psp_verify_proxy_signature: cannot get public key from pilot cert"]
  | MissingInput =>
      [EvLog LOG_WARNING
         "psp_verify_proxy_signature: pilot or payload proxy is unset."]
  end.

(* ================================================================== *)
(** ** The certificates of a PEM text, in the specification's words *)

(** The certificates held by the entries, in source order; an entry
    without a certificate is skipped. *)
Fixpoint certs_of (sk : list X509_INFO) : list X509 :=
  match sk with
  | [] => []
  | xi :: sk' =>
      match xi_x509 xi with
      | Some c => c :: certs_of sk'
      | None => certs_of sk'
      end
  end.

Definition has_cert (o : option X509) : bool :=
  match o with Some _ => true | None => false end.

(* ================================================================== *)
(** ** OpenSSL's PEM_X509_INFO_read_bio on PEM text

    The reader of OpenSSL (crypto/pem/pem_info.c), which is not part of
    the unit, as far as the unit depends on it.  It takes the blocks of
    the text one by one with [PEM_read_bio], tells certificates, CRLs and
    private keys apart by the name in the BEGIN line, decodes the body
    with the decoder of that kind and collects the results in entries.
    An entry has one place for a certificate, one for a CRL and one for a
    key; a result that finds its place taken starts a new entry.  A block
    with any other name is passed over.  A block of a known kind whose
    body does not decode makes the reader give up: it frees what it has
    collected and returns NULL.  Allocation failures inside OpenSSL are
    not modelled. *)

Record PemBlock := mkBlock {
  pb_name : string;
  pb_header : string;
  pb_data : list Byte.byte }.

Definition is_cert_name (n : string) : bool :=
  String.eqb n "CERTIFICATE" || String.eqb n "X509 CERTIFICATE"
  || String.eqb n "TRUSTED CERTIFICATE".
Definition is_crl_name (n : string) : bool := String.eqb n "X509 CRL".
Definition is_key_name (n : string) : bool :=
  String.eqb n "RSA PRIVATE KEY" || String.eqb n "DSA PRIVATE KEY"
  || String.eqb n "EC PRIVATE KEY".

(** The entry under construction: its certificate, and whether its CRL
    and key places are taken. *)
Record InfoSlots := mkSlots {
  s_x509 : option X509;
  s_crl : bool;
  s_pkey : bool }.

Definition empty_slots : InfoSlots := mkSlots None false false.
Definition slots_used (xi : InfoSlots) : bool :=
  has_cert (s_x509 xi) || s_crl xi || s_pkey xi.
Definition slots_info (xi : InfoSlots) : X509_INFO :=
  mkInfo (s_x509 xi) (s_crl xi || s_pkey xi).

Section PemReader.

(** The blocks that successive [PEM_read_bio] calls deliver until no
    BEGIN line is left; [None] when a call fails for another reason (a
    body that is not base64, a missing END line). *)
Variable PEM_read_bio_all : string -> option (list PemBlock).
(** The decoders, applied to a block after its header has been
    processed: the certificate, or whether the CRL or key decodes (an
    encrypted key is kept undecoded and counts as decoded). *)
Variable d2i_X509 : PemBlock -> option X509.
Variable d2i_X509_CRL : PemBlock -> bool.
Variable d2i_PrivateKey : PemBlock -> bool.

(** The [for (;;)] loop of the reader over the remaining blocks, with
    the entry under construction and the entries pushed so far. *)
Fixpoint info_loop (blocks : list PemBlock) (xi : InfoSlots)
    (ret : list X509_INFO) : option (list X509_INFO) :=
  match blocks with
  | [] => Some (if slots_used xi then ret ++ [slots_info xi] else ret)
  | b :: rest =>
      if is_cert_name (pb_name b) then
        let '(xi, ret) :=
          if has_cert (s_x509 xi) then (empty_slots, ret ++ [slots_info xi])
          else (xi, ret) in
        match d2i_X509 b with
        | Some c => info_loop rest (mkSlots (Some c) (s_crl xi) (s_pkey xi)) ret
        | None => None
        end
      else if is_crl_name (pb_name b) then
        let '(xi, ret) :=
          if s_crl xi then (empty_slots, ret ++ [slots_info xi])
          else (xi, ret) in
        if d2i_X509_CRL b
        then info_loop rest (mkSlots (s_x509 xi) true (s_pkey xi)) ret
        else None
      else if is_key_name (pb_name b) then
        let '(xi, ret) :=
          if s_pkey xi then (empty_slots, ret ++ [slots_info xi])
          else (xi, ret) in
        if d2i_PrivateKey b
        then info_loop rest (mkSlots (s_x509 xi) (s_crl xi) true) ret
        else None
      else info_loop rest xi ret
  end.

Definition openssl_PEM_X509_INFO_read_bio (text : string)
  : option (list X509_INFO) :=
  match PEM_read_bio_all text with
  | Some blocks => info_loop blocks empty_slots []
  | None => None
  end.

(** A block of a known kind decodes; a block of another kind is never
    decoded. *)
Definition block_decodes (b : PemBlock) : bool :=
  if is_cert_name (pb_name b) then has_cert (d2i_X509 b)
  else if is_crl_name (pb_name b) then d2i_X509_CRL b
  else if is_key_name (pb_name b) then d2i_PrivateKey b
  else true.

(** The certificates of the certificate blocks that decode, in source
    order. *)
Definition block_certs (blocks : list PemBlock) : list X509 :=
  flat_map (fun b => if is_cert_name (pb_name b)
                     then match d2i_X509 b with Some c => [c] | None => [] end
                     else []) blocks.

End PemReader.

(* ================================================================== *)
(** ** Observations on worlds and traces *)

Definition is_read (e : Event) : bool :=
  match e with EvRead _ _ _ => true | _ => false end.
Definition is_add_cred (e : Event) : bool :=
  match e with EvAddCred _ _ _ => true | _ => false end.

(** Number of [read] calls issued so far. *)
Definition reads (w : World) : nat := length (filter is_read (w_trace w)).

(** The locks that [filelock] requests for [lock_type] are granted at
    the current clock. *)
Definition lock_granted (sun : bool) (lock_type : Z) (w : World) : bool :=
  truthy (Z.land lock_type LCK_NOLOCK)
  || ((if truthy (Z.land lock_type LCK_FLOCK)
       then negb sun && negb (w_fault w SysFlock (w_clock w)) else true)
      && (if truthy (Z.land lock_type LCK_FCNTL)
          then negb (w_fault w SysFcntl (w_clock w)) else true)).

(** The file behind [path] can be opened at the current clock. *)
Definition opens (path : string) (h : nat -> File) (w : World) : Prop :=
  w_fs w path = Some h /\ w_fault w SysOpen (w_clock w) = false.

(** A world that differs from [w] in credentials and by new events. *)
Definition evolve (c : Cred) (evs : list Event) (w : World) : World :=
  mkWorld c (w_fs w) (w_clock w) (w_fault w) (w_junk w) (w_fdt w)
          (evs ++ w_trace w).

(** The world [w] after [k] more observations, with credentials [c],
    descriptor table [t] and the new events [evs]. *)
Definition upd (k : nat) (c : Cred) (t : list (Z * OpenFile))
    (evs : list Event) (w : World) : World :=
  mkWorld c (w_fs w) (k + w_clock w) (w_fault w) (w_junk w) t
          (evs ++ w_trace w).

(** Table [t'] has [fd] open on the same inode as [t] (at the same
    offset for [keeps_off]) and agrees with [t] on all other
    descriptors. *)
Definition keeps (fd : Z) (t t' : list (Z * OpenFile)) : Prop :=
  fd_remove fd t' = fd_remove fd t /\
  forall o, fd_lookup fd t = Some o ->
            exists o', fd_lookup fd t' = Some o' /\ of_inode o' = of_inode o.

Definition keeps_off (fd : Z) (t t' : list (Z * OpenFile)) : Prop :=
  fd_remove fd t' = fd_remove fd t /\
  forall o, fd_lookup fd t = Some o ->
            exists o', fd_lookup fd t' = Some o' /\
                       of_inode o' = of_inode o /\ of_off o' = of_off o.

(** The credentials [read_proxy] runs under between its privilege drop
    and its calls of [raise_priv], for a process that entered with [c]. *)
Definition guard_cred (c : Cred) : Cred :=
  if (c_euid c =? 0) && negb (c_ruid c =? 0)
  then mkCred (c_ruid c) (c_ruid c) (c_suid c)
              (c_rgid c) (c_rgid c) (c_sgid c)
  else c.

(** ** read_proxy in direct style

    The same function with the monad expanded: every call hands its
    world to the next one.  It is proved equal to [read_proxy] below and
    is what the proofs about [read_proxy] run on. *)

(** The common tail of the error exits that hold a descriptor. *)
Definition close_and_raise (fd euid egid rc : Z)
  : Fn (Z * option (list Byte.byte)) := fun w =>
  let (_, wa) := sys_close fd w in
  let (_, wb) := raise_priv euid egid wa in
  ((rc, None), wb).

(** [read_proxy] from its [open] call on. *)
Definition read_proxy_from (sun : bool) (path : string) (lock_type : Z)
    (uid euid egid : Z) : Fn (Z * option (list Byte.byte)) := fun w1 =>
  let (fd, w2) := sys_open path w1 in
  if fd =? -1 then
    let (_, w3) :=
      raise_priv euid egid
        (emit (EvLog LOG_WARNING "read_proxy: cannot open proxy") w2) in
    ((-1, None), w3)
  else
    let (lk, w3) := filelock sun fd lock_type LCK_READ w2 in
    if truthy lk then close_and_raise fd euid egid (-6) w3
    else
      match sys_fstat fd w3 with
      | (None, w4) =>
          close_and_raise fd euid egid (-1)
            (emit (EvLog LOG_WARNING "read_proxy: cannot stat proxy") w4)
      | (Some st1, w4) =>
          if unsafe_perms uid st1 then
            close_and_raise fd euid egid (-3)
              (emit (EvLog LOG_WARNING
                       "read_proxy: unsafe permissions on proxy") w4)
          else
            match malloc (st_size st1 + 1) w4 with
            | (None, w5) =>
                close_and_raise fd euid egid (-4)
                  (emit (EvLog LOG_WARNING "read_proxy: out of memory") w5)
            | (Some buf, w5) =>
                let (l, w6) :=
                  read_loop fd (Z.to_nat tries) 0
                            (mkLocals buf 0 st1 None 0) w5 in
                let (_, w7) := filelock sun fd lock_type LCK_UNLOCK w6 in
                let (_, w8) := sys_close fd w7 in
                let (_, w9) := raise_priv euid egid w8 in
                if truthy (l_rc l) then
                  let (_, w10) := free w9 in ((l_rc l, None), w10)
                else
                  ((0, Some (store_byte (l_buf l) (Z.to_nat (l_size l))
                                        Byte.x00)), w9)
            end
      end.

Definition read_proxy_direct (sun : bool) (path : string) (lock_type : Z)
  : Fn (Z * option (list Byte.byte)) := fun w =>
  let uid := c_ruid (w_cred w) in
  let euid := c_euid (w_cred w) in
  let gid := c_rgid (w_cred w) in
  let egid := c_egid (w_cred w) in
  let (dropfail, w1) :=
    if (euid =? 0) && negb (uid =? 0)
    then let (rc, w') := priv_drop uid gid w in (truthy rc, w')
    else (false, w) in
  if (dropfail : bool) then
    ((-2, None),
     emit (EvLog LOG_WARNING "read_proxy: cannot drop privilege") w1)
  else read_proxy_from sun path lock_type uid euid egid w1.

Ltac norm_upd := autorewrite with upd_simpl; cbn [Nat.add app].
Ltac norm_upd_in H := autorewrite with upd_simpl in H; cbn [Nat.add app] in H.
Ltac norm_upd_all :=
  autorewrite with upd_simpl in *; cbn [Nat.add app] in *.

(** Reduce [filter is_read] over a trace built from pieces whose reads
    are known. *)
Ltac count_reads :=
  repeat first
    [ rewrite filter_app
    | progress (cbn [filter is_read])
    | match goal with
      | H : filter is_read ?e = _ |- context [filter is_read ?e] => rewrite H
      end ];
  cbn [app length Nat.add].

Ltac unfold_cfun :=
  unfold nonzero, orelse, when, lcmaps_log, body, call, bind, ret, exit.

(** [read_proxy] gets as far as its permission check: the file opens,
    the read lock is granted and the first [fstat] succeeds. *)
Definition reaches_check (sun : bool) (path : string) (lock_type : Z)
    (h : nat -> File) (w : World) : Prop :=
  opens path h w /\ lock_granted sun lock_type w = true /\
  w_fault w SysFstat (w_clock w) = false.

(** [read_proxy] gets as far as its retry loop: it reaches the check, the
    file passes it and the buffer is allocated. *)
Definition reaches_loop (sun : bool) (path : string) (lock_type : Z)
    (h : nat -> File) (w : World) : Prop :=
  reaches_check sun path lock_type h w /\
  unsafe_perms (c_ruid (w_cred w)) (stat_of (h (w_clock w))) = false /\
  w_fault w SysMalloc (S (w_clock w)) = false.

(** A process that can regain what [read_proxy] drops: its effective ids
    are valid ids, and when it runs with effective superuser and another
    real user, its saved set-user-ID is the superuser too (the state a
    set-uid-root program starts in). *)
Definition regain_ok (c : Cred) : Prop :=
  id_valid (c_euid c) = true /\ id_valid (c_egid c) = true /\
  (c_euid c = 0 -> c_ruid c <> 0 -> c_suid c = 0).

(* ================================================================== *)
(** ** Sample inputs *)

Definition no_fault : Syscall -> nat -> bool := fun _ _ => false.

(** Every [flock] call fails (ENOLCK, EINTR, a file system without
    [flock]). *)
Definition flock_fails : Syscall -> nat -> bool :=
  fun s _ => match s with SysFlock => true | _ => false end.

Definition proxy_path : string := "/tmp/x509up_u1000".

(** World of a set-uid-root process of user 1000 with one proxy file. *)
Definition sample_world (h : nat -> File) (flt : Syscall -> nat -> bool)
  : World :=
  mkWorld (mkCred 1000 0 0 1000 0 0)
          (fun p => if String.eqb p proxy_path then Some h else None)
          0%nat flt Byte.xff [] [].

Definition pem_v1 : list Byte.byte := [Byte.x41; Byte.x42].
Definition pem_v2 : list Byte.byte := [Byte.x43; Byte.x44; Byte.x45].

(** mode 0600 and mode 0644 *)
Definition file_v1 : File := mkFile 1000 384 100 100 pem_v1.
Definition file_v2 : File := mkFile 1000 384 200 200 pem_v2.
Definition file_open_mode : File := mkFile 1000 420 100 100 pem_v1.

(** A file rewritten before every observation. *)
Definition churning : nat -> File :=
  fun t => mkFile 1000 384 (Z.of_nat t) (Z.of_nat t) pem_v1.
(** A file rewritten once, between the first read and its re-snapshot. *)
Definition renewed_once : nat -> File :=
  fun t => if (t <? 2)%nat then file_v1 else file_v2.

(** World of a process with effective user 0 whose real and saved user
    ids are both 1000: it can drop to its real user but has no way
    back. *)
Definition no_way_back_world (h : nat -> File) : World :=
  mkWorld (mkCred 1000 0 1000 1000 1000 1000)
          (fun p => if String.eqb p proxy_path then Some h else None)
          0%nat no_fault Byte.xff [] [].

(** A certificate with no extension, told apart by its serial. *)
Definition sample_cert (n : Z) : X509 := mkX509 n (Some "/CN=sample") [].

Definition sample_pem : string := "cert-1 key cert-2".

(** What the PEM reader gives for [sample_pem]: a certificate, a private
    key, a certificate. *)
Definition sample_infos : list X509_INFO :=
  [mkInfo (Some (sample_cert 1)) false; mkInfo None true;
   mkInfo (Some (sample_cert 2)) false].

Definition sample_pem_reader (s : string) : option (list X509_INFO) :=
  if String.eqb s sample_pem then Some sample_infos else None.

(** PEM texts as blocks, with one-byte stand-ins for the bodies: byte 1
    and byte 2 decode to the certificates 1 and 2, byte 3 decodes as a
    key, anything else does not decode. *)
Definition cert_block (d : Byte.byte) : PemBlock :=
  mkBlock "CERTIFICATE" "" [d].
Definition key_block (d : Byte.byte) : PemBlock :=
  mkBlock "RSA PRIVATE KEY" "" [d].

Definition sample_blocks (text : string) : option (list PemBlock) :=
  if String.eqb text "cert-1 key cert-2"
  then Some [cert_block Byte.x01; key_block Byte.x03; cert_block Byte.x02]
  else if String.eqb text "cert-1 broken-cert"
  then Some [cert_block Byte.x01; cert_block Byte.xff]
  else if String.eqb text "cert-1 dh-params"
  then Some [cert_block Byte.x01; mkBlock "DH PARAMETERS" "" [Byte.xff]]
  else None.

Definition sample_d2i_X509 (b : PemBlock) : option X509 :=
  match pb_data b with
  | [Byte.x01] => Some (sample_cert 1)
  | [Byte.x02] => Some (sample_cert 2)
  | _ => None
  end.
Definition sample_d2i_key (b : PemBlock) : bool :=
  match pb_data b with [Byte.x03] => true | _ => false end.

(** The reader on these texts. *)
Definition sample_text_reader : string -> option (list X509_INFO) :=
  openssl_PEM_X509_INFO_read_bio sample_blocks sample_d2i_X509
    (fun _ => false) sample_d2i_key.

(** An object table that knows the proxy-certificate-information
    extension (nid 663 in OpenSSL) and nothing else. *)
Definition sample_nid (o : ASN1_OBJECT) : Z :=
  if String.eqb o OID_RFC_PROXY then 663 else NID_undef.

(** A decoder on one-byte stand-ins for DER values: a limited-proxy
    policy, an inherit-all policy, anything else does not decode. *)
Definition sample_d2i (der : list Byte.byte)
  : option PROXY_CERT_INFO_EXTENSION :=
  match der with
  | [Byte.x01] =>
      Some (mkPci None (Some (mkPolicy (Some OID_LIMITED_PROXY) None)))
  | [Byte.x02] =>
      Some (mkPci None (Some (mkPolicy (Some "1.3.6.1.5.5.7.21.1") None)))
  | _ => None
  end.

Definition limited_cert : X509 :=
  mkX509 7 (Some "/CN=pilot/CN=limited proxy")
         [mkExt (Some "2.5.29.15") true [];
          mkExt (Some OID_RFC_PROXY) true [Byte.x01]].

(** Framework arguments that carry the payload as PEM text and no FQAN
    data. *)
Definition pem_only_args : list lcmaps_argument_t :=
  [mkArg "pem_string" "char *" (Some (ArgPem (Some sample_pem)))].

(** Caller variables that still hold two attributes of an earlier use. *)
Definition stale_fqans : option (list string) :=
  Some ["/atlas/Role=production"; "/atlas"].

(* ================================================================== *)
(** ** The public entry points around the readers *)

(** [lock_type_t] of the unit's header: the enumerators that the switch
    of [psp_get_pilot_proxy] names; [LOCK_other n] is any other value. *)
Inductive lock_type_t :=
| LOCK_NOLOCK
| LOCK_FCNTL
| LOCK_FLOCK
| LOCK_other (n : Z).

(** The C string held in a buffer: the bytes before the first zero. *)
Fixpoint cstring_of (buf : list Byte.byte) : string :=
  match buf with
  | [] => EmptyString
  | c :: rest =>
      if Byte.eqb c Byte.x00 then EmptyString
      else String (ascii_of_byte c) (cstring_of rest)
  end.

(** ** psp_get_pilot_proxy *)

Section PilotProxy.

Variable sun : bool.
(** The environment of the process: [None] is the NULL of [getenv]. *)
Variable getenv : string -> option string.
Variable PEM_X509_INFO_read_bio : string -> option (list X509_INFO).

(** [certstack] and the second component of the result are as in
    [pem_string_to_x509_chain]. *)
Definition psp_get_pilot_proxy (certstack : option (option (list X509)))
    (lock_type : lock_type_t) : Fn (Z * option (option (list X509))) :=
  body (
    match getenv "X509_USER_PROXY" with
    | None =>
        lcmaps_log LOG_WARNING
          "psp_get_pilot_proxy: environment variable X509_USER_PROXY unset" ;;;
        exit (-1, certstack)
    | Some proxy =>
        lock_flags <- match lock_type with
                      | LOCK_NOLOCK => ret LCK_NOLOCK
                      | LOCK_FCNTL => ret LCK_FCNTL
                      | LOCK_FLOCK => ret LCK_FLOCK
                      | LOCK_other _ =>
                          lcmaps_log LOG_ERR
                            "psp_get_pilot_proxy: unknown lock_type" ;;;
                          exit (-1, certstack)
                      end ;;
        r <- call (read_proxy sun proxy lock_flags) ;;
        when (truthy (fst r)) (exit (-1, certstack)) ;;;
        p <- call (pem_string_to_x509_chain PEM_X509_INFO_read_bio certstack
                     (option_map cstring_of (snd r))) ;;
        _ <- call free ;;
        when (truthy (fst p))
          (lcmaps_log LOG_WARNING
             "psp_get_pilot_proxy: cannot convert pemstring to chain." ;;;
           exit (-1, snd p)) ;;;
        exit (0, snd p)
    end).

End PilotProxy.

(** ** psp_get_payload_proxy and psp_cleanup_chains *)

(** The chain pointer and the text pointer behind the value pointer of
    an argument: NULL when the value pointer or what it points to is
    unset.  A value that is not of the declared type is outside the
    framework's contract and is read as unset. *)
Definition chain_value (v : option ArgValue) : option (list X509) :=
  match v with Some (ArgChain c) => c | _ => None end.
Definition pem_value (v : option ArgValue) : option string :=
  match v with Some (ArgPem s) => s | _ => None end.

Section PayloadProxy.

Variable PEM_X509_INFO_read_bio : string -> option (list X509_INFO).

(** The file-scope variable [payload_chain_needs_cleaning] is passed in
    and handed back: the result is the return value, the content of
    [*certstack] and the content of the variable on return. *)
Definition psp_get_payload_proxy (payload_chain_needs_cleaning : Z)
    (certstack : option (list X509)) (argc : Z)
    (argv : list lcmaps_argument_t)
  : Fn (Z * (option (list X509) * Z)) :=
  body (
    match chain_value (lcmaps_getArgValue "px509_chain" "STACK_OF(X509) *"
                         argc argv) with
    | Some chain => exit (0, (Some chain, payload_chain_needs_cleaning))
    | None =>
        lcmaps_log LOG_DEBUG
          "psp_get_payload_proxy: no X.509 chain is set, trying pem string." ;;;
        match pem_value (lcmaps_getArgValue "pem_string" "char *"
                           argc argv) with
        | None =>
            lcmaps_log LOG_WARNING
              "psp_get_payload_proxy: no chain or pemstring is set." ;;;
            exit (-1, (certstack, payload_chain_needs_cleaning))
        | Some pem =>
            p <- call (pem_string_to_x509_chain PEM_X509_INFO_read_bio
                         (Some None) (Some pem)) ;;
            when (truthy (fst p))
              (lcmaps_log LOG_WARNING
                 "psp_get_payload_proxy: cannot convert pemstring to chain." ;;;
               exit (-1, (certstack, payload_chain_needs_cleaning))) ;;;
            exit (0, (match snd p with Some chain => chain | None => None end,
                      1))
        end
    end).

End PayloadProxy.

(** [sk_X509_pop_free(sk, X509_free)]. *)
Definition sk_X509_pop_free (sk : list X509) : Fn unit :=
  fun w => (tt, emit EvFree w).

(** The function returns nothing; the result here lists the stacks it
    has freed, in order. *)
Definition psp_cleanup_chains (payload_chain_needs_cleaning : Z)
    (pilot payload : option (list X509)) : Fn (list (list X509)) :=
  body (
    freed1 <- match pilot with
              | Some sk => call (sk_X509_pop_free sk) ;;; ret [sk]
              | None => ret []
              end ;;
    freed2 <- match payload with
              | Some sk =>
                  if truthy payload_chain_needs_cleaning
                  then call (sk_X509_pop_free sk) ;;; ret [sk]
                  else ret []
              | None => ret []
              end ;;
    exit (freed1 ++ freed2)).

(** ** psp_store_proxy_dn *)

(** [X509_NAME_oneline(name, NULL, 0)]: the one-line text of the name in
    a block that the call allocates, NULL when the allocation fails.  A
    name is represented by that text. *)
Definition X509_NAME_oneline (name : string) : Fn (option string) :=
  fun w =>
    if w_fault w SysMalloc (w_clock w) then (None, w) else (Some name, w).

Definition psp_store_proxy_dn (payload : X509) : Fn Z :=
  body (
    match x_subject payload with
    | None =>
        lcmaps_log LOG_WARNING
          "psp_store_proxy_dn: cannot obtain DN of payload certificate" ;;;
        exit (-1)
    | Some subject =>
        dn <- call (X509_NAME_oneline subject) ;;
        match dn with
        | None =>
            lcmaps_log LOG_WARNING
              "psp_store_proxy_dn: cannot obtain DN of payload certificate" ;;;
            exit (-1)
        | Some payload_dn =>
            rc <- call (addCredentialData "DN" payload_dn) ;;
            (if rc =? 0 then
               lcmaps_log LOG_DEBUG
                 "psp_store_proxy_dn: successfully added DN to credential data"
             else
               lcmaps_log LOG_WARNING
                 "psp_store_proxy_dn: failed to add DN to credential data") ;;;
            _ <- call free ;;
            exit rc
        end
    end).

(** ** Further observations *)

(** The credential data that the framework has accepted so far, oldest
    first, as pairs of kind and value. *)
Definition cred_of (e : Event) : list (string * string) :=
  match e with
  | EvAddCred k d rc => if rc =? 0 then [(k, d)] else []
  | _ => []
  end.
Definition published (w : World) : list (string * string) :=
  flat_map cred_of (rev (w_trace w)).

(** What [fnmatch] says about one attribute. *)
Definition fqan_matches (fnmatch_noescape : string -> string -> Z)
    (pattern f : string) : bool :=
  fnmatch_noescape pattern f =? 0.

(** The lock primitives that [filelock] uses for [lock_type]. *)
Definition uses_flock (lock_type : Z) : bool :=
  negb (truthy (Z.land lock_type LCK_NOLOCK))
  && truthy (Z.land lock_type LCK_FLOCK).
Definition uses_fcntl (lock_type : Z) : bool :=
  negb (truthy (Z.land lock_type LCK_NOLOCK))
  && truthy (Z.land lock_type LCK_FCNTL).

Definition valid_action (action : Z) : bool :=
  (action =? LCK_READ) || (action =? LCK_WRITE) || (action =? LCK_UNLOCK).

(** Return values that [read_proxy] documents. *)
Definition read_proxy_code (rc : Z) : bool :=
  (rc =? 0) || (rc =? -1) || (rc =? -2) || (rc =? -3) || (rc =? -4)
  || (rc =? -5) || (rc =? -6).

(** The lock that a successful request of [action] leaves on the
    descriptor. *)
Definition flock_held (action : Z) : option FlockOp :=
  if action =? LCK_READ then Some LOCK_SH
  else if action =? LCK_WRITE then Some LOCK_EX else None.
Definition fcntl_held (action : Z) : option FcntlType :=
  if action =? LCK_READ then Some F_RDLCK
  else if action =? LCK_WRITE then Some F_WRLCK else None.

(** The lock flags that the switch of [psp_get_pilot_proxy] selects;
    [None] for a value it does not know. *)
Definition lock_flags_of (lock_type : lock_type_t) : option Z :=
  match lock_type with
  | LOCK_NOLOCK => Some LCK_NOLOCK
  | LOCK_FCNTL => Some LCK_FCNTL
  | LOCK_FLOCK => Some LCK_FLOCK
  | LOCK_other _ => None
  end.

(** An environment that names the sample proxy file. *)
Definition sample_env (name : string) : option string :=
  if String.eqb name "X509_USER_PROXY" then Some proxy_path else None.

(** A proxy file whose text is [sample_pem], followed by a zero byte and
    a byte that is not part of the text. *)
Definition pem_file : File :=
  mkFile 1000 384 100 100
         (list_byte_of_string sample_pem ++ [Byte.x00; Byte.x41]).

(* ================================================================== *)
(** * Properties *)

(** ** Basic facts *)

Lemma truthy_0 : truthy 0 = false.
Proof. reflexivity. Qed.

Lemma truthy_true z : truthy z = true <-> z <> 0.
Proof.
  unfold truthy. destruct (Z.eqb_spec z 0); simpl; split; intros; congruence.
Qed.

(** ** filelock *)

(** C10. For every lock_type with the no-lock bit set, [filelock] returns 0
    at once and leaves the world as it was: no lock or unlock call is
    issued, whatever the other bits of lock_type, the action, the
    descriptor and the platform. *)
Theorem filelock_nolock_is_noop :
  forall (sun : bool) (fd lock_type action : Z) (w : World),
    Z.land lock_type LCK_NOLOCK <> 0 ->
    filelock sun fd lock_type action w = (0, w).
Proof.
  intros sun fd lock_type action w H.
  apply truthy_true in H.
  unfold filelock. unfold_cfun. rewrite H. reflexivity.
Qed.

Lemma filelock_nolock_is_noop_witness :
  Z.land 7 LCK_NOLOCK <> 0 /\
  Z.land 7 LCK_FLOCK <> 0 /\ Z.land 7 LCK_FCNTL <> 0 /\
  filelock false 3 7 LCK_READ (sample_world (fun _ => file_v1) no_fault)
  = (0, sample_world (fun _ => file_v1) no_fault).
Proof.
  split; [ discriminate | ].
  split; [ discriminate | ].
  split; [ discriminate | ].
  apply (filelock_nolock_is_noop false 3 7 LCK_READ). discriminate.
Defined.

(** ** priv_drop and raise_priv *)

Lemma may_seteuid_root c u :
  c_euid c = 0 -> id_valid u = true -> may_seteuid c u = true.
Proof.
  intros H Hv. unfold may_seteuid. rewrite H, Hv. simpl.
  apply orb_true_r.
Qed.

Lemma may_setegid_root c g :
  c_euid c = 0 -> id_valid g = true -> may_setegid c g = true.
Proof.
  intros H Hv. unfold may_setegid. rewrite H, Hv. simpl.
  apply orb_true_r.
Qed.

Lemma evolve_id w : evolve (w_cred w) [] w = w.
Proof. destruct w. reflexivity. Qed.

Lemma seteuid_ok u w :
  may_seteuid (w_cred w) u = true ->
  seteuid u w =
  (0, evolve (mkCred (c_ruid (w_cred w)) u (c_suid (w_cred w))
                     (c_rgid (w_cred w)) (c_egid (w_cred w))
                     (c_sgid (w_cred w)))
             [EvSeteuid u 0] w).
Proof. intros H. unfold seteuid. rewrite H. reflexivity. Qed.

Lemma setegid_ok g w :
  may_setegid (w_cred w) g = true ->
  setegid g w =
  (0, evolve (mkCred (c_ruid (w_cred w)) (c_euid (w_cred w))
                     (c_suid (w_cred w)) (c_rgid (w_cred w)) g
                     (c_sgid (w_cred w)))
             [EvSetegid g 0] w).
Proof. intros H. unfold setegid. rewrite H. reflexivity. Qed.

(** Dropping from effective superuser to the real ids always succeeds
    and lands on them: a process may always take its real ids. *)
Lemma priv_drop_from_root w :
  c_euid (w_cred w) = 0 -> c_ruid (w_cred w) <> 0 ->
  exists evs,
    priv_drop (c_ruid (w_cred w)) (c_rgid (w_cred w)) w =
    (0, evolve (mkCred (c_ruid (w_cred w)) (c_ruid (w_cred w))
                       (c_suid (w_cred w))
                       (c_rgid (w_cred w)) (c_rgid (w_cred w))
                       (c_sgid (w_cred w)))
               evs w)
    /\ filter is_read evs = [].
Proof.
  intros He Hu. destruct w as [c fs clk flt junk fdt tr]. simpl in *.
  destruct c as [ru eu su rg eg sg]. simpl in *. subst eu.
  assert (Hu' : (ru =? 0) = false) by (apply Z.eqb_neq; exact Hu).
  unfold priv_drop. unfold_cfun. unfold geteuid, getegid. simpl.
  destruct (Z.eqb_spec rg eg) as [<-|Hg].
  - simpl. rewrite Hu'. simpl. unfold seteuid, may_seteuid. simpl.
    rewrite Z.eqb_refl. simpl.
    exists [EvSeteuid ru 0]. split; reflexivity.
  - unfold setegid at 1. unfold may_setegid. simpl.
    rewrite Z.eqb_refl. simpl. rewrite Hu'. simpl.
    unfold seteuid, may_seteuid. simpl. rewrite Z.eqb_refl. simpl.
    exists [EvSeteuid ru 0; EvSetegid rg 0]. split; reflexivity.
Qed.

(** Restoring a saved effective superuser: user first, then group. *)
Lemma raise_priv_root_first egid w :
  may_seteuid (w_cred w) 0 = true ->
  may_setegid (mkCred (c_ruid (w_cred w)) 0 (c_suid (w_cred w))
                      (c_rgid (w_cred w)) (c_egid (w_cred w))
                      (c_sgid (w_cred w))) egid = true ->
  raise_priv 0 egid w =
  (0, evolve (mkCred (c_ruid (w_cred w)) 0 (c_suid (w_cred w))
                     (c_rgid (w_cred w)) egid (c_sgid (w_cred w)))
             (rev [EvSeteuid 0 0; EvSetegid egid 0]) w).
Proof.
  intros H Hg. destruct w as [c fs clk flt junk fdt tr]. simpl in *.
  unfold raise_priv. unfold_cfun. unfold getuid, seteuid.
  cbn -[may_seteuid may_setegid setegid]. rewrite H.
  unfold setegid. cbn -[may_setegid]. rewrite Hg. reflexivity.
Qed.

(** Real superuser, saved effective user not the superuser: through a
    transient effective superuser. *)
Lemma raise_priv_via_root euid egid w :
  euid <> 0 -> c_ruid (w_cred w) = 0 ->
  may_setegid (mkCred (c_ruid (w_cred w)) 0 (c_suid (w_cred w))
                      (c_rgid (w_cred w)) (c_egid (w_cred w))
                      (c_sgid (w_cred w))) egid = true ->
  may_seteuid (mkCred (c_ruid (w_cred w)) 0 (c_suid (w_cred w))
                      (c_rgid (w_cred w)) egid
                      (c_sgid (w_cred w))) euid = true ->
  raise_priv euid egid w =
  (0, evolve (mkCred (c_ruid (w_cred w)) euid (c_suid (w_cred w))
                     (c_rgid (w_cred w)) egid (c_sgid (w_cred w)))
             (rev [EvSeteuid 0 0; EvSetegid egid 0; EvSeteuid euid 0]) w).
Proof.
  intros He Hr Hg Hu. destruct w as [c fs clk flt junk fdt tr]. simpl in *.
  destruct c as [ru eu su rg eg sg]. simpl in *. subst ru.
  apply Z.eqb_neq in He.
  unfold raise_priv. unfold_cfun.
  unfold getuid, seteuid, setegid, may_seteuid, may_setegid in *.
  simpl in *. rewrite He. simpl. rewrite Hg. simpl. rewrite Hu. reflexivity.
Qed.

Lemma raise_priv_impossible euid egid w :
  euid <> 0 -> c_ruid (w_cred w) <> 0 ->
  raise_priv euid egid w = (-1, w).
Proof.
  intros He Hr. apply Z.eqb_neq in He. apply Z.eqb_neq in Hr.
  unfold raise_priv. unfold_cfun. unfold getuid. rewrite He, Hr. reflexivity.
Qed.

(** C8 (as amended). (a) From effective superuser and real non-root,
    with the saved set-user-ID of a set-uid-root process (0) and a valid
    effective group id, [priv_drop] to the real ids succeeds and
    [raise_priv] with the saved effective ids succeeds and restores
    exactly the original effective uid and gid, issuing seteuid before
    setegid.  (b) When only the real user is the superuser and the
    requested ids are valid ids, [raise_priv] goes through seteuid(0),
    setegid, seteuid(saved) in this order and succeeds.  (c) When neither
    the saved effective user nor the real user is the superuser,
    [raise_priv] fails with -1 and does nothing. *)
Theorem priv_drop_raise_roundtrip :
  forall (w : World) (euid egid : Z),
    (c_euid (w_cred w) = 0 -> c_ruid (w_cred w) <> 0 ->
     c_suid (w_cred w) = 0 ->
     id_valid (c_egid (w_cred w)) = true ->
     exists w1 w2,
       priv_drop (c_ruid (w_cred w)) (c_rgid (w_cred w)) w = (0, w1) /\
       c_euid (w_cred w1) = c_ruid (w_cred w) /\
       c_egid (w_cred w1) = c_rgid (w_cred w) /\
       raise_priv (c_euid (w_cred w)) (c_egid (w_cred w)) w1 = (0, w2) /\
       c_euid (w_cred w2) = c_euid (w_cred w) /\
       c_egid (w_cred w2) = c_egid (w_cred w) /\
       w_cred w2 = w_cred w /\
       w_trace w2
       = rev [EvSeteuid 0 0; EvSetegid (c_egid (w_cred w)) 0] ++ w_trace w1)
    /\
    (euid <> 0 -> c_ruid (w_cred w) = 0 ->
     id_valid euid = true -> id_valid egid = true ->
     exists w2,
       raise_priv euid egid w = (0, w2) /\
       c_euid (w_cred w2) = euid /\ c_egid (w_cred w2) = egid /\
       w_trace w2
       = rev [EvSeteuid 0 0; EvSetegid egid 0; EvSeteuid euid 0] ++ w_trace w)
    /\
    (euid <> 0 -> c_ruid (w_cred w) <> 0 ->
     raise_priv euid egid w = (-1, w)).
Proof.
  intros w euid egid. split; [ | split ].
  - intros He Hr Hs Hv.
    destruct (priv_drop_from_root w He Hr) as [evs [Hdrop _]].
    eexists. eexists. split; [ exact Hdrop | ].
    split; [ reflexivity | ]. split; [ reflexivity | ].
    rewrite He. rewrite raise_priv_root_first.
    + split; [ reflexivity | ]. simpl.
      split; [ reflexivity | ]. split; [ reflexivity | ].
      split; [ | reflexivity ].
      destruct (w_cred w); simpl in *; subst; reflexivity.
    + unfold may_seteuid. simpl. rewrite Hs. simpl.
      rewrite !orb_true_r. reflexivity.
    + apply may_setegid_root; [ reflexivity | exact Hv ].
  - intros He Hr Hvu Hvg.
    rewrite (raise_priv_via_root euid egid w He Hr).
    + eexists. split; [ reflexivity | ]. simpl. auto.
    + apply may_setegid_root; [ reflexivity | exact Hvg ].
    + apply may_seteuid_root; [ reflexivity | exact Hvu ].
  - apply raise_priv_impossible.
Qed.

Lemma priv_drop_raise_roundtrip_witness :
  (exists w1 w2,
     priv_drop 1000 1000 (sample_world (fun _ => file_v1) no_fault) = (0, w1) /\
     raise_priv 0 0 w1 = (0, w2) /\
     w_cred w2 = mkCred 1000 0 0 1000 0 0) /\
  (exists w2,
     raise_priv 500 20
       (mkWorld (mkCred 0 500 500 0 20 20) (fun _ => None) 0%nat no_fault
                Byte.x00 [] []) = (0, w2) /\
     c_euid (w_cred w2) = 500 /\ c_egid (w_cred w2) = 20) /\
  raise_priv 500 20
    (mkWorld (mkCred 1000 500 500 1000 20 20) (fun _ => None) 0%nat no_fault
             Byte.x00 [] [])
  = (-1, mkWorld (mkCred 1000 500 500 1000 20 20) (fun _ => None) 0%nat
                 no_fault Byte.x00 [] []).
Proof.
  split; [ | split ].
  - destruct (priv_drop_raise_roundtrip
                (sample_world (fun _ => file_v1) no_fault) 0 0)
      as [Ha _].
    destruct Ha as [w1 [w2 [H1 [_ [_ [H2 [_ [_ [H3 _]]]]]]]]];
      [ reflexivity | discriminate | reflexivity | reflexivity | ].
    exists w1, w2. split; [ exact H1 | ]. split; [ exact H2 | exact H3 ].
  - destruct (priv_drop_raise_roundtrip
                (mkWorld (mkCred 0 500 500 0 20 20) (fun _ => None) 0%nat
                         no_fault Byte.x00 [] []) 500 20)
      as [_ [Hb _]].
    destruct Hb as [w2 [H1 [H2 [H3 _]]]];
      [ discriminate | reflexivity | reflexivity | reflexivity | ].
    exists w2. split; [ exact H1 | ]. split; [ exact H2 | exact H3 ].
  - destruct (priv_drop_raise_roundtrip
                (mkWorld (mkCred 1000 500 500 1000 20 20) (fun _ => None)
                         0%nat no_fault Byte.x00 [] []) 500 20)
      as [_ [_ Hc]].
    apply Hc; discriminate.
Defined.

(** C8 as stated does not hold for every effective-superuser /
    real-nonroot identity.  (1) With a saved set-user-ID other than 0
    the drop succeeds, but the raise is refused: [raise_priv] returns -1
    and the process stays at the real user and group.  (2) With only the
    real user the superuser, a requested group id that is not a valid id
    makes [raise_priv] fail after its seteuid(0): it returns -1 and
    leaves the effective user at 0, not at the requested one. *)
Lemma raise_after_drop_can_fail :
  (exists w1,
      priv_drop 1000 1000
        (mkWorld (mkCred 1000 0 1000 1000 0 0) (fun _ => None) 0%nat no_fault
                 Byte.x00 [] []) = (0, w1) /\
      fst (raise_priv 0 0 w1) = -1 /\
      c_euid (w_cred (snd (raise_priv 0 0 w1))) = 1000 /\
      c_egid (w_cred (snd (raise_priv 0 0 w1))) = 1000) /\
  fst (raise_priv 500 4294967295
         (mkWorld (mkCred 0 500 500 0 20 20) (fun _ => None) 0%nat no_fault
                  Byte.x00 [] [])) = -1 /\
  c_euid (w_cred (snd (raise_priv 500 4294967295
                         (mkWorld (mkCred 0 500 500 0 20 20) (fun _ => None)
                                  0%nat no_fault Byte.x00 [] [])))) = 0.
Proof.
  split.
  - eexists. split; [ reflexivity | ]. repeat split; reflexivity.
  - split; reflexivity.
Qed.

(** ** psp_verify_proxy_signature *)

Section VerifyProps.

Variable EVP_PKEY : Type.
Variable X509_get_pubkey : X509 -> option EVP_PKEY.
Variable X509_verify : X509 -> EVP_PKEY -> Z.

Local Abbreviation verify :=
  (psp_verify_proxy_signature EVP_PKEY X509_get_pubkey X509_verify).
Local Abbreviation spec := (verify_spec EVP_PKEY X509_get_pubkey X509_verify).

Lemma verify_runs_spec payload pilot w :
  verify payload pilot w
  = (verdict_code (spec payload pilot),
     evolve (w_cred w) (verdict_log (spec payload pilot)) w).
Proof.
  unfold psp_verify_proxy_signature, verify_spec.
  destruct payload as [pa|], pilot as [pi|]; unfold_cfun; simpl;
    try reflexivity.
  - destruct (X509_get_pubkey pi) as [k|]; simpl; [ | reflexivity ].
    destruct (X509_verify pa k =? 1); simpl; [ | reflexivity ].
    rewrite evolve_id. reflexivity.
Qed.

(** C2. [psp_verify_proxy_signature] computes the verdict of the
    specification: it reports MissingInput (-1 and the "unset" warning)
    when the payload or the pilot is NULL, MissingKey (-1 and the "cannot
    get public key" warning) when the pilot's key cannot be extracted,
    SignatureMismatch (-1 and the "not signed" warning) when X509_verify
    is not 1, and it returns 0 without a warning exactly when both inputs
    are present and X509_verify of the payload under the pilot's key
    is 1. *)
Theorem verify_verdicts :
  forall (payload pilot : option X509) (w : World),
    let v := spec payload pilot in
    verify payload pilot w
    = (verdict_code v, evolve (w_cred w) (verdict_log v) w)
    /\ (v = MissingInput <-> payload = None \/ pilot = None)
    /\ (v = MissingKey <->
        exists pa pi, payload = Some pa /\ pilot = Some pi /\
                      X509_get_pubkey pi = None)
    /\ (v = SignatureMismatch <->
        exists pa pi k, payload = Some pa /\ pilot = Some pi /\
                        X509_get_pubkey pi = Some k /\ X509_verify pa k <> 1)
    /\ (fst (verify payload pilot w) = 0 <->
        exists pa pi k, payload = Some pa /\ pilot = Some pi /\
                        X509_get_pubkey pi = Some k /\ X509_verify pa k = 1)
    /\ (fst (verify payload pilot w) = 0 \/ fst (verify payload pilot w) = -1).
Proof.
  intros payload pilot w v.
  split; [ apply verify_runs_spec | ].
  rewrite verify_runs_spec. fold v. simpl fst.
  unfold v, verify_spec.
  destruct payload as [pa|], pilot as [pi|];
    try (repeat split; intros; auto; try discriminate;
         repeat match goal with
                | H : exists _, _ |- _ => destruct H
                | H : _ /\ _ |- _ => destruct H
                end; discriminate).
  destruct (X509_get_pubkey pi) as [k|] eqn:Hk.
  - destruct (Z.eqb_spec (X509_verify pa k) 1) as [Hv|Hv]; simpl.
    + repeat split; intros; auto; try discriminate.
      * destruct H; discriminate.
      * destruct H as [pa' [pi' [H1 [H2 H3]]]].
        injection H2 as <-. congruence.
      * destruct H as [pa' [pi' [k' [H1 [H2 [H3 H4]]]]]].
        injection H1 as <-. injection H2 as <-.
        rewrite Hk in H3. injection H3 as <-. contradiction.
      * exists pa, pi, k. auto.
    + repeat split; intros; auto; try discriminate.
      * destruct H; discriminate.
      * destruct H as [pa' [pi' [H1 [H2 H3]]]].
        injection H2 as <-. congruence.
      * exists pa, pi, k. auto.
      * destruct H as [pa' [pi' [k' [H1 [H2 [H3 H4]]]]]].
        injection H1 as <-. injection H2 as <-.
        rewrite Hk in H3. injection H3 as <-. contradiction.
  - simpl. repeat split; intros; auto; try discriminate.
    + destruct H; discriminate.
    + exists pa, pi. auto.
    + destruct H as [pa' [pi' [k' [H1 [H2 [H3 H4]]]]]].
      injection H2 as <-. congruence.
    + destruct H as [pa' [pi' [k' [H1 [H2 [H3 H4]]]]]].
      injection H2 as <-. congruence.
Qed.

End VerifyProps.

(** ** pem_string_to_x509_chain *)

Lemma convert_loop_appends sk : forall acc,
  convert_loop sk acc = acc ++ certs_of sk.
Proof.
  induction sk as [|xi sk IH]; intros acc; simpl.
  - rewrite app_nil_r. reflexivity.
  - destruct (xi_x509 xi) as [c|]; rewrite IH; simpl.
    + rewrite <- app_assoc. reflexivity.
    + reflexivity.
Qed.

Lemma certs_of_in_order sk :
  map Some (certs_of sk) = filter has_cert (map xi_x509 sk).
Proof.
  induction sk as [|xi sk IH]; simpl; [ reflexivity | ].
  destruct (xi_x509 xi) as [c|]; simpl; rewrite IH; reflexivity.
Qed.

Lemma certs_of_count sk :
  length (certs_of sk) = length (filter has_cert (map xi_x509 sk)).
Proof. rewrite <- certs_of_in_order. rewrite length_map. reflexivity. Qed.

Section PemProps.

Variable PEM_X509_INFO_read_bio : string -> option (list X509_INFO).

Local Abbreviation parse := (pem_string_to_x509_chain PEM_X509_INFO_read_bio).

Lemma parse_success_nonempty cs str w rc out w' :
  parse cs str w = ((rc, out), w') -> rc = 0 ->
  exists chain, out = Some (Some chain) /\ chain <> [].
Proof.
  unfold pem_string_to_x509_chain, sk_X509_new_null, BIO_new_mem_buf.
  unfold_cfun.
  destruct cs as [old|], str as [s|]; simpl;
    try (intros H; injection H as <- <- <-; discriminate).
  destruct (w_fault w SysStackNew (w_clock w)); simpl;
    [ intros H; injection H as <- <- <-; discriminate | ].
  destruct (w_fault w SysBioNew (w_clock w)); simpl;
    [ intros H; injection H as <- <- <-; discriminate | ].
  destruct (PEM_X509_INFO_read_bio s) as [sk|]; simpl;
    [ | intros H; injection H as <- <- <-; discriminate ].
  destruct (length (convert_loop sk []) =? 0)%nat eqn:E; simpl;
    intros H; injection H as <- <- <-; [ discriminate | ].
  intros _. eexists. split; [ reflexivity | ].
  intros Hnil. rewrite Hnil in E. discriminate.
Qed.

End PemProps.

(** ** psp_proxy_is_rfc and psp_proxy_is_limited *)

Lemma str_take_short n : forall s t,
  str_take n s = t -> (String.length t < n)%nat -> s = t.
Proof.
  induction n as [|n IH]; intros s t Ht Hlen; [ lia | ].
  destruct s as [|c s]; simpl in Ht; [ exact Ht | ].
  subst t. simpl in Hlen. f_equal. apply IH; [ reflexivity | lia ].
Qed.

Lemma obj2txt_is_limited (o : ASN1_OBJECT) :
  String.eqb (OBJ_obj2txt OBJ_BUF_SIZE o) OID_LIMITED_PROXY = true ->
  o = OID_LIMITED_PROXY.
Proof.
  intros H. apply String.eqb_eq in H.
  apply (str_take_short _ _ _ H). vm_compute. lia.
Qed.

Lemma rfc_loop_bool exts : rfc_loop exts = 0 \/ rfc_loop exts = 1.
Proof.
  induction exts as [|ex exts IH]; simpl; [ left; reflexivity | ].
  destruct (ex_object ex) as [o|]; [ | exact IH ].
  destruct (String.eqb (OBJ_obj2txt OBJ_BUF_SIZE o) OID_RFC_PROXY);
    [ right; reflexivity | exact IH ].
Qed.

Lemma rfc_loop_found exts ex :
  In ex exts -> ex_object ex = Some OID_RFC_PROXY -> rfc_loop exts = 1.
Proof.
  induction exts as [|a exts IH]; simpl; [ contradiction | ].
  intros [-> | Hin] Hobj.
  - rewrite Hobj. reflexivity.
  - destruct (ex_object a) as [o|]; [ | auto ].
    destruct (String.eqb (OBJ_obj2txt OBJ_BUF_SIZE o) OID_RFC_PROXY); auto.
Qed.

Lemma filter_single {A} (f : A -> bool) l x :
  filter f l = [x] -> In x l /\ f x = true.
Proof.
  intros H. apply filter_In. rewrite H. left. reflexivity.
Qed.

Section ClassifierProps.

Variable OBJ_obj2nid : ASN1_OBJECT -> Z.
Variable d2i_PROXY_CERT_INFO_EXTENSION
  : list Byte.byte -> option PROXY_CERT_INFO_EXTENSION.

(** OpenSSL knows the proxy-certificate-information object, and no other
    object shares its nid. *)
Hypothesis nid_known : OBJ_obj2nid OID_RFC_PROXY <> NID_undef.
Hypothesis nid_unique :
  forall o, OBJ_obj2nid o = OBJ_obj2nid OID_RFC_PROXY -> o = OID_RFC_PROXY.

Local Abbreviation is_limited :=
  (psp_proxy_is_limited OBJ_obj2nid d2i_PROXY_CERT_INFO_EXTENSION).
Local Abbreviation get_pci :=
  (X509_get_ext_d2i OBJ_obj2nid d2i_PROXY_CERT_INFO_EXTENSION).
Local Abbreviation pci_nid := (OBJ_obj2nid (OBJ_txt2obj OID_RFC_PROXY)).

Lemma has_pci_nid ex :
  ext_has_nid OBJ_obj2nid pci_nid ex = true ->
  ex_object ex = Some OID_RFC_PROXY.
Proof.
  unfold ext_has_nid, OBJ_txt2obj. destruct (ex_object ex) as [o|].
  - intros H. apply Z.eqb_eq in H. f_equal. apply nid_unique. exact H.
  - intros H. apply Z.eqb_eq in H. symmetry in H. contradiction.
Qed.

Lemma get_pci_some proxy pci :
  get_pci proxy pci_nid = Some pci ->
  exists ex, In ex (x_exts proxy) /\ ex_object ex = Some OID_RFC_PROXY /\
             d2i_PROXY_CERT_INFO_EXTENSION (ex_value ex) = Some pci.
Proof.
  unfold X509_get_ext_d2i.
  destruct (filter (ext_has_nid OBJ_obj2nid pci_nid) (x_exts proxy))
    as [|ex [|ex' rest]] eqn:E; try discriminate.
  intros Hd. apply filter_single in E. destruct E as [Hin Hnid].
  exists ex. split; [ exact Hin | ]. split; [ | exact Hd ].
  apply has_pci_nid. exact Hnid.
Qed.

(** What [psp_proxy_is_limited] returns, as a function of the decoded
    extension. *)
Lemma is_limited_value proxy w :
  fst (is_limited proxy w) =
  match get_pci proxy pci_nid with
  | Some pci =>
      match proxyPolicy pci with
      | Some pol =>
          match policyLanguage pol with
          | Some lang =>
              if String.eqb (OBJ_obj2txt OBJ_BUF_SIZE lang) OID_LIMITED_PROXY
              then 1 else 0
          | None => 0
          end
      | None => 0
      end
  | None => 0
  end.
Proof.
  unfold psp_proxy_is_limited. unfold_cfun. cbv zeta.
  destruct (get_pci proxy pci_nid) as [pci|]; [ | reflexivity ].
  destruct (proxyPolicy pci) as [pol|]; [ | reflexivity ].
  destruct (policyLanguage pol) as [lang|]; [ | reflexivity ].
  simpl.
  destruct (String.eqb (OBJ_obj2txt OBJ_BUF_SIZE lang) OID_LIMITED_PROXY);
    reflexivity.
Qed.

(** C7. [psp_proxy_is_limited] returns 1 only for a certificate that has
    an extension with the RFC-proxy OID 1.3.6.1.5.5.7.1.14 (so that
    [psp_proxy_is_rfc] is 1 on it) whose value decodes to a proxy policy
    with policy language 1.3.6.1.4.1.3536.1.1.1.9.  It returns 0, never an
    error, when no extension has that OID, when no such extension
    decodes, and when the decoded value has no policy or no policy
    language. *)
Theorem limited_only_for_limited_rfc_proxy :
  forall (proxy : X509) (w : World),
    (fst (is_limited proxy w) = 1 ->
     exists ex pci pol,
       In ex (x_exts proxy) /\ ex_object ex = Some OID_RFC_PROXY /\
       d2i_PROXY_CERT_INFO_EXTENSION (ex_value ex) = Some pci /\
       proxyPolicy pci = Some pol /\
       policyLanguage pol = Some OID_LIMITED_PROXY /\
       psp_proxy_is_rfc proxy = 1)
    /\ ((forall ex, In ex (x_exts proxy) ->
                    ex_object ex <> Some OID_RFC_PROXY) ->
        fst (is_limited proxy w) = 0)
    /\ (psp_proxy_is_rfc proxy = 0 -> fst (is_limited proxy w) = 0)
    /\ ((forall ex, In ex (x_exts proxy) ->
                    ex_object ex = Some OID_RFC_PROXY ->
                    d2i_PROXY_CERT_INFO_EXTENSION (ex_value ex) = None) ->
        fst (is_limited proxy w) = 0)
    /\ ((forall ex pci, In ex (x_exts proxy) ->
                        d2i_PROXY_CERT_INFO_EXTENSION (ex_value ex) = Some pci ->
                        proxyPolicy pci = None \/
                        exists pol, proxyPolicy pci = Some pol /\
                                    policyLanguage pol = None) ->
        fst (is_limited proxy w) = 0)
    /\ (fst (is_limited proxy w) = 0 \/ fst (is_limited proxy w) = 1).
Proof.
  intros proxy w.
  assert (Hone : fst (is_limited proxy w) = 1 ->
     exists ex pci pol,
       In ex (x_exts proxy) /\ ex_object ex = Some OID_RFC_PROXY /\
       d2i_PROXY_CERT_INFO_EXTENSION (ex_value ex) = Some pci /\
       proxyPolicy pci = Some pol /\
       policyLanguage pol = Some OID_LIMITED_PROXY /\
       psp_proxy_is_rfc proxy = 1).
  { rewrite is_limited_value.
    destruct (get_pci proxy pci_nid) as [pci|] eqn:Hg; [ | discriminate ].
    destruct (proxyPolicy pci) as [pol|] eqn:Hp; [ | discriminate ].
    destruct (policyLanguage pol) as [lang|] eqn:Hl; [ | discriminate ].
    destruct (String.eqb (OBJ_obj2txt OBJ_BUF_SIZE lang) OID_LIMITED_PROXY)
      eqn:He; [ | discriminate ].
    intros _. apply obj2txt_is_limited in He. subst lang.
    destruct (get_pci_some proxy pci Hg) as [ex [Hin [Hobj Hd]]].
    exists ex, pci, pol. repeat split; auto.
    unfold psp_proxy_is_rfc. eapply rfc_loop_found; eauto. }
  assert (Hbool : fst (is_limited proxy w) = 0 \/ fst (is_limited proxy w) = 1).
  { rewrite is_limited_value.
    destruct (get_pci proxy pci_nid) as [pci|]; [ | auto ].
    destruct (proxyPolicy pci) as [pol|]; [ | auto ].
    destruct (policyLanguage pol) as [lang|]; [ | auto ].
    destruct (String.eqb _ _); auto. }
  split; [ exact Hone | ].
  split; [ | split; [ | split; [ | split; [ | exact Hbool ] ] ] ].
  - intros Hnone. destruct Hbool as [H0|H1]; [ exact H0 | ].
    destruct (Hone H1) as [ex [_ [_ [Hin [Hobj _]]]]].
    exfalso. exact (Hnone ex Hin Hobj).
  - intros Hrfc. destruct Hbool as [H0|H1]; [ exact H0 | ].
    destruct (Hone H1) as [ex [_ [_ [_ [_ [_ [_ [_ Hr]]]]]]]].
    rewrite Hr in Hrfc. discriminate.
  - intros Hund. destruct Hbool as [H0|H1]; [ exact H0 | ].
    destruct (Hone H1) as [ex [pci [_ [Hin [Hobj [Hd _]]]]]].
    rewrite (Hund ex Hin Hobj) in Hd. discriminate.
  - intros Hnolang. destruct Hbool as [H0|H1]; [ exact H0 | ].
    destruct (Hone H1) as [ex [pci [pol [Hin [_ [Hd [Hp [Hl _]]]]]]]].
    destruct (Hnolang ex pci Hin Hd) as [Hn | [pol' [Hp' Hl']]].
    + rewrite Hn in Hp. discriminate.
    + rewrite Hp' in Hp. injection Hp as ->. rewrite Hl' in Hl. discriminate.
Qed.

End ClassifierProps.

Lemma sample_nid_unique :
  forall o, sample_nid o = sample_nid OID_RFC_PROXY -> o = OID_RFC_PROXY.
Proof.
  intros o. unfold sample_nid at 1.
  destruct (String.eqb_spec o OID_RFC_PROXY) as [->|Hne];
    [ reflexivity | discriminate ].
Qed.

Lemma limited_only_for_limited_rfc_proxy_witness :
  sample_nid OID_RFC_PROXY <> NID_undef /\
  fst (psp_proxy_is_limited sample_nid sample_d2i limited_cert
         (sample_world (fun _ => file_v1) no_fault)) = 1 /\
  psp_proxy_is_rfc limited_cert = 1 /\
  fst (psp_proxy_is_limited sample_nid sample_d2i (sample_cert 1)
         (sample_world (fun _ => file_v1) no_fault)) = 0.
Proof.
  split; [ discriminate | ].
  split; [ reflexivity | ].
  pose proof (limited_only_for_limited_rfc_proxy sample_nid sample_d2i
                ltac:(discriminate) sample_nid_unique) as H.
  split.
  - destruct (proj1 (H limited_cert
                       (sample_world (fun _ => file_v1) no_fault))
                    eq_refl)
      as [ex [pci [pol [_ [_ [_ [_ [_ Hr]]]]]]]].
    exact Hr.
  - apply (proj1 (proj2 (H (sample_cert 1)
                           (sample_world (fun _ => file_v1) no_fault)))).
    intros ex [].
Defined.

(** ** psp_get_fqans and the consumers of its result *)

Lemma to_nat_nonpos n : n <= 0 -> Z.to_nat n = 0%nat.
Proof. intros H. destruct n; simpl; try reflexivity. lia. Qed.

Lemma get_fqans_returns_0 nf fq argc argv w :
  fst (fst (psp_get_fqans nf fq argc argv w)) = 0.
Proof.
  unfold psp_get_fqans. unfold_cfun.
  destruct (lcmaps_getArgValue "nfqan" "int" argc argv) as [v|];
    [ | reflexivity ].
  simpl.
  destruct (match v with ArgInt n => n | _ => nf end >? 0); simpl;
    [ | reflexivity ].
  destruct (lcmaps_getArgValue "fqan_list" "char **" argc argv);
    reflexivity.
Qed.

Lemma get_fqans_missing nf fq argc argv w :
  lcmaps_getArgValue "nfqan" "int" argc argv = None ->
  snd (fst (psp_get_fqans nf fq argc argv w)) = (nf, fq).
Proof.
  intros H. unfold psp_get_fqans. unfold_cfun. rewrite H. reflexivity.
Qed.

Lemma get_fqans_nonpositive nf fq argc argv w n :
  lcmaps_getArgValue "nfqan" "int" argc argv = Some (ArgInt n) ->
  n <= 0 ->
  snd (fst (psp_get_fqans nf fq argc argv w)) = (n, fq).
Proof.
  intros H Hn. unfold psp_get_fqans. unfold_cfun. rewrite H. simpl.
  assert (Hgt : (n >? 0) = false) by (rewrite Z.gtb_ltb; apply Z.ltb_ge; lia).
  rewrite Hgt. reflexivity.
Qed.

(** C9 (as amended). [psp_get_fqans] always returns 0, so absent FQAN data
    is never fatal.  When the count argument is missing it writes
    neither the caller's count nor the caller's list; when the count is
    present but not positive it stores that count and leaves the list
    alone.  A count that is not positive shows no attribute to the
    consumers: [psp_match_fqan] finds no match and [psp_store_fqans]
    publishes nothing. *)
Theorem get_fqans_absent_is_not_fatal :
  forall (nf : Z) (fq : option (list string)) (argc : Z)
         (argv : list lcmaps_argument_t) (w : World),
    fst (fst (psp_get_fqans nf fq argc argv w)) = 0
    /\ (lcmaps_getArgValue "nfqan" "int" argc argv = None ->
        snd (fst (psp_get_fqans nf fq argc argv w)) = (nf, fq))
    /\ (forall n, lcmaps_getArgValue "nfqan" "int" argc argv
                  = Some (ArgInt n) ->
                  n <= 0 ->
                  snd (fst (psp_get_fqans nf fq argc argv w)) = (n, fq))
    /\ (forall n fnm l pat w',
           n <= 0 ->
           psp_match_fqan fnm n l pat w' = (Some 0, w') /\
           fst (psp_store_fqans n l w') = Some 0 /\
           filter is_add_cred (w_trace (snd (psp_store_fqans n l w')))
           = filter is_add_cred (w_trace w')).
Proof.
  intros nf fq argc argv w.
  split; [ apply get_fqans_returns_0 | ].
  split; [ apply get_fqans_missing | ].
  split; [ intros n; apply get_fqans_nonpositive | ].
  intros n fnm l pat w' Hn.
  unfold psp_match_fqan, psp_store_fqans. rewrite (to_nat_nonpos n Hn).
  unfold_cfun. simpl. repeat split; reflexivity.
Qed.

Lemma get_fqans_absent_is_not_fatal_witness :
  lcmaps_getArgValue "nfqan" "int" 1 [mkArg "nfqan" "int" (Some (ArgInt 0))]
  = Some (ArgInt 0) /\
  snd (fst (psp_get_fqans 0 None 1 [mkArg "nfqan" "int" (Some (ArgInt 0))]
              (sample_world (fun _ => file_v1) no_fault)))
  = (0, None) /\
  snd (fst (psp_get_fqans 0 None 0 []
              (sample_world (fun _ => file_v1) no_fault)))
  = (0, None).
Proof.
  split; [ reflexivity | ].
  split.
  - exact (proj1 (proj2 (proj2
             (get_fqans_absent_is_not_fatal 0 None 1
                [mkArg "nfqan" "int" (Some (ArgInt 0))]
                (sample_world (fun _ => file_v1) no_fault))))
             0 eq_refl (Z.le_refl 0)).
  - exact (proj1 (proj2
             (get_fqans_absent_is_not_fatal 0 None 0 []
                (sample_world (fun _ => file_v1) no_fault)))
             eq_refl).
Defined.

(** C9 as stated does not hold: with the count argument missing, a
    caller whose variables held two attributes still observes two
    attributes after the successful call, and [psp_store_fqans]
    publishes both. *)
Lemma get_fqans_missing_count_keeps_stale :
  lcmaps_getArgValue "nfqan" "int" 1 pem_only_args = None /\
  fst (psp_get_fqans 2 stale_fqans 1 pem_only_args
         (sample_world (fun _ => file_v1) no_fault))
  = (0, (2, stale_fqans)) /\
  ~ (fst (snd (fst (psp_get_fqans 2 stale_fqans 1 pem_only_args
                      (sample_world (fun _ => file_v1) no_fault)))) <= 0) /\
  filter is_add_cred
    (w_trace (snd (psp_store_fqans 2 stale_fqans
                     (sample_world (fun _ => file_v1) no_fault))))
  = [EvAddCred "LCMAPS_VO_CRED_STRING" "/atlas" 0;
     EvAddCred "LCMAPS_VO_CRED_STRING" "/atlas/Role=production" 0].
Proof.
  split; [ reflexivity | ]. split; [ reflexivity | ].
  split; [ | reflexivity ].
  vm_compute. intros H. apply H. reflexivity.
Qed.

(* ================================================================== *)
(** ** System calls in closed form *)

Lemma upd_upd k1 c1 t1 e1 k2 c2 t2 e2 w :
  upd k2 c2 t2 e2 (upd k1 c1 t1 e1 w) = upd (k2 + k1) c2 t2 (e2 ++ e1) w.
Proof.
  unfold upd. simpl. rewrite Nat.add_assoc, app_assoc. reflexivity.
Qed.

Lemma upd_id w : upd 0 (w_cred w) (w_fdt w) [] w = w.
Proof. destruct w. reflexivity. Qed.

Lemma evolve_upd c evs w : evolve c evs w = upd 0 c (w_fdt w) evs w.
Proof. reflexivity. Qed.

Lemma reads_upd k c t evs w :
  reads (upd k c t evs w) = (length (filter is_read evs) + reads w)%nat.
Proof.
  unfold reads, upd. simpl. rewrite filter_app, length_app. reflexivity.
Qed.

(** Descriptor table. *)

Lemma fd_lookup_store fd o t : fd_lookup fd (fd_store fd o t) = Some o.
Proof. unfold fd_store. simpl. rewrite Z.eqb_refl. reflexivity. Qed.

Lemma fd_remove_idem fd t : fd_remove fd (fd_remove fd t) = fd_remove fd t.
Proof.
  induction t as [|[k o] t IH]; simpl; [ reflexivity | ].
  destruct (k =? fd) eqn:E; [ exact IH | ].
  simpl. rewrite E, IH. reflexivity.
Qed.

Lemma fd_remove_store fd o t :
  fd_remove fd (fd_store fd o t) = fd_remove fd t.
Proof.
  unfold fd_store. simpl. rewrite Z.eqb_refl. apply fd_remove_idem.
Qed.

Lemma fd_remove_absent fd t : fd_lookup fd t = None -> fd_remove fd t = t.
Proof.
  induction t as [|[k o] t IH]; simpl; [ reflexivity | ].
  destruct (k =? fd); [ discriminate | ].
  intros H. rewrite (IH H). reflexivity.
Qed.

Lemma fd_fresh_above t : forall k o, In (k, o) t -> k < fd_fresh t.
Proof.
  induction t as [|[k' o'] t IH]; simpl; [ contradiction | ].
  intros k o [H | H].
  - injection H as -> ->. unfold fd_fresh. simpl. lia.
  - specialize (IH k o H). unfold fd_fresh in *. simpl. lia.
Qed.

Lemma fd_fresh_ge3 t : 3 <= fd_fresh t.
Proof.
  induction t as [|[k o] t IH]; unfold fd_fresh in *; simpl; lia.
Qed.

Lemma fd_lookup_none t fd :
  (forall k o, In (k, o) t -> k <> fd) -> fd_lookup fd t = None.
Proof.
  induction t as [|[k o] t IH]; simpl; [ reflexivity | ].
  intros H. destruct (Z.eqb_spec k fd) as [->|Hne].
  - exfalso. apply (H fd o); auto.
  - apply IH. intros k' o' Hin. apply (H k' o'). auto.
Qed.

Lemma fd_fresh_unused t : fd_lookup (fd_fresh t) t = None.
Proof.
  apply fd_lookup_none. intros k o Hin.
  pose proof (fd_fresh_above t k o Hin). lia.
Qed.

(** Calls that leave the descriptor table alone. *)

Lemma sys_fstat_closed fd w o :
  fd_lookup fd (w_fdt w) = Some o ->
  sys_fstat fd w =
  ((if w_fault w SysFstat (w_clock w) then None
    else Some (stat_of (of_inode o (w_clock w)))),
   upd 1 (w_cred w) (w_fdt w)
       [EvFstat fd (if w_fault w SysFstat (w_clock w) then -1 else 0)] w).
Proof.
  intros H. unfold sys_fstat. rewrite H.
  destruct (w_fault w SysFstat (w_clock w)); reflexivity.
Qed.

Lemma malloc_closed n w :
  malloc n w =
  ((if w_fault w SysMalloc (w_clock w) then None
    else Some (repeat (w_junk w) (Z.to_nat n))),
   upd 0 (w_cred w) (w_fdt w)
       [EvMalloc n (negb (w_fault w SysMalloc (w_clock w)))] w).
Proof.
  unfold malloc. destruct (w_fault w SysMalloc (w_clock w)); reflexivity.
Qed.

Lemma realloc_closed buf n w :
  realloc buf n w =
  ((if w_fault w SysRealloc (w_clock w) then None
    else Some (firstn (Z.to_nat n) buf
               ++ repeat (w_junk w) (Z.to_nat n - length buf))),
   upd 0 (w_cred w) (w_fdt w)
       [EvRealloc n (negb (w_fault w SysRealloc (w_clock w)))] w).
Proof.
  unfold realloc. destruct (w_fault w SysRealloc (w_clock w)); reflexivity.
Qed.

Lemma usleep_closed us w :
  usleep us w = (tt, upd 0 (w_cred w) (w_fdt w) [EvUsleep us] w).
Proof. reflexivity. Qed.

Lemma free_closed w : free w = (tt, upd 0 (w_cred w) (w_fdt w) [EvFree] w).
Proof. reflexivity. Qed.

(** Calls on the descriptor. *)

Lemma sys_close_closed fd w :
  exists rc,
    sys_close fd w
    = (rc, upd 0 (w_cred w) (fd_remove fd (w_fdt w)) [EvClose fd] w).
Proof.
  unfold sys_close. destruct (fd_lookup fd (w_fdt w)) eqn:E.
  - exists 0. reflexivity.
  - exists (-1). rewrite (fd_remove_absent _ _ E). reflexivity.
Qed.

Lemma sys_open_closed path w :
  (exists h,
      w_fs w path = Some h /\ w_fault w SysOpen (w_clock w) = false /\
      sys_open path w =
      (fd_fresh (w_fdt w),
       upd 0 (w_cred w)
           (fd_store (fd_fresh (w_fdt w)) (mkOpenFile h 0 None None)
                     (w_fdt w))
           [EvOpen path (fd_fresh (w_fdt w))] w))
  \/ ((w_fs w path = None \/ w_fault w SysOpen (w_clock w) = true) /\
      sys_open path w
      = (-1, upd 0 (w_cred w) (w_fdt w) [EvOpen path (-1)] w)).
Proof.
  unfold sys_open. destruct (w_fs w path) as [h|] eqn:E.
  - destruct (w_fault w SysOpen (w_clock w)) eqn:F.
    + right. split; [ right; reflexivity | reflexivity ].
    + left. exists h. repeat split; reflexivity.
  - right. split; [ left; reflexivity | reflexivity ].
Qed.

Lemma sys_read_closed fd buf count w o :
  fd_lookup fd (w_fdt w) = Some o ->
  w_fault w SysRead (w_clock w) = false ->
  let got := firstn (Z.to_nat count)
               (skipn (Z.to_nat (of_off o))
                      (f_data (of_inode o (w_clock w)))) in
  sys_read fd buf count w =
  ((Z.of_nat (length got), got ++ skipn (length got) buf),
   upd 1 (w_cred w)
       (fd_store fd (mkOpenFile (of_inode o)
                                (of_off o + Z.of_nat (length got))
                                (of_flock o) (of_fcntl o)) (w_fdt w))
       [EvRead fd count (Z.of_nat (length got))] w).
Proof.
  intros H F. unfold sys_read. rewrite H, F. reflexivity.
Qed.

Lemma keeps_refl fd t : keeps fd t t.
Proof. split; [ reflexivity | ]. intros o H. exists o. auto. Qed.

Lemma keeps_trans fd t1 t2 t3 :
  keeps fd t1 t2 -> keeps fd t2 t3 -> keeps fd t1 t3.
Proof.
  intros [R1 L1] [R2 L2]. split; [ congruence | ].
  intros o H. destruct (L1 o H) as [o1 [H1 E1]].
  destruct (L2 o1 H1) as [o2 [H2 E2]]. exists o2. split; congruence.
Qed.

Lemma keeps_off_keeps fd t t' : keeps_off fd t t' -> keeps fd t t'.
Proof.
  intros [R L]. split; [ exact R | ].
  intros o H. destruct (L o H) as [o' [H1 [H2 _]]]. exists o'. auto.
Qed.

Lemma keeps_off_refl fd t : keeps_off fd t t.
Proof. split; [ reflexivity | ]. intros o H. exists o. auto. Qed.

Lemma keeps_store fd t o o' :
  fd_lookup fd t = Some o -> of_inode o' = of_inode o ->
  keeps fd t (fd_store fd o' t).
Proof.
  intros H E. split; [ apply fd_remove_store | ].
  intros o0 H0. exists o'. rewrite fd_lookup_store. split; congruence.
Qed.

Lemma keeps_off_store fd t o o' :
  fd_lookup fd t = Some o -> of_inode o' = of_inode o ->
  of_off o' = of_off o -> keeps_off fd t (fd_store fd o' t).
Proof.
  intros H E1 E2. split; [ apply fd_remove_store | ].
  intros o0 H0. exists o'. rewrite fd_lookup_store.
  repeat split; congruence.
Qed.

Lemma keeps_off_trans fd t1 t2 t3 :
  keeps_off fd t1 t2 -> keeps_off fd t2 t3 -> keeps_off fd t1 t3.
Proof.
  intros [R1 L1] [R2 L2]. split; [ congruence | ].
  intros o H. destruct (L1 o H) as [o1 [H1 [E1 F1]]].
  destruct (L2 o1 H1) as [o2 [H2 [E2 F2]]]. exists o2.
  repeat split; congruence.
Qed.

Lemma sys_read_frame fd buf count w o :
  fd_lookup fd (w_fdt w) = Some o ->
  exists size buf' t',
    sys_read fd buf count w
    = ((size, buf'), upd 1 (w_cred w) t' [EvRead fd count size] w)
    /\ keeps fd (w_fdt w) t'.
Proof.
  intros H. unfold sys_read. rewrite H.
  destruct (w_fault w SysRead (w_clock w)).
  - exists (-1), buf, (w_fdt w). split; [ reflexivity | apply keeps_refl ].
  - eexists. eexists. eexists. split; [ reflexivity | ].
    eapply keeps_store; [ exact H | reflexivity ].
Qed.

Lemma sys_lseek_closed fd w o :
  fd_lookup fd (w_fdt w) = Some o ->
  w_fault w SysLseek (w_clock w) = false ->
  sys_lseek_set fd 0 w =
  (0, upd 0 (w_cred w)
          (fd_store fd (mkOpenFile (of_inode o) 0 (of_flock o) (of_fcntl o))
                    (w_fdt w))
          [EvLseek fd 0 0] w).
Proof.
  intros H F. unfold sys_lseek_set. rewrite H, F. reflexivity.
Qed.

Lemma sys_lseek_frame fd w o :
  fd_lookup fd (w_fdt w) = Some o ->
  exists pos t',
    sys_lseek_set fd 0 w
    = (pos, upd 0 (w_cred w) t' [EvLseek fd 0 pos] w)
    /\ keeps fd (w_fdt w) t'.
Proof.
  intros H. unfold sys_lseek_set. rewrite H.
  destruct (w_fault w SysLseek (w_clock w)); simpl.
  - exists (-1), (w_fdt w). split; [ reflexivity | apply keeps_refl ].
  - eexists. eexists. split; [ reflexivity | ].
    eapply keeps_store; [ exact H | reflexivity ].
Qed.

Lemma sys_flock_frame fd op w o :
  fd_lookup fd (w_fdt w) = Some o ->
  exists t',
    sys_flock fd op w
    = ((if w_fault w SysFlock (w_clock w) then -1 else 0),
       upd 0 (w_cred w) t'
           [EvFlock fd op (if w_fault w SysFlock (w_clock w) then -1 else 0)]
           w)
    /\ keeps_off fd (w_fdt w) t'.
Proof.
  intros H. unfold sys_flock. rewrite H.
  destruct (w_fault w SysFlock (w_clock w)).
  - exists (w_fdt w). split; [ reflexivity | apply keeps_off_refl ].
  - eexists. split; [ reflexivity | ].
    eapply keeps_off_store; [ exact H | reflexivity | reflexivity ].
Qed.

Lemma sys_fcntl_frame fd ty w o :
  fd_lookup fd (w_fdt w) = Some o ->
  exists t',
    sys_fcntl_setlkw fd ty w
    = ((if w_fault w SysFcntl (w_clock w) then -1 else 0),
       upd 0 (w_cred w) t'
           [EvFcntl fd ty (if w_fault w SysFcntl (w_clock w) then -1 else 0)]
           w)
    /\ keeps_off fd (w_fdt w) t'.
Proof.
  intros H. unfold sys_fcntl_setlkw. rewrite H.
  destruct (w_fault w SysFcntl (w_clock w)).
  - exists (w_fdt w). split; [ reflexivity | apply keeps_off_refl ].
  - eexists. split; [ reflexivity | ].
    eapply keeps_off_store; [ exact H | reflexivity | reflexivity ].
Qed.

(** ** filelock in general *)

Lemma keeps_off_store2 fd t o o1 o2 :
  fd_lookup fd t = Some o ->
  of_inode o1 = of_inode o -> of_off o1 = of_off o ->
  of_inode o2 = of_inode o -> of_off o2 = of_off o ->
  keeps_off fd t (fd_store fd o2 (fd_store fd o1 t)).
Proof.
  intros H I1 F1 I2 F2.
  eapply keeps_off_trans.
  - eapply keeps_off_store; [ exact H | exact I1 | exact F1 ].
  - eapply keeps_off_store; [ apply fd_lookup_store | congruence | congruence ].
Qed.

(** The events of [tr] that are newer than [base]. *)
Ltac trace_prefix tr base :=
  match tr with
  | base => constr:(@nil Event)
  | ?e :: ?r => let p := trace_prefix r base in constr:(e :: p)
  end.

Lemma filelock_frame sun fd lock_type action w o :
  fd_lookup fd (w_fdt w) = Some o ->
  exists rc t' evs,
    filelock sun fd lock_type action w = (rc, upd 0 (w_cred w) t' evs w)
    /\ keeps_off fd (w_fdt w) t'
    /\ filter is_read evs = []
    /\ (action = LCK_READ -> lock_granted sun lock_type w = true -> rc = 0).
Proof.
  intros Ho. unfold filelock, lock_granted. unfold_cfun.
  unfold sys_flock, sys_fcntl_setlkw, upd.
  destruct w as [c fs clk flt junk t tr]. simpl in *.
  destruct (truthy (Z.land lock_type LCK_NOLOCK));
    destruct (truthy (Z.land lock_type LCK_FLOCK));
    destruct (truthy (Z.land lock_type LCK_FCNTL));
    destruct sun;
    destruct (action =? LCK_READ) eqn:E1;
    destruct (action =? LCK_WRITE) eqn:E2;
    destruct (action =? LCK_UNLOCK) eqn:E3;
    simpl; rewrite ?Ho; simpl;
    destruct (flt SysFlock clk); simpl; rewrite ?Z.eqb_refl, ?Ho; simpl;
    destruct (flt SysFcntl clk); simpl; unfold emit, set_fdt; simpl.
  all: eexists; eexists; eexists.
  all: split;
    [ match goal with
      | |- (_, mkWorld _ _ _ _ _ _ ?TR) = (_, mkWorld _ _ _ _ _ _ (?E ++ _)) =>
          let p := trace_prefix TR tr in unify E p
      end; reflexivity | ].
  all: split;
    [ first [ apply keeps_off_refl
            | eapply keeps_off_store; [ exact Ho | reflexivity | reflexivity ]
            | eapply keeps_off_store2;
              [ exact Ho | reflexivity | reflexivity
                | reflexivity | reflexivity ] ] | ].
  all: split; [ reflexivity | ].
  all: intros Ha Hg; try discriminate Hg; try reflexivity.
  all: subst action; discriminate.
Qed.

(** [lock_granted] is exactly the success of the read lock. *)
Lemma lock_granted_iff sun fd lock_type w o :
  fd_lookup fd (w_fdt w) = Some o ->
  fst (filelock sun fd lock_type LCK_READ w) = 0
  <-> lock_granted sun lock_type w = true.
Proof.
  intros Ho. unfold filelock, lock_granted. unfold_cfun.
  unfold sys_flock, sys_fcntl_setlkw.
  destruct w as [c fs clk flt junk t tr]. simpl in *.
  destruct (truthy (Z.land lock_type LCK_NOLOCK));
    destruct (truthy (Z.land lock_type LCK_FLOCK));
    destruct (truthy (Z.land lock_type LCK_FCNTL));
    destruct sun;
    simpl; rewrite ?Ho; simpl;
    destruct (flt SysFlock clk); simpl; rewrite ?Z.eqb_refl, ?Ho; simpl;
    destruct (flt SysFcntl clk); simpl;
    split; intros H; try reflexivity; try discriminate H.
Qed.

(** [opens] is exactly the success of [open]. *)
Lemma opens_iff path w :
  fst (sys_open path w) <> -1 <-> exists h, opens path h w.
Proof.
  unfold opens.
  destruct (sys_open_closed path w) as [[h [Hfs [Hflt E]]] | [Hbad E]];
    rewrite E; simpl.
  - split.
    + intros _. exists h. auto.
    + intros _. pose proof (fd_fresh_ge3 (w_fdt w)). lia.
  - split.
    + intros H. contradiction.
    + intros [h [Hfs Hflt]]. destruct Hbad; congruence.
Qed.

(** ** Credentials around the protected region *)

Lemma raise_priv_frame euid egid w :
  exists rc c evs,
    raise_priv euid egid w = (rc, upd 0 c (w_fdt w) evs w)
    /\ filter is_read evs = [].
Proof.
  unfold raise_priv. unfold_cfun. unfold getuid, seteuid, setegid, upd.
  destruct w as [c fs clk flt junk t tr]. simpl.
  destruct (euid =? 0); destruct (c_ruid c =? 0); simpl;
    repeat match goal with
           | |- context [if may_seteuid ?a ?b then _ else _] =>
               destruct (may_seteuid a b); simpl
           | |- context [if may_setegid ?a ?b then _ else _] =>
               destruct (may_setegid a b); simpl
           end;
    unfold emit, set_cred; simpl.
  all: eexists; eexists; eexists.
  all: split;
    [ match goal with
      | |- (_, mkWorld _ _ _ _ _ _ ?TR) = (_, mkWorld _ _ _ _ _ _ (?E ++ _)) =>
          let p := trace_prefix TR tr in unify E p
      end; reflexivity | reflexivity ].
Qed.

Lemma guard_drop w :
  exists evs,
    (if (c_euid (w_cred w) =? 0) && negb (c_ruid (w_cred w) =? 0)
     then let (rc, w') := priv_drop (c_ruid (w_cred w)) (c_rgid (w_cred w)) w
          in (truthy rc, w')
     else (false, w))
    = (false, upd 0 (guard_cred (w_cred w)) (w_fdt w) evs w)
    /\ filter is_read evs = [].
Proof.
  unfold guard_cred.
  destruct (Z.eqb_spec (c_euid (w_cred w)) 0) as [He|He];
    destruct (Z.eqb_spec (c_ruid (w_cred w)) 0) as [Hr|Hr]; simpl;
    try (exists []; rewrite upd_id; split; reflexivity).
  destruct (priv_drop_from_root w He Hr) as [evs [Hd Hn]].
  rewrite Hd. exists evs. split; [ reflexivity | exact Hn ].
Qed.

Lemma raise_priv_restores c0 w :
  regain_ok c0 -> w_cred w = guard_cred c0 ->
  exists rc evs,
    raise_priv (c_euid c0) (c_egid c0) w = (rc, upd 0 c0 (w_fdt w) evs w)
    /\ filter is_read evs = [].
Proof.
  intros [Hvu [Hvg Hok]] Hc. destruct c0 as [ru eu su rg eg sg].
  unfold guard_cred in Hc. simpl in *.
  destruct (Z.eqb_spec eu 0) as [->|He];
    destruct (Z.eqb_spec ru 0) as [->|Hr]; simpl in Hc.
  - rewrite raise_priv_root_first.
    + exists 0, (rev [EvSeteuid 0 0; EvSetegid eg 0]).
      split; [ | reflexivity ].
      rewrite evolve_upd, Hc. reflexivity.
    + rewrite Hc. reflexivity.
    + rewrite Hc. apply may_setegid_root; [ reflexivity | exact Hvg ].
  - rewrite raise_priv_root_first.
    + exists 0, (rev [EvSeteuid 0 0; EvSetegid eg 0]).
      split; [ | reflexivity ].
      rewrite evolve_upd, Hc. reflexivity.
    + rewrite Hc. unfold may_seteuid. simpl. rewrite (Hok eq_refl Hr).
      simpl. rewrite !orb_true_r. reflexivity.
    + rewrite Hc. apply may_setegid_root; [ reflexivity | exact Hvg ].
  - rewrite (raise_priv_via_root _ _ w He); [ | rewrite Hc; reflexivity | | ].
    + exists 0, (rev [EvSeteuid 0 0; EvSetegid eg 0; EvSeteuid eu 0]).
      split; [ | reflexivity ].
      rewrite evolve_upd, Hc. reflexivity.
    + rewrite Hc. apply may_setegid_root; [ reflexivity | exact Hvg ].
    + rewrite Hc. apply may_seteuid_root; [ reflexivity | exact Hvu ].
  - rewrite (raise_priv_impossible _ _ w He); [ | rewrite Hc; exact Hr ].
    exists (-1), []. split; [ | reflexivity ].
    rewrite <- Hc. rewrite upd_id. reflexivity.
Qed.

(** ** The retry loop *)

Lemma w_cred_upd k c t e w : w_cred (upd k c t e w) = c.
Proof. reflexivity. Qed.
Lemma w_fdt_upd k c t e w : w_fdt (upd k c t e w) = t.
Proof. reflexivity. Qed.
Lemma w_clock_upd k c t e w : w_clock (upd k c t e w) = (k + w_clock w)%nat.
Proof. reflexivity. Qed.
Lemma w_fault_upd k c t e w : w_fault (upd k c t e w) = w_fault w.
Proof. reflexivity. Qed.
Lemma w_junk_upd k c t e w : w_junk (upd k c t e w) = w_junk w.
Proof. reflexivity. Qed.
Lemma w_fs_upd k c t e w : w_fs (upd k c t e w) = w_fs w.
Proof. reflexivity. Qed.

Create Rewrite HintDb upd_simpl.
#[local] Hint Rewrite upd_upd w_cred_upd w_fdt_upd w_clock_upd w_fault_upd
  w_junk_upd w_fs_upd : upd_simpl.

Lemma read_loop_S fd n i l w :
  read_loop fd (S n) i l w =
  let '((size, buf), w1) := sys_read fd (l_buf l) (st_size (l_s1 l)) w in
  match sys_fstat fd w1 with
  | (None, w2) => (mkLocals buf size (l_s1 l) None (-1), w2)
  | (Some s2, w2) =>
      if same_stamp s2 (l_s1 l) then
        (mkLocals buf size (l_s1 l) (Some s2)
                  (if size =? st_size (l_s1 l) then 0 else -1), w2)
      else if i <? tries - 1 then
        match realloc buf (st_size s2 + 1) w2 with
        | (None, w3) => (mkLocals buf size (l_s1 l) (Some s2) (-4), w3)
        | (Some buf_new, w3) =>
            let l' := mkLocals buf_new size s2 (Some (l_s1 l)) (l_rc l) in
            let (_, w4) := usleep 500 w3 in
            let (pos, w5) := sys_lseek_set fd 0 w4 in
            if truthy pos then
              (mkLocals buf_new size s2 (Some (l_s1 l)) (-1), w5)
            else read_loop fd n (i + 1) l' w5
        end
      else
        read_loop fd n (i + 1)
                  (mkLocals buf size (l_s1 l) (Some s2) (-5)) w2
  end.
Proof. reflexivity. Qed.

(** Whatever happens in the loop, the descriptor stays open on the same
    inode and nothing but the clock, the table entry and the trace
    changes. *)
Lemma read_loop_frame fd n : forall i l w o,
  fd_lookup fd (w_fdt w) = Some o ->
  exists l' k t' evs,
    read_loop fd n i l w = (l', upd k (w_cred w) t' evs w)
    /\ keeps fd (w_fdt w) t'.
Proof.
  induction n as [|n IH]; intros i l w o Ho.
  - exists l, 0%nat, (w_fdt w), []. rewrite upd_id.
    split; [ reflexivity | apply keeps_refl ].
  - rewrite read_loop_S.
    destruct (sys_read_frame fd (l_buf l) (st_size (l_s1 l)) w o Ho)
      as [size [buf [t1 [Er K1]]]].
    rewrite Er. cbv beta iota zeta.
    destruct (proj2 K1 o Ho) as [o1 [Ho1 _]].
    match goal with
    | |- context [sys_fstat fd ?W] => rewrite (sys_fstat_closed fd W o1 Ho1)
    end.
    autorewrite with upd_simpl.
    destruct (w_fault w SysFstat (1 + w_clock w)).
    { eexists; eexists; eexists; eexists.
      split; [ reflexivity | exact K1 ]. }
    destruct (same_stamp _ (l_s1 l)).
    { eexists; eexists; eexists; eexists.
      split; [ reflexivity | exact K1 ]. }
    destruct (i <? tries - 1).
    + rewrite realloc_closed. autorewrite with upd_simpl.
      destruct (w_fault w SysRealloc (1 + 1 + w_clock w)).
      { eexists; eexists; eexists; eexists.
        split; [ reflexivity | exact K1 ]. }
      cbv beta iota zeta. rewrite usleep_closed.
      autorewrite with upd_simpl.
      match goal with
      | |- context [sys_lseek_set fd 0 ?W] =>
          destruct (sys_lseek_frame fd W o1 Ho1) as [pos [t2 [El K2]]];
          rewrite El; clear El
      end.
      autorewrite with upd_simpl in *.
      destruct (truthy pos).
      { eexists; eexists; eexists; eexists.
        split; [ reflexivity | eapply keeps_trans; eauto ]. }
      destruct (proj2 K2 o1 Ho1) as [o2 [Ho2 _]].
      match goal with
      | |- context [read_loop fd n ?I ?L ?W] =>
          destruct (IH I L W o2 Ho2) as [l' [k [t3 [evs [Erec K3]]]]];
          rewrite Erec; clear Erec
      end.
      autorewrite with upd_simpl in *.
      eexists; eexists; eexists; eexists.
      split; [ reflexivity | ].
      eapply keeps_trans; [ exact K1 | ].
      eapply keeps_trans; [ exact K2 | exact K3 ].
    + match goal with
      | |- context [read_loop fd n ?I ?L ?W] =>
          destruct (IH I L W o1 Ho1) as [l' [k [t3 [evs [Erec K3]]]]];
          rewrite Erec; clear Erec
      end.
      autorewrite with upd_simpl in *.
      eexists; eexists; eexists; eexists.
      split; [ reflexivity | ].
      eapply keeps_trans; [ exact K1 | exact K3 ].
Qed.

(** ** read_proxy: the monadic body and its direct form agree *)

Lemma read_proxy_is_direct sun path lock_type w :
  read_proxy sun path lock_type w = read_proxy_direct sun path lock_type w.
Proof.
  unfold read_proxy, read_proxy_direct, read_proxy_from, close_and_raise.
  unfold_cfun. unfold getuid, geteuid, getgid, getegid.
  cbv beta iota zeta.
  destruct ((c_euid (w_cred w) =? 0) && negb (c_ruid (w_cred w) =? 0)).
  - destruct (priv_drop (c_ruid (w_cred w)) (c_rgid (w_cred w)) w)
      as [rc w1].
    cbv beta iota zeta. destruct (truthy rc); [ reflexivity | ].
    cbv beta iota zeta.
    destruct (sys_open path w1) as [fd w2]. cbv beta iota zeta.
    destruct (fd =? -1); cbv beta iota zeta.
    { destruct (raise_priv _ _ _); reflexivity. }
    destruct (filelock sun fd lock_type LCK_READ w2) as [lk w3].
    cbv beta iota zeta. destruct (truthy lk); cbv beta iota zeta.
    { destruct (sys_close fd w3) as [x wa]. cbv beta iota zeta.
      destruct (raise_priv _ _ wa); reflexivity. }
    destruct (sys_fstat fd w3) as [[st1|] w4]; cbv beta iota zeta.
    2:{ destruct (sys_close fd _) as [x wa]. cbv beta iota zeta.
        destruct (raise_priv _ _ wa); reflexivity. }
    destruct (unsafe_perms _ st1); cbv beta iota zeta.
    { destruct (sys_close fd _) as [x wa]. cbv beta iota zeta.
      destruct (raise_priv _ _ wa); reflexivity. }
    destruct (malloc _ w4) as [[buf|] w5]; cbv beta iota zeta.
    2:{ destruct (sys_close fd _) as [x wa]. cbv beta iota zeta.
        destruct (raise_priv _ _ wa); reflexivity. }
    destruct (read_loop fd _ 0 _ w5) as [l w6]. cbv beta iota zeta.
    destruct (filelock sun fd lock_type LCK_UNLOCK w6) as [x7 w7].
    cbv beta iota zeta.
    destruct (sys_close fd w7) as [x8 w8]. cbv beta iota zeta.
    destruct (raise_priv _ _ w8) as [x9 w9]. cbv beta iota zeta.
    destruct (truthy (l_rc l)); cbv beta iota zeta; [ | reflexivity ].
    destruct (free w9); reflexivity.
  - cbv beta iota zeta.
    destruct (sys_open path w) as [fd w2]. cbv beta iota zeta.
    destruct (fd =? -1); cbv beta iota zeta.
    { destruct (raise_priv _ _ _); reflexivity. }
    destruct (filelock sun fd lock_type LCK_READ w2) as [lk w3].
    cbv beta iota zeta. destruct (truthy lk); cbv beta iota zeta.
    { destruct (sys_close fd w3) as [x wa]. cbv beta iota zeta.
      destruct (raise_priv _ _ wa); reflexivity. }
    destruct (sys_fstat fd w3) as [[st1|] w4]; cbv beta iota zeta.
    2:{ destruct (sys_close fd _) as [x wa]. cbv beta iota zeta.
        destruct (raise_priv _ _ wa); reflexivity. }
    destruct (unsafe_perms _ st1); cbv beta iota zeta.
    { destruct (sys_close fd _) as [x wa]. cbv beta iota zeta.
      destruct (raise_priv _ _ wa); reflexivity. }
    destruct (malloc _ w4) as [[buf|] w5]; cbv beta iota zeta.
    2:{ destruct (sys_close fd _) as [x wa]. cbv beta iota zeta.
        destruct (raise_priv _ _ wa); reflexivity. }
    destruct (read_loop fd _ 0 _ w5) as [l w6]. cbv beta iota zeta.
    destruct (filelock sun fd lock_type LCK_UNLOCK w6) as [x7 w7].
    cbv beta iota zeta.
    destruct (sys_close fd w7) as [x8 w8]. cbv beta iota zeta.
    destruct (raise_priv _ _ w8) as [x9 w9]. cbv beta iota zeta.
    destruct (truthy (l_rc l)); cbv beta iota zeta; [ | reflexivity ].
    destruct (free w9); reflexivity.
Qed.

Lemma emit_upd e w : emit e w = upd 0 (w_cred w) (w_fdt w) [e] w.
Proof. reflexivity. Qed.

#[local] Hint Rewrite emit_upd : upd_simpl.

(** [raise_priv] with the ids saved on entry: it only touches the
    credentials and the trace, and it lands on the entry credentials when
    the process can regain them. *)
Lemma raise_priv_saved c0 w :
  exists rc c evs,
    raise_priv (c_euid c0) (c_egid c0) w = (rc, upd 0 c (w_fdt w) evs w)
    /\ filter is_read evs = []
    /\ (regain_ok c0 -> w_cred w = guard_cred c0 -> c = c0).
Proof.
  destruct (raise_priv_frame (c_euid c0) (c_egid c0) w)
    as [rc [c [evs [E Hn]]]].
  exists rc, c, evs. split; [ exact E | ]. split; [ exact Hn | ].
  intros Hok Hc.
  destruct (raise_priv_restores c0 w Hok Hc) as [rc' [evs' [E' _]]].
  rewrite E in E'. unfold upd in E'. congruence.
Qed.

Lemma close_and_raise_saved fd c0 rc w :
  exists c evs,
    close_and_raise fd (c_euid c0) (c_egid c0) rc w
    = ((rc, None), upd 0 c (fd_remove fd (w_fdt w)) evs w)
    /\ filter is_read evs = []
    /\ (regain_ok c0 -> w_cred w = guard_cred c0 -> c = c0).
Proof.
  unfold close_and_raise.
  destruct (sys_close_closed fd w) as [x Ec]. rewrite Ec.
  match goal with
  | |- context [raise_priv _ _ ?W] =>
      destruct (raise_priv_saved c0 W) as [r [c [evs [Er [Hn Hc]]]]]
  end.
  rewrite Er. autorewrite with upd_simpl in *.
  exists c, (evs ++ [EvClose fd]). split; [ reflexivity | ].
  split; [ rewrite filter_app, Hn; reflexivity | exact Hc ].
Qed.

Lemma fresh_closes_back fd t0 o t :
  fd = fd_fresh t0 ->
  keeps fd (fd_store fd o t0) t ->
  fd_remove fd t = t0.
Proof.
  intros -> [R _]. rewrite R, fd_remove_store.
  apply fd_remove_absent, fd_fresh_unused.
Qed.

Lemma read_proxy_guarded sun path lock_type w :
  exists evs0,
    filter is_read evs0 = [] /\
    read_proxy sun path lock_type w =
    read_proxy_from sun path lock_type (c_ruid (w_cred w))
      (c_euid (w_cred w)) (c_egid (w_cred w))
      (upd 0 (guard_cred (w_cred w)) (w_fdt w) evs0 w).
Proof.
  rewrite read_proxy_is_direct. unfold read_proxy_direct. cbv zeta.
  destruct (guard_drop w) as [evs0 [Hg Hn]]. rewrite Hg.
  exists evs0. split; [ exact Hn | reflexivity ].
Qed.

(** Every exit of [read_proxy_from] leaves the descriptor table as it
    found it and, for a process that can regain its ids, the entry
    credentials. *)
Lemma read_proxy_from_cleans sun path lock_type c0 w :
  exists k c evs,
    snd (read_proxy_from sun path lock_type (c_ruid c0) (c_euid c0)
           (c_egid c0) w)
    = upd k c (w_fdt w) evs w
    /\ (regain_ok c0 -> w_cred w = guard_cred c0 -> c = c0).
Proof.
  unfold read_proxy_from.
  destruct (sys_open_closed path w) as [[h [_ [_ Eo]]] | [_ Eo]];
    rewrite Eo; clear Eo.
  2:{ change (-1 =? -1) with true. cbv beta iota zeta.
      match goal with
      | |- context [raise_priv _ _ ?W] =>
          destruct (raise_priv_saved c0 W) as [r [c [evs [Er [_ Hc]]]]]
      end.
      rewrite Er. simpl snd. norm_upd_all.
      eexists; exists c; eexists. split; [ reflexivity | exact Hc ]. }
  remember (fd_fresh (w_fdt w)) as fd eqn:Efd.
  remember (mkOpenFile h 0 None None) as o0 eqn:Eo0.
  assert (Hfd : (fd =? -1) = false).
  { apply Z.eqb_neq. pose proof (fd_fresh_ge3 (w_fdt w)). lia. }
  rewrite Hfd. cbv beta iota zeta.
  (* lock *)
  match goal with
  | |- context [filelock sun fd lock_type LCK_READ ?W] =>
      destruct (filelock_frame sun fd lock_type LCK_READ W o0
                  (fd_lookup_store fd o0 (w_fdt w)))
        as [lk [t1 [ev1 [El [K1 _]]]]]
  end.
  rewrite El; clear El. norm_upd_all.
  apply keeps_off_keeps in K1.
  assert (Hexit : forall rc W t,
             keeps fd (fd_store fd o0 (w_fdt w)) t ->
             (exists k' e', W = upd k' (w_cred w) t e' w) ->
             exists k c evs,
               snd (close_and_raise fd (c_euid c0) (c_egid c0) rc W)
               = upd k c (w_fdt w) evs w
               /\ (regain_ok c0 -> w_cred w = guard_cred c0 -> c = c0)).
  { intros rc W t K [k' [e' HW]].
    destruct (close_and_raise_saved fd c0 rc W) as [c [evs [Ec [_ Hc]]]].
    rewrite Ec. simpl snd. rewrite HW in *. norm_upd_all.
    rewrite (fresh_closes_back _ _ _ _ Efd K).
    eexists; exists c; eexists. split; [ reflexivity | exact Hc ]. }
  destruct (truthy lk).
  { match goal with
    | |- context [close_and_raise fd _ _ ?rc ?W] =>
        apply (Hexit rc W t1 K1)
    end.
    norm_upd. eexists; eexists; reflexivity. }
  destruct (proj2 K1 o0 (fd_lookup_store fd o0 (w_fdt w)))
    as [o1 [Ho1 _]].
  match goal with
  | |- context [sys_fstat fd ?W] => rewrite (sys_fstat_closed fd W o1 Ho1)
  end.
  norm_upd.
  destruct (w_fault w SysFstat _).
  { match goal with
    | |- context [close_and_raise fd _ _ ?rc ?W] =>
        apply (Hexit rc W t1 K1)
    end.
    norm_upd. eexists; eexists; reflexivity. }
  destruct (unsafe_perms _ _).
  { match goal with
    | |- context [close_and_raise fd _ _ ?rc ?W] =>
        apply (Hexit rc W t1 K1)
    end.
    norm_upd. eexists; eexists; reflexivity. }
  rewrite malloc_closed. norm_upd.
  destruct (w_fault w SysMalloc _).
  { match goal with
    | |- context [close_and_raise fd _ _ ?rc ?W] =>
        apply (Hexit rc W t1 K1)
    end.
    norm_upd. eexists; eexists; reflexivity. }
  (* the loop, the unlock, the close and the raise *)
  match goal with
  | |- context [read_loop fd ?n ?i ?l ?W] =>
      destruct (read_loop_frame fd n i l W o1 Ho1)
        as [l' [k2 [t2 [ev2 [Eloop K2]]]]]
  end.
  rewrite Eloop; clear Eloop. norm_upd_all.
  destruct (proj2 K2 o1 Ho1) as [o2 [Ho2 _]].
  match goal with
  | |- context [filelock sun fd lock_type LCK_UNLOCK ?W] =>
      destruct (filelock_frame sun fd lock_type LCK_UNLOCK W o2 Ho2)
        as [x3 [t3 [ev3 [Eu [K3 _]]]]]
  end.
  rewrite Eu; clear Eu. norm_upd_all.
  apply keeps_off_keeps in K3.
  assert (K : keeps fd (fd_store fd o0 (w_fdt w)) t3).
  { eapply keeps_trans; [ exact K1 | ].
    eapply keeps_trans; [ exact K2 | exact K3 ]. }
  match goal with
  | |- context [sys_close fd ?W] =>
      destruct (sys_close_closed fd W) as [x4 Ec]
  end.
  rewrite Ec; clear Ec. norm_upd.
  rewrite (fresh_closes_back _ _ _ _ Efd K).
  match goal with
  | |- context [raise_priv _ _ ?W] =>
      destruct (raise_priv_saved c0 W) as [r [c [evs [Er [_ Hc]]]]]
  end.
  rewrite Er; clear Er. norm_upd_all.
  destruct (truthy (l_rc l')).
  - rewrite free_closed. simpl snd. norm_upd.
    eexists; exists c; eexists. split; [ reflexivity | exact Hc ].
  - simpl snd. eexists; exists c; eexists.
    split; [ reflexivity | exact Hc ].
Qed.

(** ** read_proxy: cleanup on every exit *)

(** C3 (as amended). Whatever the path, the lock policy, the platform
    and the failures injected (open, lock, stat, permission, allocation,
    read, seek, retry exhaustion), [read_proxy] returns with the
    descriptor table it was entered with: the descriptor it opened is
    closed, and with it every advisory lock acquired through it is
    released.  For a process that can regain its ids (valid effective
    ids, and saved set-user-ID 0 when it runs with effective superuser
    and another real user) the credentials are those of entry: the
    dropped privilege is restored. *)
Theorem read_proxy_cleans_up :
  forall (sun : bool) (path : string) (lock_type : Z) (w : World),
    (w_fdt (snd (read_proxy sun path lock_type w)) = w_fdt w /\
     fd_lookup (fd_fresh (w_fdt w))
               (w_fdt (snd (read_proxy sun path lock_type w))) = None)
    /\
    (regain_ok (w_cred w) ->
     w_cred (snd (read_proxy sun path lock_type w)) = w_cred w /\
     c_euid (w_cred (snd (read_proxy sun path lock_type w)))
     = c_euid (w_cred w) /\
     c_egid (w_cred (snd (read_proxy sun path lock_type w)))
     = c_egid (w_cred w)).
Proof.
  intros sun path lock_type w.
  destruct (read_proxy_guarded sun path lock_type w) as [evs0 [_ E]].
  rewrite E.
  match goal with
  | |- context [read_proxy_from _ _ _ _ _ _ ?W] =>
      destruct (read_proxy_from_cleans sun path lock_type (w_cred w) W)
        as [k [c [evs [Ef Hc]]]]
  end.
  rewrite Ef. norm_upd.
  split.
  - split; [ reflexivity | apply fd_fresh_unused ].
  - intros Hok.
    assert (c = w_cred w) as -> by (apply Hc; [ exact Hok | reflexivity ]).
    repeat split; reflexivity.
Qed.

Lemma read_proxy_cleans_up_witness :
  regain_ok (w_cred (sample_world churning no_fault)) /\
  w_fdt (snd (read_proxy false proxy_path 6 (sample_world churning no_fault)))
  = [] /\
  w_cred (snd (read_proxy false proxy_path 6
                 (sample_world churning no_fault)))
  = mkCred 1000 0 0 1000 0 0.
Proof.
  assert (Hok : regain_ok (w_cred (sample_world churning no_fault)))
    by (repeat split; reflexivity).
  split; [ exact Hok | ].
  pose proof (read_proxy_cleans_up false proxy_path 6
                (sample_world churning no_fault)) as [[H1 _] H2].
  split; [ exact H1 | exact (proj1 (H2 Hok)) ].
Defined.

(** C3 as stated does not hold: the result of [raise_priv] is ignored,
    so a process that cannot regain its effective user (effective user
    0, real and saved user 1000) returns from [read_proxy] with the
    privilege still dropped, on the successful path as well as on an
    error path.  The descriptor is closed all the same. *)
Lemma read_proxy_can_return_with_privilege_dropped :
  c_euid (w_cred (no_way_back_world (fun _ => file_v1))) = 0 /\
  fst (read_proxy false proxy_path LCK_FCNTL
         (no_way_back_world (fun _ => file_v1)))
  = (0, Some (pem_v1 ++ [Byte.x00])) /\
  c_euid (w_cred (snd (read_proxy false proxy_path LCK_FCNTL
                         (no_way_back_world (fun _ => file_v1))))) = 1000 /\
  fst (read_proxy false "/nonexistent" LCK_FCNTL
         (no_way_back_world (fun _ => file_v1))) = (-1, None) /\
  c_euid (w_cred (snd (read_proxy false "/nonexistent" LCK_FCNTL
                         (no_way_back_world (fun _ => file_v1))))) = 1000 /\
  w_fdt (snd (read_proxy false proxy_path LCK_FCNTL
                (no_way_back_world (fun _ => file_v1)))) = [].
Proof. repeat split; reflexivity. Qed.

(** ** read_proxy: the permission check *)

Lemma unsafe_perms_true uid (f : File) :
  f_uid f <> uid \/
  Z.land (f_mode f) S_IRGRP <> 0 \/ Z.land (f_mode f) S_IWGRP <> 0 \/
  Z.land (f_mode f) S_IROTH <> 0 \/ Z.land (f_mode f) S_IWOTH <> 0 ->
  unsafe_perms uid (stat_of f) = true.
Proof.
  unfold unsafe_perms, stat_of. simpl.
  intros [H | [H | [H | [H | H]]]].
  - apply Z.eqb_neq in H. rewrite H. reflexivity.
  - apply truthy_true in H. rewrite H. rewrite !orb_true_r. reflexivity.
  - apply truthy_true in H. rewrite H. rewrite !orb_true_r. reflexivity.
  - apply truthy_true in H. rewrite H. rewrite !orb_true_r. reflexivity.
  - apply truthy_true in H. rewrite H. rewrite !orb_true_r. reflexivity.
Qed.

(** The steps of [read_proxy_from] up to the first snapshot, when the
    file opens, the lock is granted and [fstat] succeeds. *)
Lemma read_proxy_from_snapshot sun path lock_type uid euid egid w h :
  opens path h w -> lock_granted sun lock_type w = true ->
  w_fault w SysFstat (w_clock w) = false ->
  exists fd t1 o1 ev1,
    fd_lookup fd t1 = Some o1 /\ of_inode o1 = h /\ of_off o1 = 0 /\
    filter is_read ev1 = [] /\
    read_proxy_from sun path lock_type uid euid egid w =
    let st1 := stat_of (h (w_clock w)) in
    let w4 := upd 1 (w_cred w) t1 ev1 w in
    if unsafe_perms uid st1 then
      close_and_raise fd euid egid (-3)
        (emit (EvLog LOG_WARNING "read_proxy: unsafe permissions on proxy")
              w4)
    else
      match malloc (st_size st1 + 1) w4 with
      | (None, w5) =>
          close_and_raise fd euid egid (-4)
            (emit (EvLog LOG_WARNING "read_proxy: out of memory") w5)
      | (Some buf, w5) =>
          let (l, w6) :=
            read_loop fd (Z.to_nat tries) 0 (mkLocals buf 0 st1 None 0) w5 in
          let (_, w7) := filelock sun fd lock_type LCK_UNLOCK w6 in
          let (_, w8) := sys_close fd w7 in
          let (_, w9) := raise_priv euid egid w8 in
          if truthy (l_rc l) then
            let (_, w10) := free w9 in ((l_rc l, None), w10)
          else
            ((0, Some (store_byte (l_buf l) (Z.to_nat (l_size l))
                                  Byte.x00)), w9)
      end.
Proof.
  intros [Hfs Hflt] Hlock Hstat. unfold read_proxy_from.
  destruct (sys_open_closed path w) as [[h' [Hfs' [_ Eo]]] | [Hbad _]].
  2:{ destruct Hbad as [Hbad | Hbad]; congruence. }
  assert (h' = h) as -> by congruence.
  rewrite Eo; clear Eo.
  remember (fd_fresh (w_fdt w)) as fd eqn:Efd.
  remember (mkOpenFile h 0 None None) as o0 eqn:Eo0.
  assert (Hfd : (fd =? -1) = false).
  { apply Z.eqb_neq. pose proof (fd_fresh_ge3 (w_fdt w)). lia. }
  rewrite Hfd. cbv beta iota zeta.
  match goal with
  | |- context [filelock sun fd lock_type LCK_READ ?W] =>
      destruct (filelock_frame sun fd lock_type LCK_READ W o0
                  (fd_lookup_store fd o0 (w_fdt w)))
        as [lk [t1 [ev1 [El [K1 [Hn1 Hlk]]]]]]
  end.
  rewrite El; clear El. norm_upd_all.
  rewrite (Hlk eq_refl Hlock). rewrite truthy_0.
  destruct (proj2 K1 o0 (fd_lookup_store fd o0 (w_fdt w)))
    as [o1 [Ho1 [Hi1 Hoff1]]].
  match goal with
  | |- context [sys_fstat fd ?W] => rewrite (sys_fstat_closed fd W o1 Ho1)
  end.
  norm_upd. rewrite Hstat.
  exists fd, t1, o1, (EvFstat fd 0 :: ev1 ++ [EvOpen path fd]).
  split; [ exact Ho1 | ].
  split; [ rewrite Hi1, Eo0; reflexivity | ].
  split; [ rewrite Hoff1, Eo0; reflexivity | ].
  split; [ simpl; rewrite filter_app, Hn1; reflexivity | ].
  rewrite Hi1, Eo0. reflexivity.
Qed.

(** An unsafe file never gets past the check, whatever fails before. *)
Lemma read_proxy_from_unsafe sun path lock_type c0 w h :
  w_fs w path = Some h ->
  unsafe_perms (c_ruid c0) (stat_of (h (w_clock w))) = true ->
  exists rc k c t evs,
    read_proxy_from sun path lock_type (c_ruid c0) (c_euid c0) (c_egid c0) w
    = ((rc, None), upd k c t evs w)
    /\ filter is_read evs = []
    /\ (rc = -1 \/ rc = -6 \/ rc = -3).
Proof.
  intros Hfs Hunsafe. unfold read_proxy_from.
  destruct (sys_open_closed path w) as [[h' [Hfs' [_ Eo]]] | [_ Eo]];
    rewrite Eo; clear Eo.
  2:{ change (-1 =? -1) with true. cbv beta iota zeta.
      match goal with
      | |- context [raise_priv _ _ ?W] =>
          destruct (raise_priv_saved c0 W) as [r [c [evs [Er [Hn _]]]]]
      end.
      rewrite Er. norm_upd.
      exists (-1). eexists; eexists; eexists; eexists.
      split; [ reflexivity | ].
      split; [ count_reads; reflexivity | auto ]. }
  assert (h' = h) as -> by congruence.
  remember (fd_fresh (w_fdt w)) as fd eqn:Efd.
  remember (mkOpenFile h 0 None None) as o0 eqn:Eo0.
  assert (Hfd : (fd =? -1) = false).
  { apply Z.eqb_neq. pose proof (fd_fresh_ge3 (w_fdt w)). lia. }
  rewrite Hfd. cbv beta iota zeta.
  match goal with
  | |- context [filelock sun fd lock_type LCK_READ ?W] =>
      destruct (filelock_frame sun fd lock_type LCK_READ W o0
                  (fd_lookup_store fd o0 (w_fdt w)))
        as [lk [t1 [ev1 [El [K1 [Hn1 _]]]]]]
  end.
  rewrite El; clear El. norm_upd_all.
  assert (Hexit : forall rc W k e,
             W = upd k (w_cred w) t1 e w -> filter is_read e = [] ->
             exists rc' k' c t evs,
               close_and_raise fd (c_euid c0) (c_egid c0) rc W
               = ((rc', None), upd k' c t evs w)
               /\ filter is_read evs = [] /\ rc' = rc).
  { intros rc W k e -> He.
    destruct (close_and_raise_saved fd c0 rc (upd k (w_cred w) t1 e w))
      as [c [evs [Ec [Hn _]]]].
    rewrite Ec. norm_upd.
    exists rc. eexists; eexists; eexists; eexists.
    split; [ reflexivity | ].
    split; [ count_reads; reflexivity | reflexivity ]. }
  destruct (truthy lk).
  { match goal with
    | |- context [close_and_raise fd _ _ ?rc ?W] =>
        destruct (Hexit rc W _ _ eq_refl)
          as [rc' [k [c [t [evs [E [Hn ->]]]]]]];
          [ count_reads; reflexivity | ]
    end.
    rewrite E. exists (-6), k, c, t, evs. auto. }
  destruct (proj2 K1 o0 (fd_lookup_store fd o0 (w_fdt w)))
    as [o1 [Ho1 [Hi1 _]]].
  match goal with
  | |- context [sys_fstat fd ?W] => rewrite (sys_fstat_closed fd W o1 Ho1)
  end.
  norm_upd. rewrite Hi1, Eo0. cbn [of_inode].
  destruct (w_fault w SysFstat _).
  { match goal with
    | |- context [close_and_raise fd _ _ ?rc ?W] =>
        destruct (Hexit rc W _ _ eq_refl)
          as [rc' [k [c [t [evs [E [Hn ->]]]]]]];
          [ count_reads; reflexivity | ]
    end.
    rewrite E. exists (-1), k, c, t, evs. auto. }
  rewrite Hunsafe.
  match goal with
  | |- context [close_and_raise fd _ _ ?rc ?W] =>
      destruct (Hexit rc W _ _ eq_refl)
        as [rc' [k [c [t [evs [E [Hn ->]]]]]]];
        [ count_reads; reflexivity | ]
  end.
  rewrite E. exists (-3), k, c, t, evs. auto.
Qed.

(** C1 (as amended). A file owned by another user than the real user id,
    or with a group or other read or write bit set, makes [read_proxy]
    fail without assigning the proxy and without a single [read] call,
    for every content of the file and every lock policy.  The code is -3
    once the file has been opened, the read lock granted and the metadata
    snapshot taken; otherwise it is the code of the earlier step that
    failed (-1 for open and stat, -6 for the lock). *)
Theorem unsafe_file_is_refused :
  forall (sun : bool) (path : string) (lock_type : Z) (w : World)
         (h : nat -> File),
    w_fs w path = Some h ->
    (f_uid (h (w_clock w)) <> c_ruid (w_cred w) \/
     Z.land (f_mode (h (w_clock w))) S_IRGRP <> 0 \/
     Z.land (f_mode (h (w_clock w))) S_IWGRP <> 0 \/
     Z.land (f_mode (h (w_clock w))) S_IROTH <> 0 \/
     Z.land (f_mode (h (w_clock w))) S_IWOTH <> 0) ->
    (reaches_check sun path lock_type h w ->
     fst (read_proxy sun path lock_type w) = (-3, None)) /\
    (fst (read_proxy sun path lock_type w) = (-3, None) \/
     fst (read_proxy sun path lock_type w) = (-6, None) \/
     fst (read_proxy sun path lock_type w) = (-1, None)) /\
    reads (snd (read_proxy sun path lock_type w)) = reads w.
Proof.
  intros sun path lock_type w h Hfs Hunsafe.
  apply unsafe_perms_true in Hunsafe.
  destruct (read_proxy_guarded sun path lock_type w) as [evs0 [Hn0 E]].
  rewrite E; clear E.
  split; [ | ].
  - intros [Hopen [Hlock Hstat]].
    match goal with
    | |- context [read_proxy_from _ _ _ ?u ?e ?g ?W] =>
        destruct (read_proxy_from_snapshot sun path lock_type u e g W h)
          as [fd [t1 [o1 [ev1 [_ [_ [_ [Hn1 E]]]]]]]];
          [ exact Hopen | exact Hlock | exact Hstat | ]
    end.
    rewrite E; clear E. cbv zeta. norm_upd. rewrite Hunsafe.
    match goal with
    | |- context [close_and_raise fd _ _ ?rc ?W] =>
        destruct (close_and_raise_saved fd (w_cred w) rc W)
          as [c [evs [Ec _]]]
    end.
    rewrite Ec. reflexivity.
  - match goal with
    | |- context [read_proxy_from _ _ _ _ _ _ ?W] =>
        destruct (read_proxy_from_unsafe sun path lock_type (w_cred w) W h
                    Hfs Hunsafe)
          as [rc [k [c [t [evs [E [Hn Hrc]]]]]]]
    end.
    rewrite E; clear E. simpl fst. simpl snd. norm_upd.
    split.
    + destruct Hrc as [-> | [-> | ->]]; auto.
    + rewrite reads_upd. count_reads. reflexivity.
Qed.

Lemma unsafe_file_is_refused_witness :
  reaches_check false proxy_path LCK_FLOCK (fun _ => file_open_mode)
                (sample_world (fun _ => file_open_mode) no_fault) /\
  Z.land (f_mode file_open_mode) S_IRGRP <> 0 /\
  fst (read_proxy false proxy_path LCK_FLOCK
         (sample_world (fun _ => file_open_mode) no_fault)) = (-3, None) /\
  reads (snd (read_proxy false proxy_path LCK_FLOCK
                (sample_world (fun _ => file_open_mode) no_fault))) = 0%nat.
Proof.
  assert (Ho : reaches_check false proxy_path LCK_FLOCK
                 (fun _ => file_open_mode)
                 (sample_world (fun _ => file_open_mode) no_fault))
    by (repeat split; reflexivity).
  assert (Hbit : Z.land (f_mode file_open_mode) S_IRGRP <> 0)
    by discriminate.
  split; [ exact Ho | ]. split; [ exact Hbit | ].
  pose proof (unsafe_file_is_refused false proxy_path LCK_FLOCK
                (sample_world (fun _ => file_open_mode) no_fault)
                (fun _ => file_open_mode) eq_refl
                (or_intror (or_introl Hbit))) as [H1 [_ H2]].
  split; [ exact (H1 Ho) | exact H2 ].
Defined.

(** C1 as stated does not hold for every lock policy: the lock is taken
    before the check, so a group-readable file yields -6, not -3, when
    [flock] fails under the flock policy, and always under that policy on
    a build with [__sun] defined, where [filelock] refuses [flock]. *)
Lemma unsafe_file_lock_failure_comes_first :
  Z.land (f_mode file_open_mode) S_IRGRP <> 0 /\
  fst (read_proxy false proxy_path LCK_FLOCK
         (sample_world (fun _ => file_open_mode) flock_fails))
  = (-6, None) /\
  fst (read_proxy true proxy_path LCK_FLOCK
         (sample_world (fun _ => file_open_mode) no_fault))
  = (-6, None) /\
  fst (read_proxy true proxy_path LCK_FCNTL
         (sample_world (fun _ => file_open_mode) no_fault))
  = (-3, None).
Proof.
  split; [ discriminate | ]. repeat split; reflexivity.
Qed.

(** ** read_proxy: a file that keeps changing *)

(** With [S n] iterations left, a snapshot that differs from its basis in
    every iteration sends the loop to its end: [S n] reads, rc -5. *)
Lemma read_loop_churn fd h n : forall i l w b o,
  fd_lookup fd (w_fdt w) = Some o -> of_inode o = h ->
  w_clock w = S b -> l_s1 l = stat_of (h b) ->
  i = tries - Z.of_nat (S n) ->
  (forall t, w_fault w SysFstat t = false) ->
  (forall t, w_fault w SysRealloc t = false) ->
  (forall t, w_fault w SysLseek t = false) ->
  (forall j, (j <= n)%nat ->
             same_stamp (stat_of (h (2 * j + 2 + b)%nat))
                        (stat_of (h (2 * j + b)%nat)) = false) ->
  exists l' k t' evs,
    read_loop fd (S n) i l w = (l', upd k (w_cred w) t' evs w)
    /\ l_rc l' = -5
    /\ length (filter is_read evs) = S n
    /\ keeps fd (w_fdt w) t'.
Proof.
  induction n as [|n IH]; intros i l w b o Ho Hi Hclk Hs1 Hidx Hfs Hfr Hfl Hch.
  - rewrite read_loop_S.
    destruct (sys_read_frame fd (l_buf l) (st_size (l_s1 l)) w o Ho)
      as [size [buf [t1 [Er K1]]]].
    rewrite Er; clear Er. cbv beta iota zeta.
    destruct (proj2 K1 o Ho) as [o1 [Ho1 Hi1]].
    match goal with
    | |- context [sys_fstat fd ?W] => rewrite (sys_fstat_closed fd W o1 Ho1)
    end.
    norm_upd. rewrite Hfs, Hi1, Hi, Hclk, Hs1.
    pose proof (Hch 0%nat (le_n 0)) as H0. cbn [Nat.mul Nat.add] in H0.
    rewrite H0; clear H0.
    subst i. change (tries - Z.of_nat 1 <? tries - 1) with false.
    cbv beta iota zeta. cbn [read_loop].
    eexists; eexists; eexists; eexists.
    split; [ reflexivity | ]. split; [ reflexivity | ].
    split; [ reflexivity | exact K1 ].
  - rewrite read_loop_S.
    destruct (sys_read_frame fd (l_buf l) (st_size (l_s1 l)) w o Ho)
      as [size [buf [t1 [Er K1]]]].
    rewrite Er; clear Er. cbv beta iota zeta.
    destruct (proj2 K1 o Ho) as [o1 [Ho1 Hi1]].
    match goal with
    | |- context [sys_fstat fd ?W] => rewrite (sys_fstat_closed fd W o1 Ho1)
    end.
    norm_upd. rewrite Hfs, Hi1, Hi, Hclk, Hs1.
    pose proof (Hch 0%nat (Nat.le_0_l _)) as H0. cbn [Nat.mul Nat.add] in H0.
    rewrite H0; clear H0.
    assert (Hlt : (i <? tries - 1) = true).
    { apply Z.ltb_lt. subst i. unfold tries. lia. }
    rewrite Hlt. rewrite realloc_closed. norm_upd. rewrite Hfr.
    cbv beta iota zeta. rewrite usleep_closed. norm_upd.
    match goal with
    | |- context [sys_lseek_set fd 0 ?W] =>
        rewrite (sys_lseek_closed fd W o1 Ho1 (Hfl _))
    end.
    norm_upd. rewrite truthy_0.
    match goal with
    | |- context [read_loop fd (S n) ?I ?L ?W] =>
        destruct (IH I L W (S (S b))
                    (mkOpenFile (of_inode o1) 0 (of_flock o1) (of_fcntl o1)))
          as [l' [k [t3 [evs [Erec [Hrc [Hcnt K3]]]]]]]
    end.
    + apply fd_lookup_store.
    + simpl. congruence.
    + norm_upd. rewrite Hclk. reflexivity.
    + reflexivity.
    + subst i. rewrite !Nat2Z.inj_succ. lia.
    + intros t. norm_upd. apply Hfs.
    + intros t. norm_upd. apply Hfr.
    + intros t. norm_upd. apply Hfl.
    + intros j Hj.
      replace (2 * j + 2 + S (S b))%nat with (2 * S j + 2 + b)%nat by lia.
      replace (2 * j + S (S b))%nat with (2 * S j + b)%nat by lia.
      apply Hch. lia.
    + rewrite Erec; clear Erec. norm_upd_all.
      eexists; eexists; eexists; eexists.
      split; [ reflexivity | ]. split; [ exact Hrc | ].
      split.
      * rewrite filter_app, length_app, Hcnt. simpl. lia.
      * eapply keeps_trans; [ exact K1 | ].
        eapply keeps_trans; [ | exact K3 ].
        eapply keeps_store; [ exact Ho1 | reflexivity ].
Qed.

(** C4. Once [read_proxy] has reached its retry loop, when no
    reallocation, stat or seek fails and every re-snapshot differs (in
    size, mtime or ctime) from the snapshot its read was based on,
    [read_proxy] returns -5 without assigning the proxy after exactly 10
    [read] calls. *)
Theorem churning_file_exhausts_retries :
  forall (sun : bool) (path : string) (lock_type : Z) (w : World)
         (h : nat -> File),
    reaches_loop sun path lock_type h w ->
    (forall t, w_fault w SysFstat t = false) ->
    (forall t, w_fault w SysRealloc t = false) ->
    (forall t, w_fault w SysLseek t = false) ->
    (forall j, (j < 10)%nat ->
               same_stamp (stat_of (h (2 * j + 2 + w_clock w)%nat))
                          (stat_of (h (2 * j + w_clock w)%nat)) = false) ->
    fst (read_proxy sun path lock_type w) = (-5, None) /\
    reads (snd (read_proxy sun path lock_type w)) = (10 + reads w)%nat.
Proof.
  intros sun path lock_type w h [[Hopen [Hlock _]] [Hsafe Hfm]] Hfs Hfr Hfl Hch.
  destruct (read_proxy_guarded sun path lock_type w) as [evs0 [Hn0 E]].
  rewrite E; clear E.
  match goal with
  | |- context [read_proxy_from _ _ _ ?u ?e ?g ?W] =>
      destruct (read_proxy_from_snapshot sun path lock_type u e g W h)
        as [fd [t1 [o1 [ev1 [Ho1 [Hi1 [_ [Hn1 E]]]]]]]];
        [ exact Hopen | exact Hlock | apply Hfs | ]
  end.
  rewrite E; clear E. cbv zeta. norm_upd. rewrite Hsafe.
  rewrite malloc_closed. norm_upd. rewrite Hfm.
  change (Z.to_nat tries) with 10%nat.
  match goal with
  | |- context [read_loop fd 10 0 ?L ?W] =>
      destruct (read_loop_churn fd h 9 0 L W (w_clock w) o1)
        as [l' [k [t2 [ev2 [El [Hrc [Hcnt K2]]]]]]];
        [ norm_upd; exact Ho1
        | exact Hi1
        | norm_upd; reflexivity
        | reflexivity
        | reflexivity
        | intros; norm_upd; apply Hfs
        | intros; norm_upd; apply Hfr
        | intros; norm_upd; apply Hfl
        | intros j Hj; apply Hch; lia
        | ]
  end.
  rewrite El; clear El. norm_upd_all.
  destruct (proj2 K2 o1 Ho1) as [o2 [Ho2 _]].
  match goal with
  | |- context [filelock sun fd lock_type LCK_UNLOCK ?W] =>
      destruct (filelock_frame sun fd lock_type LCK_UNLOCK W o2 Ho2)
        as [x3 [t3 [ev3 [Eu [_ [Hn3 _]]]]]]
  end.
  rewrite Eu; clear Eu. norm_upd_all.
  match goal with
  | |- context [sys_close fd ?W] =>
      destruct (sys_close_closed fd W) as [x4 Ec]
  end.
  rewrite Ec; clear Ec. norm_upd.
  match goal with
  | |- context [raise_priv _ _ ?W] =>
      destruct (raise_priv_frame (c_euid (w_cred w)) (c_egid (w_cred w)) W)
        as [r [c [ev5 [Er Hn5]]]]
  end.
  rewrite Er; clear Er. norm_upd. rewrite Hrc.
  change (truthy (-5)) with true. cbv beta iota zeta.
  rewrite free_closed. norm_upd. simpl fst. simpl snd.
  split; [ reflexivity | ].
  rewrite reads_upd. count_reads.
  rewrite length_app, Hcnt. reflexivity.
Qed.

Lemma churning_stamps_differ :
  forall j, (j < 10)%nat ->
    same_stamp (stat_of (churning (2 * j + 2 + 0)%nat))
               (stat_of (churning (2 * j + 0)%nat)) = false.
Proof.
  intros j _. unfold same_stamp, stat_of, churning.
  cbn [st_size st_mtime st_ctime f_data f_mtime f_ctime].
  assert (H : (Z.of_nat (2 * j + 2 + 0) =? Z.of_nat (2 * j + 0)) = false)
    by (apply Z.eqb_neq; lia).
  rewrite H. rewrite !andb_false_r. reflexivity.
Qed.

Lemma churning_file_exhausts_retries_witness :
  reaches_loop false proxy_path LCK_FCNTL churning
               (sample_world churning no_fault) /\
  fst (read_proxy false proxy_path LCK_FCNTL
         (sample_world churning no_fault)) = (-5, None) /\
  reads (snd (read_proxy false proxy_path LCK_FCNTL
                (sample_world churning no_fault))) = 10%nat.
Proof.
  assert (Ho : reaches_loop false proxy_path LCK_FCNTL churning
                 (sample_world churning no_fault))
    by (repeat split; reflexivity).
  split; [ exact Ho | ].
  exact (churning_file_exhausts_retries false proxy_path LCK_FCNTL
           (sample_world churning no_fault) churning Ho
           (fun _ => eq_refl) (fun _ => eq_refl) (fun _ => eq_refl)
           churning_stamps_differ).
Defined.

(** ** read_proxy: a file renewed once while it is read *)

Lemma same_stamp_refl s : same_stamp s s = true.
Proof. unfold same_stamp. rewrite !Z.eqb_refl. reflexivity. Qed.

Lemma realloc_length {A} (n : nat) (b : list A) (x : A) :
  length (firstn n b ++ repeat x (n - length b)) = n.
Proof.
  rewrite length_app, length_firstn, repeat_length. lia.
Qed.

Lemma store_terminator (d b : list Byte.byte) (c : Byte.byte) :
  length b = S (length d) ->
  store_byte (d ++ skipn (length d) b) (length d) c = d ++ [c].
Proof.
  revert b. induction d as [|x d IH]; intros b Hb.
  - destruct b as [|y [|z b]]; simpl in *; try discriminate. reflexivity.
  - destruct b as [|y b]; simpl in *; [ discriminate | ].
    f_equal. apply IH. lia.
Qed.

Lemma st_size_stat_of f : st_size (stat_of f) = Z.of_nat (length (f_data f)).
Proof. reflexivity. Qed.

Lemma read_whole (d : list Byte.byte) :
  firstn (Z.to_nat (Z.of_nat (length d))) (skipn (Z.to_nat 0) d) = d.
Proof. rewrite Nat2Z.id. simpl. apply firstn_all. Qed.

(** One changed snapshot, then a stable file: the second read is
    accepted and the buffer holds the renewed content. *)
Lemma read_loop_renewed fd h n : forall i l w b o,
  fd_lookup fd (w_fdt w) = Some o -> of_inode o = h ->
  w_clock w = S b -> l_s1 l = stat_of (h b) ->
  (i <? tries - 1) = true ->
  (forall s t, w_fault w s t = false) ->
  same_stamp (stat_of (h (S (S b)))) (stat_of (h b)) = false ->
  h (S (S (S b))) = h (S (S b)) ->
  h (S (S (S (S b)))) = h (S (S b)) ->
  exists l' k t' evs,
    read_loop fd (S (S n)) i l w = (l', upd k (w_cred w) t' evs w)
    /\ l_rc l' = 0
    /\ l_s2 l' = Some (stat_of (h (S (S (S (S b))))))
    /\ l_size l' = st_size (stat_of (h (S (S (S (S b))))))
    /\ store_byte (l_buf l') (Z.to_nat (l_size l')) Byte.x00
       = f_data (h (S (S b))) ++ [Byte.x00]
    /\ length (filter is_read evs) = 2%nat
    /\ keeps fd (w_fdt w) t'.
Proof.
  intros i l w b o Ho Hi Hclk Hs1 Hlt Hnf Hdiff Hst3 Hst4.
  rewrite read_loop_S.
  destruct (sys_read_frame fd (l_buf l) (st_size (l_s1 l)) w o Ho)
    as [size [buf [t1 [Er K1]]]].
  rewrite Er; clear Er. cbv beta iota zeta.
  destruct (proj2 K1 o Ho) as [o1 [Ho1 Hi1]].
  match goal with
  | |- context [sys_fstat fd ?W] => rewrite (sys_fstat_closed fd W o1 Ho1)
  end.
  norm_upd. rewrite Hnf, Hi1, Hi, Hclk, Hs1, Hdiff, Hlt.
  rewrite realloc_closed. norm_upd. rewrite Hnf.
  cbv beta iota zeta. rewrite usleep_closed. norm_upd.
  match goal with
  | |- context [sys_lseek_set fd 0 ?W] =>
      rewrite (sys_lseek_closed fd W o1 Ho1 (Hnf _ _))
  end.
  norm_upd. rewrite truthy_0.
  (* second attempt *)
  rewrite read_loop_S. cbn [l_buf l_s1 l_rc].
  match goal with
  | |- context [sys_read fd ?B ?C ?W] =>
      rewrite (sys_read_closed fd B C W
                 (mkOpenFile (of_inode o1) 0 (of_flock o1) (of_fcntl o1))
                 (fd_lookup_store _ _ _) (Hnf _ _))
  end.
  cbv beta iota zeta. norm_upd. cbn [of_inode of_off of_flock of_fcntl].
  rewrite Hi1, Hi, Hclk, Hst3.
  rewrite !st_size_stat_of, !read_whole.
  match goal with
  | |- context [sys_fstat fd ?W] =>
      rewrite (sys_fstat_closed fd W
                 (mkOpenFile h (0 + Z.of_nat (length (f_data (h (S (S b))))))
                             (of_flock o1) (of_fcntl o1))
                 (fd_lookup_store _ _ _))
  end.
  norm_upd. cbn [of_inode]. rewrite Hnf, Hclk, Hst4.
  rewrite same_stamp_refl, Z.eqb_refl.
  eexists; eexists; eexists; eexists.
  split; [ reflexivity | ].
  split; [ reflexivity | ].
  split; [ reflexivity | ].
  split; [ reflexivity | ].
  split.
  - cbn [l_buf l_size]. rewrite Nat2Z.id. apply store_terminator.
    rewrite realloc_length.
    rewrite Z2Nat.inj_add, Nat2Z.id by lia. simpl. lia.
  - split; [ reflexivity | ].
    eapply keeps_trans; [ exact K1 | ].
    match goal with
    | |- keeps fd t1 (fd_store fd ?oB (fd_store fd ?oA t1)) =>
        apply (keeps_trans fd t1 (fd_store fd oA t1));
          [ apply (keeps_store fd t1 o1 oA Ho1); simpl; congruence
          | apply (keeps_store fd (fd_store fd oA t1) oA oB
                     (fd_lookup_store _ _ _)); reflexivity ]
    end.
Qed.



(* ================================================================== *)
(** * Further properties of the unit *)

(** ** psp_proxy_is_rfc in full *)

Lemma obj2txt_is_rfc (o : ASN1_OBJECT) :
  String.eqb (OBJ_obj2txt OBJ_BUF_SIZE o) OID_RFC_PROXY = true
  <-> o = OID_RFC_PROXY.
Proof.
  split.
  - intros H. apply String.eqb_eq in H.
    apply (str_take_short _ _ _ H). vm_compute. lia.
  - intros ->. reflexivity.
Qed.

Lemma rfc_loop_one exts :
  rfc_loop exts = 1 ->
  exists ex, In ex exts /\ ex_object ex = Some OID_RFC_PROXY.
Proof.
  induction exts as [|a exts IH]; simpl; [ discriminate | ].
  destruct (ex_object a) as [o|] eqn:Ho.
  - destruct (String.eqb (OBJ_obj2txt OBJ_BUF_SIZE o) OID_RFC_PROXY) eqn:E.
    + intros _. apply obj2txt_is_rfc in E. subst o.
      exists a. split; [ left; reflexivity | exact Ho ].
    + intros H. destruct (IH H) as [ex [Hin Hex]].
      exists ex. split; [ right; exact Hin | exact Hex ].
  - intros H. destruct (IH H) as [ex [Hin Hex]].
    exists ex. split; [ right; exact Hin | exact Hex ].
Qed.

(** X1. [psp_proxy_is_rfc] returns 1 exactly when some extension of the
    certificate has the object identifier 1.3.6.1.5.5.7.1.14 (the whole
    identifier, not a prefix of it: cutting the text to 79 characters
    never produces a match), and 0 exactly when none has; it never
    returns anything else, and extensions with other identifiers or
    without one do not change the answer wherever they stand. *)
Theorem proxy_is_rfc_iff :
  forall (proxy : X509),
    (psp_proxy_is_rfc proxy = 1 <->
     exists ex, In ex (x_exts proxy) /\ ex_object ex = Some OID_RFC_PROXY)
    /\ (psp_proxy_is_rfc proxy = 0 <->
        forall ex, In ex (x_exts proxy) ->
                   ex_object ex <> Some OID_RFC_PROXY)
    /\ (forall pre post,
           (forall ex, In ex (pre ++ post) ->
                       ex_object ex <> Some OID_RFC_PROXY) ->
           psp_proxy_is_rfc
             (mkX509 (x_serial proxy) (x_subject proxy)
                     (pre ++ x_exts proxy ++ post))
           = psp_proxy_is_rfc proxy).
Proof.
  intros proxy.
  assert (Hone : forall exts,
             rfc_loop exts = 1 <->
             exists ex, In ex exts /\ ex_object ex = Some OID_RFC_PROXY).
  { intros exts. split; [ apply rfc_loop_one | ].
    intros [ex [Hin Hex]]. eapply rfc_loop_found; eauto. }
  assert (Hzero : forall exts,
             rfc_loop exts = 0 <->
             forall ex, In ex exts -> ex_object ex <> Some OID_RFC_PROXY).
  { intros exts. split.
    - intros H0 ex Hin Hex.
      rewrite (rfc_loop_found exts ex Hin Hex) in H0. discriminate.
    - intros Hnone. destruct (rfc_loop_bool exts) as [H|H]; [ exact H | ].
      apply Hone in H. destruct H as [ex [Hin Hex]].
      exfalso. exact (Hnone ex Hin Hex). }
  split; [ apply Hone | ]. split; [ apply Hzero | ].
  intros pre post Hother. unfold psp_proxy_is_rfc. simpl.
  destruct (rfc_loop_bool (x_exts proxy)) as [H|H]; rewrite H.
  - apply Hzero. intros ex Hin.
    apply in_app_or in Hin. destruct Hin as [Hin | Hin].
    + apply Hother. apply in_or_app. left. exact Hin.
    + apply in_app_or in Hin. destruct Hin as [Hin | Hin].
      * apply (proj1 (Hzero _) H). exact Hin.
      * apply Hother. apply in_or_app. right. exact Hin.
  - apply Hone in H. destruct H as [ex [Hin Hex]].
    apply Hone. exists ex. split; [ | exact Hex ].
    apply in_or_app. right. apply in_or_app. left. exact Hin.
Qed.

(** ** psp_match_fqan and psp_store_fqans on a list *)

Lemma skipn_nth_error {A} (l : list A) : forall k x,
  nth_error l k = Some x -> skipn k l = x :: skipn (S k) l.
Proof.
  induction l as [|a l IH]; intros [|k] x H; simpl in *; try discriminate.
  - injection H as ->. reflexivity.
  - apply IH. exact H.
Qed.

Lemma skipn_past {A} (l : list A) k :
  nth_error l k = None -> skipn k l = [].
Proof.
  intros H. apply skipn_all2. apply nth_error_None. exact H.
Qed.

Lemma fqan_at_nat l k : fqan_at (Some l) (Z.of_nat k) = nth_error l k.
Proof.
  unfold fqan_at.
  assert (H : (Z.of_nat k <? 0) = false) by (apply Z.ltb_ge; lia).
  rewrite H, Nat2Z.id. reflexivity.
Qed.

Lemma of_nat_S k : Z.of_nat k + 1 = Z.of_nat (S k).
Proof. lia. Qed.

Section MatchProps.

Variable fnmatch_noescape : string -> string -> Z.

Local Abbreviation matches := (fqan_matches fnmatch_noescape).

Lemma match_loop_scan l pat w : forall n k,
  match_loop fnmatch_noescape n (Z.of_nat k) (Some l) pat w =
  if existsb (matches pat) (firstn n (skipn k l)) then
    (Return (Some 1),
     emit (EvLog LOG_DEBUG "psp_match_fqan: found FQAN matching") w)
  else if (n <=? length l - k)%nat then (Next tt, w)
  else (Return None, w).
Proof.
  induction n as [|n IH]; intros k.
  - reflexivity.
  - cbn [match_loop]. rewrite fqan_at_nat.
    destruct (nth_error l k) as [x|] eqn:E.
    + rewrite (skipn_nth_error l k x E). cbn [firstn existsb].
      unfold fqan_matches at 1.
      destruct (fnmatch_noescape pat x =? 0); [ reflexivity | ].
      cbn [orb]. rewrite of_nat_S, IH.
      assert (Hk : (k < length l)%nat)
        by (apply nth_error_Some; congruence).
      replace (S n <=? length l - k)%nat with (n <=? length l - S k)%nat;
        [ reflexivity | ].
      destruct (Nat.leb_spec n (length l - S k));
        destruct (Nat.leb_spec (S n) (length l - k)); try reflexivity; lia.
    + rewrite (skipn_past l k E). cbn [firstn existsb].
      assert (Hk : (length l <= k)%nat) by (apply nth_error_None; exact E).
      replace (S n <=? length l - k)%nat with false; [ reflexivity | ].
      symmetry. apply Nat.leb_gt. lia.
Qed.

(** X2. [psp_match_fqan] looks at the first [nfqan] attributes only:
    it returns 1 (and logs the match) exactly when one of them matches
    the pattern under fnmatch, and 0 without any effect when none does
    and the count does not exceed the array.  A count beyond the end of
    the array with no match among the attributes makes it read past the
    array, which C leaves undefined.  A count that is not positive gives
    0. *)
Theorem match_fqan_scans_first_n :
  forall (nfqan : Z) (l : list string) (pat : string) (w : World),
    psp_match_fqan fnmatch_noescape nfqan (Some l) pat w =
    if existsb (matches pat) (firstn (Z.to_nat nfqan) l) then
      (Some 1, emit (EvLog LOG_DEBUG "psp_match_fqan: found FQAN matching") w)
    else if (Z.to_nat nfqan <=? length l)%nat then (Some 0, w)
    else (None, w).
Proof.
  intros nfqan l pat w. unfold psp_match_fqan. unfold_cfun.
  change 0 with (Z.of_nat 0). rewrite match_loop_scan.
  cbn [skipn]. rewrite Nat.sub_0_r.
  destruct (existsb (matches pat) (firstn (Z.to_nat nfqan) l));
    [ reflexivity | ].
  destruct (Z.to_nat nfqan <=? length l)%nat; reflexivity.
Qed.

End MatchProps.

Lemma published_upd k c t evs w :
  published (upd k c t evs w)
  = published w ++ flat_map cred_of (rev evs).
Proof.
  unfold published, upd. simpl. rewrite rev_app_distr, flat_map_app.
  reflexivity.
Qed.

Lemma store_loop_all l : forall n k w,
  w_fault w SysAddCred (w_clock w) = false ->
  (k + n <= length l)%nat ->
  store_loop n (Z.of_nat k) (Some l) w =
  (Next tt,
   upd 0 (w_cred w) (w_fdt w)
       (rev (map (fun f => EvAddCred "LCMAPS_VO_CRED_STRING" f 0)
                 (firstn n (skipn k l)))) w).
Proof.
  induction n as [|n IH]; intros k w Hf Hk.
  - cbn [store_loop firstn map rev]. rewrite upd_id. reflexivity.
  - cbn [store_loop]. rewrite fqan_at_nat.
    destruct (nth_error l k) as [x|] eqn:E.
    2:{ apply nth_error_None in E. lia. }
    rewrite (skipn_nth_error l k x E). cbn [firstn map rev].
    unfold_cfun. unfold addCredentialData. rewrite Hf.
    rewrite truthy_0, of_nat_S.
    rewrite IH; [ | exact Hf | lia ].
    rewrite emit_upd. norm_upd. reflexivity.
Qed.

Lemma published_new_fqans (fs : list string) :
  flat_map cred_of
    (rev (rev (map (fun f => EvAddCred "LCMAPS_VO_CRED_STRING" f 0) fs)))
  = map (fun f => ("LCMAPS_VO_CRED_STRING", f)) fs.
Proof.
  rewrite rev_involutive.
  induction fs as [|f fs IH]; simpl; [ reflexivity | ].
  rewrite IH. reflexivity.
Qed.

Lemma store_fqans_ok nfqans l w :
  (Z.to_nat nfqans <= length l)%nat ->
  w_fault w SysAddCred (w_clock w) = false ->
  fst (psp_store_fqans nfqans (Some l) w) = Some 0 /\
  published (snd (psp_store_fqans nfqans (Some l) w))
  = published w
    ++ map (fun f => ("LCMAPS_VO_CRED_STRING", f))
           (firstn (Z.to_nat nfqans) l).
Proof.
  intros Hlen Hf. unfold psp_store_fqans. unfold_cfun.
  change 0 with (Z.of_nat 0).
  rewrite (store_loop_all l (Z.to_nat nfqans) 0 w Hf Hlen).
  cbn [skipn fst snd]. split; [ reflexivity | ].
  rewrite emit_upd. norm_upd. rewrite published_upd.
  cbn [app rev]. rewrite flat_map_app. cbn [flat_map cred_of app].
  rewrite app_nil_r. rewrite published_new_fqans. reflexivity.
Qed.

(** X3. When the framework accepts credential data and the count does
    not exceed the array, [psp_store_fqans] returns 0 and publishes
    exactly the first [nfqans] attributes, each once, in the order of the
    array, as LCMAPS_VO_CRED_STRING; attributes beyond the count are not
    published.  When the framework refuses the first attribute, the
    function stops there: it returns -1 after that one attempt and
    nothing is published. *)
Theorem store_fqans_publishes_in_order :
  forall (nfqans : Z) (l : list string) (w : World),
    (Z.to_nat nfqans <= length l)%nat ->
    (w_fault w SysAddCred (w_clock w) = false ->
     fst (psp_store_fqans nfqans (Some l) w) = Some 0 /\
     published (snd (psp_store_fqans nfqans (Some l) w))
     = published w
       ++ map (fun f => ("LCMAPS_VO_CRED_STRING", f))
              (firstn (Z.to_nat nfqans) l))
    /\
    (w_fault w SysAddCred (w_clock w) = true -> 0 < nfqans ->
     fst (psp_store_fqans nfqans (Some l) w) = Some (-1) /\
     published (snd (psp_store_fqans nfqans (Some l) w)) = published w /\
     length (filter is_add_cred
               (w_trace (snd (psp_store_fqans nfqans (Some l) w))))
     = S (length (filter is_add_cred (w_trace w)))).
Proof.
  intros nfqans l w Hlen. split.
  - apply store_fqans_ok. exact Hlen.
  - intros Hf Hpos. unfold psp_store_fqans.
    destruct (Z.to_nat nfqans) as [|n] eqn:En; [ lia | ].
    destruct l as [|f l]; [ simpl in Hlen; lia | ].
    cbn [store_loop]. unfold fqan_at. cbn [Z.ltb Z.compare Z.to_nat nth_error].
    unfold_cfun. unfold addCredentialData. rewrite Hf.
    cbn [fst snd]. change (truthy (-1)) with true. cbv iota.
    cbn [fst snd emit w_trace filter is_add_cred length].
    split; [ reflexivity | ]. split; [ | reflexivity ].
    unfold published. cbn [w_trace emit rev].
    rewrite <- app_assoc, flat_map_app. cbn [flat_map cred_of app].
    change (-1 =? 0) with false. cbv iota. apply app_nil_r.
Qed.

Lemma store_fqans_publishes_in_order_witness :
  (Z.to_nat 2 <= length ["/atlas/Role=production"; "/atlas"; "/cms"])%nat /\
  published
    (snd (psp_store_fqans 2 (Some ["/atlas/Role=production"; "/atlas"; "/cms"])
            (sample_world (fun _ => file_v1) no_fault)))
  = [("LCMAPS_VO_CRED_STRING", "/atlas/Role=production");
     ("LCMAPS_VO_CRED_STRING", "/atlas")].
Proof.
  split; [ exact (le_S 2 2 (le_n 2)) | ].
  exact (proj2 (proj1 (store_fqans_publishes_in_order 2
                         ["/atlas/Role=production"; "/atlas"; "/cms"]
                         (sample_world (fun _ => file_v1) no_fault)
                         (le_S 2 2 (le_n 2)))
                      eq_refl)).
Defined.

(** ** psp_get_fqans with attributes present *)

Lemma get_fqans_logs_only nf fq argc argv w :
  exists evs,
    snd (psp_get_fqans nf fq argc argv w)
    = upd 0 (w_cred w) (w_fdt w) evs w
    /\ flat_map cred_of (rev evs) = [].
Proof.
  unfold psp_get_fqans. unfold_cfun.
  destruct (lcmaps_getArgValue "nfqan" "int" argc argv) as [v|].
  2:{ eexists. rewrite emit_upd. split; reflexivity. }
  cbv zeta beta.
  destruct (match v with ArgInt n => n | _ => nf end >? 0).
  2:{ eexists. cbn [snd]. rewrite !emit_upd. norm_upd.
      split; reflexivity. }
  destruct (lcmaps_getArgValue "fqan_list" "char **" argc argv);
    eexists; cbn [snd]; rewrite !emit_upd; norm_upd; split; reflexivity.
Qed.

Lemma get_fqans_with_list nf fq argc argv w n :
  lcmaps_getArgValue "nfqan" "int" argc argv = Some (ArgInt n) ->
  0 < n ->
  fst (psp_get_fqans nf fq argc argv w)
  = (0, (n, match lcmaps_getArgValue "fqan_list" "char **" argc argv with
            | Some (ArgStrings l) => l
            | _ => fq
            end)).
Proof.
  intros Hn Hpos.
  assert (Hgt : (n >? 0) = true) by (rewrite Z.gtb_ltb; apply Z.ltb_lt; lia).
  unfold psp_get_fqans. unfold_cfun.
  rewrite Hn. cbv zeta beta iota. rewrite Hgt.
  destruct (lcmaps_getArgValue "fqan_list" "char **" argc argv) as [[]|];
    reflexivity.
Qed.

(** X4. With a positive count, [psp_get_fqans] stores the count, and
    stores the framework's list when that argument is present.  When the
    list argument is missing it still returns 0 with the positive count
    and leaves the caller's list pointer as it was on entry. *)
Theorem get_fqans_positive_count :
  forall (nf : Z) (fq : option (list string)) (argc : Z)
         (argv : list lcmaps_argument_t) (w : World) (n : Z),
    lcmaps_getArgValue "nfqan" "int" argc argv = Some (ArgInt n) ->
    0 < n ->
    (forall l, lcmaps_getArgValue "fqan_list" "char **" argc argv
               = Some (ArgStrings l) ->
               fst (psp_get_fqans nf fq argc argv w) = (0, (n, l)))
    /\ (lcmaps_getArgValue "fqan_list" "char **" argc argv = None ->
        fst (psp_get_fqans nf fq argc argv w) = (0, (n, fq))).
Proof.
  intros nf fq argc argv w n Hn Hpos.
  rewrite (get_fqans_with_list nf fq argc argv w n Hn Hpos).
  split.
  - intros l Hl. rewrite Hl. reflexivity.
  - intros Hl. rewrite Hl. reflexivity.
Qed.

Lemma get_fqans_positive_count_witness :
  fst (psp_get_fqans 0 None 2
         [mkArg "nfqan" "int" (Some (ArgInt 2));
          mkArg "fqan_list" "char **"
                (Some (ArgStrings (Some ["/atlas"; "/cms"])))]
         (sample_world (fun _ => file_v1) no_fault))
  = (0, (2, Some ["/atlas"; "/cms"])) /\
  fst (psp_get_fqans 0 None 1 [mkArg "nfqan" "int" (Some (ArgInt 2))]
         (sample_world (fun _ => file_v1) no_fault))
  = (0, (2, None)).
Proof.
  split.
  - exact (proj1 (get_fqans_positive_count 0 None 2
                    [mkArg "nfqan" "int" (Some (ArgInt 2));
                     mkArg "fqan_list" "char **"
                           (Some (ArgStrings (Some ["/atlas"; "/cms"])))]
                    (sample_world (fun _ => file_v1) no_fault) 2
                    eq_refl eq_refl)
                 (Some ["/atlas"; "/cms"]) eq_refl).
  - exact (proj2 (get_fqans_positive_count 0 None 1
                    [mkArg "nfqan" "int" (Some (ArgInt 2))]
                    (sample_world (fun _ => file_v1) no_fault) 2
                    eq_refl eq_refl)
                 eq_refl).
Defined.

(** X5. Reading then storing: when the framework passes a list and its
    length as the count, and accepts credential data, [psp_get_fqans]
    followed by [psp_store_fqans] on what it returned succeeds and
    publishes exactly the framework's attributes, in their order,
    whatever the caller's variables held before; an empty list publishes
    nothing. *)
Theorem get_then_store_publishes_framework_list :
  forall (nf : Z) (fq : option (list string)) (argc : Z)
         (argv : list lcmaps_argument_t) (w : World) (l : list string),
    lcmaps_getArgValue "nfqan" "int" argc argv
    = Some (ArgInt (Z.of_nat (length l))) ->
    lcmaps_getArgValue "fqan_list" "char **" argc argv
    = Some (ArgStrings (Some l)) ->
    w_fault w SysAddCred (w_clock w) = false ->
    let r := psp_get_fqans nf fq argc argv w in
    let s := psp_store_fqans (fst (snd (fst r))) (snd (snd (fst r))) (snd r) in
    fst (fst r) = 0 /\ fst s = Some 0 /\
    published (snd s)
    = published w ++ map (fun f => ("LCMAPS_VO_CRED_STRING", f)) l.
Proof.
  intros nf fq argc argv w l Hn Hl Hf r s.
  destruct (get_fqans_logs_only nf fq argc argv w) as [evs [Ew Hev]].
  fold r in Ew.
  assert (Hpub : published (snd r) = published w).
  { rewrite Ew, published_upd, Hev. apply app_nil_r. }
  assert (Hf1 : w_fault (snd r) SysAddCred (w_clock (snd r)) = false).
  { rewrite Ew. norm_upd. exact Hf. }
  split; [ apply get_fqans_returns_0 | ].
  destruct l as [|f l].
  - (* count 0: the list is not looked at *)
    assert (Hr : snd (fst r) = (0, fq)).
    { apply (get_fqans_nonpositive nf fq argc argv w 0 Hn). lia. }
    subst s. rewrite Hr. cbn [fst snd].
    unfold psp_store_fqans. cbn [Z.to_nat store_loop]. unfold_cfun.
    cbn [fst snd]. split; [ reflexivity | ].
    unfold published in *. cbn [emit w_trace rev].
    rewrite flat_map_app. cbn [flat_map cred_of app map].
    rewrite !app_nil_r. exact Hpub.
  - assert (Hr : fst r = (0, (Z.of_nat (length (f :: l)), Some (f :: l)))).
    { unfold r.
      rewrite (get_fqans_with_list nf fq argc argv w _ Hn
                 ltac:(simpl; lia)).
      rewrite Hl. reflexivity. }
    subst s. rewrite Hr. cbn [fst snd].
    assert (Hlen : (Z.to_nat (Z.of_nat (length (f :: l))) <= length (f :: l))%nat)
      by (rewrite Nat2Z.id; lia).
    destruct (store_fqans_ok _ (f :: l) (snd r) Hlen Hf1) as [H1 H2].
    split; [ exact H1 | ].
    rewrite H2, Hpub, Nat2Z.id, firstn_all. reflexivity.
Qed.

Lemma get_then_store_publishes_framework_list_witness :
  published
    (snd (psp_store_fqans
            (fst (snd (fst (psp_get_fqans 5 stale_fqans 2
                              [mkArg "nfqan" "int" (Some (ArgInt 2));
                               mkArg "fqan_list" "char **"
                                     (Some (ArgStrings (Some ["/atlas"; "/cms"])))]
                              (sample_world (fun _ => file_v1) no_fault)))))
            (snd (snd (fst (psp_get_fqans 5 stale_fqans 2
                              [mkArg "nfqan" "int" (Some (ArgInt 2));
                               mkArg "fqan_list" "char **"
                                     (Some (ArgStrings (Some ["/atlas"; "/cms"])))]
                              (sample_world (fun _ => file_v1) no_fault)))))
            (snd (psp_get_fqans 5 stale_fqans 2
                    [mkArg "nfqan" "int" (Some (ArgInt 2));
                     mkArg "fqan_list" "char **"
                           (Some (ArgStrings (Some ["/atlas"; "/cms"])))]
                    (sample_world (fun _ => file_v1) no_fault)))))
  = [("LCMAPS_VO_CRED_STRING", "/atlas"); ("LCMAPS_VO_CRED_STRING", "/cms")].
Proof.
  exact (proj2 (proj2 (get_then_store_publishes_framework_list
                         5 stale_fqans 2
                         [mkArg "nfqan" "int" (Some (ArgInt 2));
                          mkArg "fqan_list" "char **"
                                (Some (ArgStrings (Some ["/atlas"; "/cms"])))]
                         (sample_world (fun _ => file_v1) no_fault)
                         ["/atlas"; "/cms"]
                         eq_refl eq_refl eq_refl))).
Defined.

(** ** priv_drop in general *)

Lemma priv_drop_run uid gid w rc w' :
  priv_drop uid gid w = (rc, w') ->
  (rc = 0 \/ rc = -1)
  /\ (rc = 0 ->
      c_egid (w_cred w') = gid /\
      c_euid (w_cred w') = (if uid =? 0 then c_euid (w_cred w) else uid))
  /\ (rc <> 0 ->
      c_euid (w_cred w') = c_euid (w_cred w) /\
      (c_egid (w_cred w) = c_rgid (w_cred w) \/
       c_egid (w_cred w) = c_sgid (w_cred w) -> w_cred w' = w_cred w))
  /\ (c_ruid (w_cred w') = c_ruid (w_cred w) /\
      c_suid (w_cred w') = c_suid (w_cred w) /\
      c_rgid (w_cred w') = c_rgid (w_cred w) /\
      c_sgid (w_cred w') = c_sgid (w_cred w))
  /\ (w_fdt w' = w_fdt w /\ w_clock w' = w_clock w /\ w_fs w' = w_fs w).
Proof.
  destruct w as [c fs clk flt junk t tr].
  destruct c as [ru eu su rg eg sg].
  assert (Hback : forall g, may_setegid (mkCred ru eu su rg g sg) g = true).
  { intros g. unfold may_setegid. simpl. rewrite Z.eqb_refl.
    rewrite orb_true_r. reflexivity. }
  unfold priv_drop. unfold_cfun. unfold geteuid, getegid, seteuid, setegid.
  cbn -[may_seteuid may_setegid].
  destruct (Z.eqb_spec gid eg) as [Hg|Hg]; cbn -[may_seteuid may_setegid].
  - destruct (Z.eqb_spec uid 0) as [H0|H0]; cbn -[may_seteuid may_setegid].
    { intros H. injection H as <- <-. simpl.
      repeat split; auto; congruence. }
    destruct (Z.eqb_spec uid eu) as [H1|H1]; cbn -[may_seteuid may_setegid].
    { intros H. injection H as <- <-. simpl.
      repeat split; auto; congruence. }
    destruct (may_seteuid (mkCred ru eu su rg eg sg) uid);
      cbn -[may_seteuid may_setegid].
    { intros H. injection H as <- <-. simpl.
      repeat split; auto; congruence. }
    rewrite Hback. cbn. intros H. injection H as <- <-. simpl.
    repeat split; auto; try congruence; intros; discriminate.
  - destruct (may_setegid (mkCred ru eu su rg eg sg) gid);
      cbn -[may_seteuid may_setegid].
    2:{ intros H. injection H as <- <-. simpl.
        repeat split; auto; try congruence; intros; discriminate. }
    destruct (Z.eqb_spec uid 0) as [H0|H0]; cbn -[may_seteuid may_setegid].
    { intros H. injection H as <- <-. simpl.
      repeat split; auto; congruence. }
    destruct (Z.eqb_spec uid eu) as [H1|H1]; cbn -[may_seteuid may_setegid].
    { intros H. injection H as <- <-. simpl.
      repeat split; auto; congruence. }
    destruct (may_seteuid (mkCred ru eu su rg gid sg) uid);
      cbn -[may_seteuid may_setegid].
    { intros H. injection H as <- <-. simpl.
      repeat split; auto; congruence. }
    destruct (may_setegid (mkCred ru eu su rg gid sg) eg) eqn:Er; cbn.
    { intros H. injection H as <- <-. simpl.
      repeat split; auto; try congruence; intros; discriminate. }
    intros H. injection H as <- <-. simpl.
    repeat split; auto; try congruence; try (intros; discriminate).
    unfold may_setegid in Er. simpl in Er.
    intros [He|He]; subst eg; rewrite Z.eqb_refl in Er;
      rewrite ?orb_true_r in Er; simpl in Er; discriminate.
Qed.

Lemma priv_drop_facts uid gid w :
  let r := priv_drop uid gid w in
  let c := w_cred w in
  let c' := w_cred (snd r) in
  (fst r = 0 \/ fst r = -1)
  /\ (fst r = 0 ->
      c_egid c' = gid /\
      c_euid c' = (if uid =? 0 then c_euid c else uid))
  /\ (fst r <> 0 ->
      c_euid c' = c_euid c /\
      (c_egid c = c_rgid c \/ c_egid c = c_sgid c -> c' = c))
  /\ (c_ruid c' = c_ruid c /\ c_suid c' = c_suid c /\
      c_rgid c' = c_rgid c /\ c_sgid c' = c_sgid c)
  /\ (w_fdt (snd r) = w_fdt w /\ w_clock (snd r) = w_clock w /\
      w_fs (snd r) = w_fs w).
Proof.
  intros r c c'. subst c c'.
  destruct r as [rc w'] eqn:Er. cbn [fst snd].
  apply (priv_drop_run uid gid w rc w' Er).
Qed.

(** X6. [priv_drop] returns 0 or -1 and only ever changes the effective
    ids.  When it returns 0 the effective group is the requested one and
    the effective user is the requested one, except that a requested
    user 0 means that the user is left alone.  When it fails the
    effective user is the one of entry, and the effective group is back
    to the one of entry whenever that group is also the real or the
    saved group of the process. *)
Theorem priv_drop_outcome :
  forall (uid gid : Z) (w : World),
    let r := priv_drop uid gid w in
    let c := w_cred w in
    let c' := w_cred (snd r) in
    (fst r = 0 \/ fst r = -1)
    /\ (fst r = 0 ->
        c_egid c' = gid /\
        c_euid c' = (if uid =? 0 then c_euid c else uid))
    /\ (fst r <> 0 ->
        c_euid c' = c_euid c /\
        (c_egid c = c_rgid c \/ c_egid c = c_sgid c -> c' = c))
    /\ (c_ruid c' = c_ruid c /\ c_suid c' = c_suid c /\
        c_rgid c' = c_rgid c /\ c_sgid c' = c_sgid c)
    /\ (w_fdt (snd r) = w_fdt w /\ w_clock (snd r) = w_clock w /\
        w_fs (snd r) = w_fs w).
Proof. intros uid gid w. apply priv_drop_facts. Qed.

Lemma priv_drop_at_target uid gid w :
  c_egid (w_cred w) = gid ->
  uid = 0 \/ c_euid (w_cred w) = uid ->
  priv_drop uid gid w = (0, w).
Proof.
  intros Hg Hu. unfold priv_drop. unfold_cfun. unfold geteuid, getegid.
  simpl. rewrite <- Hg, Z.eqb_refl. simpl.
  assert (H : (uid =? 0) || (uid =? c_euid (w_cred w)) = true).
  { apply orb_true_iff. destruct Hu as [Hu|Hu];
      [ left | right ]; apply Z.eqb_eq; congruence. }
  rewrite H. reflexivity.
Qed.

(** X7. Dropping twice is dropping once: after a [priv_drop] that
    returned 0, a second [priv_drop] to the same ids returns 0 at once,
    without any system call and without changing the world. *)
Theorem priv_drop_is_idempotent :
  forall (uid gid : Z) (w w1 : World),
    priv_drop uid gid w = (0, w1) ->
    priv_drop uid gid w1 = (0, w1).
Proof.
  intros uid gid w w1 H.
  pose proof (priv_drop_facts uid gid w) as [_ [Hok _]].
  rewrite H in Hok. simpl in Hok. destruct (Hok eq_refl) as [Hg Hu].
  apply priv_drop_at_target; [ exact Hg | ].
  destruct (Z.eqb_spec uid 0); [ left; assumption | right; exact Hu ].
Qed.

Lemma priv_drop_is_idempotent_witness :
  exists w1,
    priv_drop 1000 1000 (sample_world (fun _ => file_v1) no_fault) = (0, w1)
    /\ priv_drop 1000 1000 w1 = (0, w1).
Proof.
  eexists. split; [ reflexivity | ].
  apply (priv_drop_is_idempotent 1000 1000
           (sample_world (fun _ => file_v1) no_fault)).
  reflexivity.
Defined.

(** ** filelock: what it locks and what it reports *)

(** The table entry and the result after [filelock] with a valid action
    on an open descriptor, where [flock] is available. *)
Lemma filelock_state fd lock_type action w o :
  fd_lookup fd (w_fdt w) = Some o ->
  valid_action action = true ->
  let ok_flock := uses_flock lock_type
                  && negb (w_fault w SysFlock (w_clock w)) in
  let ok_fcntl := uses_fcntl lock_type
                  && negb (w_fault w SysFcntl (w_clock w)) in
  fd_lookup fd (w_fdt (snd (filelock false fd lock_type action w)))
  = Some (mkOpenFile (of_inode o) (of_off o)
            (if ok_flock then flock_held action else of_flock o)
            (if ok_fcntl then fcntl_held action else of_fcntl o))
  /\ fst (filelock false fd lock_type action w)
     = (if (negb (uses_flock lock_type) || ok_flock)
           && (negb (uses_fcntl lock_type) || ok_fcntl)
        then 0 else -1).
Proof.
  intros Ho Hv. unfold valid_action in Hv.
  unfold filelock, uses_flock, uses_fcntl, flock_held, fcntl_held.
  unfold_cfun. unfold sys_flock, sys_fcntl_setlkw.
  destruct w as [c fs clk flt junk t tr]. simpl in *.
  destruct o as [ino off fl fc]. simpl.
  destruct (truthy (Z.land lock_type LCK_NOLOCK));
    destruct (truthy (Z.land lock_type LCK_FLOCK));
    destruct (truthy (Z.land lock_type LCK_FCNTL));
    destruct (action =? LCK_READ) eqn:E1;
    destruct (action =? LCK_WRITE) eqn:E2;
    destruct (action =? LCK_UNLOCK) eqn:E3;
    try discriminate Hv;
    simpl; rewrite ?Ho; simpl;
    destruct (flt SysFlock clk); simpl; rewrite ?Z.eqb_refl, ?Ho; simpl;
    destruct (flt SysFcntl clk); simpl; rewrite ?Z.eqb_refl, ?Ho; simpl;
    split; reflexivity.
Qed.

(** X8. On an open descriptor and with a valid action, where [flock] is
    available, [filelock] issues every primitive that lock_type asks for,
    whether or not the other one succeeded, and returns 0 exactly when
    every requested primitive succeeded.  Afterwards the descriptor
    holds, for each primitive that succeeded, the lock of the action
    (shared for read, exclusive for write, none for unlock); a primitive
    that failed or was not requested leaves its lock as it was.  So a
    call that returns -1 can have taken or released one of the two
    locks; the file offset is never moved. *)
Theorem filelock_takes_each_requested_lock :
  forall (fd lock_type action : Z) (w : World) (o : OpenFile),
    fd_lookup fd (w_fdt w) = Some o ->
    valid_action action = true ->
    let ok_flock := uses_flock lock_type
                    && negb (w_fault w SysFlock (w_clock w)) in
    let ok_fcntl := uses_fcntl lock_type
                    && negb (w_fault w SysFcntl (w_clock w)) in
    fd_lookup fd (w_fdt (snd (filelock false fd lock_type action w)))
    = Some (mkOpenFile (of_inode o) (of_off o)
              (if ok_flock then flock_held action else of_flock o)
              (if ok_fcntl then fcntl_held action else of_fcntl o))
    /\ (fst (filelock false fd lock_type action w) = 0 <->
        (uses_flock lock_type = true ->
         w_fault w SysFlock (w_clock w) = false) /\
        (uses_fcntl lock_type = true ->
         w_fault w SysFcntl (w_clock w) = false))
    /\ (fst (filelock false fd lock_type action w) = 0 \/
        fst (filelock false fd lock_type action w) = -1).
Proof.
  intros fd lock_type action w o Ho Hv ok_flock ok_fcntl.
  destruct (filelock_state fd lock_type action w o Ho Hv) as [Hs Hr].
  split; [ exact Hs | ].
  rewrite Hr. subst ok_flock ok_fcntl.
  destruct (uses_flock lock_type); destruct (uses_fcntl lock_type);
    destruct (w_fault w SysFlock (w_clock w));
    destruct (w_fault w SysFcntl (w_clock w)); simpl;
    intuition (try discriminate; try congruence).
Qed.

Lemma filelock_takes_each_requested_lock_witness :
  fd_lookup 3
    (w_fdt (snd (filelock false 3 6 LCK_READ
                   (mkWorld (mkCred 1000 1000 1000 1000 1000 1000)
                            (fun _ => None) 0%nat flock_fails Byte.x00
                            [(3, mkOpenFile (fun _ => file_v1) 0 None None)]
                            []))))
  = Some (mkOpenFile (fun _ => file_v1) 0 None (Some F_RDLCK)) /\
  fst (filelock false 3 6 LCK_READ
         (mkWorld (mkCred 1000 1000 1000 1000 1000 1000)
                  (fun _ => None) 0%nat flock_fails Byte.x00
                  [(3, mkOpenFile (fun _ => file_v1) 0 None None)] []))
  = -1.
Proof.
  pose proof (filelock_takes_each_requested_lock 3 6 LCK_READ
                (mkWorld (mkCred 1000 1000 1000 1000 1000 1000)
                         (fun _ => None) 0%nat flock_fails Byte.x00
                         [(3, mkOpenFile (fun _ => file_v1) 0 None None)] [])
                (mkOpenFile (fun _ => file_v1) 0 None None)
                eq_refl eq_refl) as [H1 [_ H3]].
  split; [ exact H1 | ].
  destruct H3 as [H3 | H3]; [ discriminate H3 | exact H3 ].
Defined.

Lemma filelock_keeps_faults sun fd lock_type action w o :
  fd_lookup fd (w_fdt w) = Some o ->
  w_fault (snd (filelock sun fd lock_type action w)) = w_fault w /\
  w_clock (snd (filelock sun fd lock_type action w)) = w_clock w.
Proof.
  intros Ho.
  destruct (filelock_frame sun fd lock_type action w o Ho)
    as [rc [t' [evs [E _]]]].
  rewrite E. split; reflexivity.
Qed.

(** X9. Lock, then unlock: on an open descriptor, where [flock] is
    available and neither primitive fails, a read or write lock followed
    by an unlock with the same lock_type both return 0, and afterwards
    the descriptor holds no lock of a kind that lock_type names, keeps
    the locks of the other kind as they were before, and is at the same
    offset of the same file. *)
Theorem filelock_lock_unlock_roundtrip :
  forall (fd lock_type action : Z) (w : World) (o : OpenFile),
    fd_lookup fd (w_fdt w) = Some o ->
    action = LCK_READ \/ action = LCK_WRITE ->
    w_fault w SysFlock (w_clock w) = false ->
    w_fault w SysFcntl (w_clock w) = false ->
    let w1 := snd (filelock false fd lock_type action w) in
    fst (filelock false fd lock_type action w) = 0 /\
    fst (filelock false fd lock_type LCK_UNLOCK w1) = 0 /\
    fd_lookup fd (w_fdt (snd (filelock false fd lock_type LCK_UNLOCK w1)))
    = Some (mkOpenFile (of_inode o) (of_off o)
              (if uses_flock lock_type then None else of_flock o)
              (if uses_fcntl lock_type then None else of_fcntl o)).
Proof.
  intros fd lock_type action w o Ho Ha Hf1 Hf2 w1.
  assert (Hv : valid_action action = true)
    by (destruct Ha as [-> | ->]; reflexivity).
  destruct (filelock_state fd lock_type action w o Ho Hv) as [Hs Hr].
  destruct (filelock_keeps_faults false fd lock_type action w o Ho)
    as [Hflt Hclk].
  fold w1 in Hs, Hflt, Hclk.
  rewrite Hf1, Hf2 in Hs, Hr. rewrite !andb_true_r in Hs, Hr.
  split.
  { rewrite Hr. destruct (uses_flock lock_type), (uses_fcntl lock_type);
      reflexivity. }
  destruct (filelock_state fd lock_type LCK_UNLOCK w1 _ Hs eq_refl)
    as [Hs2 Hr2].
  rewrite Hflt, Hclk, Hf1, Hf2 in Hs2, Hr2.
  rewrite !andb_true_r in Hs2, Hr2.
  split.
  { rewrite Hr2. destruct (uses_flock lock_type), (uses_fcntl lock_type);
      reflexivity. }
  rewrite Hs2. cbn [of_inode of_off of_flock of_fcntl].
  destruct (uses_flock lock_type), (uses_fcntl lock_type); reflexivity.
Qed.

Lemma filelock_lock_unlock_roundtrip_witness :
  fd_lookup 3
    (w_fdt (snd (filelock false 3 LCK_FCNTL LCK_UNLOCK
                   (snd (filelock false 3 LCK_FCNTL LCK_WRITE
                           (mkWorld (mkCred 1000 1000 1000 1000 1000 1000)
                              (fun _ => None) 0%nat no_fault Byte.x00
                              [(3, mkOpenFile (fun _ => file_v1) 2
                                              (Some LOCK_SH) None)] []))))))
  = Some (mkOpenFile (fun _ => file_v1) 2 (Some LOCK_SH) None).
Proof.
  exact (proj2 (proj2 (filelock_lock_unlock_roundtrip 3 LCK_FCNTL LCK_WRITE
                         (mkWorld (mkCred 1000 1000 1000 1000 1000 1000)
                            (fun _ => None) 0%nat no_fault Byte.x00
                            [(3, mkOpenFile (fun _ => file_v1) 2
                                            (Some LOCK_SH) None)] [])
                         (mkOpenFile (fun _ => file_v1) 2 (Some LOCK_SH) None)
                         eq_refl (or_intror eq_refl) eq_refl eq_refl))).
Defined.

(** X10. Where [filelock] answers without a system call, for any
    descriptor and leaving the world as it was: (a) on a build with
    [__sun] defined a lock_type that asks for [flock] is refused with -1
    for every action, unlocking included; (b) an action other than read,
    write and unlock is refused with -1 as soon as lock_type asks for a
    primitive; (c) a lock_type that asks for no primitive at all (none
    of the three bits, or the no-lock bit) is accepted with 0 for every
    action, although nothing is locked. *)
Theorem filelock_answers_without_a_call :
  forall (sun : bool) (fd lock_type action : Z) (w : World),
    (sun = true -> uses_flock lock_type = true ->
     filelock sun fd lock_type action w = (-1, w))
    /\ (valid_action action = false ->
        uses_flock lock_type = true \/ uses_fcntl lock_type = true ->
        filelock sun fd lock_type action w = (-1, w))
    /\ (uses_flock lock_type = false -> uses_fcntl lock_type = false ->
        filelock sun fd lock_type action w = (0, w)).
Proof.
  intros sun fd lock_type action w.
  unfold uses_flock, uses_fcntl, valid_action, filelock. unfold_cfun.
  destruct (truthy (Z.land lock_type LCK_NOLOCK));
    destruct (truthy (Z.land lock_type LCK_FLOCK));
    destruct (truthy (Z.land lock_type LCK_FCNTL));
    destruct sun;
    destruct (action =? LCK_READ);
    destruct (action =? LCK_WRITE);
    destruct (action =? LCK_UNLOCK); simpl;
    (split; [ | split ]); intros; try reflexivity; try discriminate;
    match goal with
    | H : _ \/ _ |- _ => destruct H; discriminate
    end.
Qed.

Lemma filelock_answers_without_a_call_witness :
  filelock true 3 LCK_FLOCK LCK_UNLOCK
    (sample_world (fun _ => file_v1) no_fault)
  = (-1, sample_world (fun _ => file_v1) no_fault) /\
  filelock false 3 LCK_FCNTL 3 (sample_world (fun _ => file_v1) no_fault)
  = (-1, sample_world (fun _ => file_v1) no_fault) /\
  filelock false 3 0 LCK_WRITE (sample_world (fun _ => file_v1) no_fault)
  = (0, sample_world (fun _ => file_v1) no_fault).
Proof.
  split; [ | split ].
  - exact (proj1 (filelock_answers_without_a_call true 3 LCK_FLOCK LCK_UNLOCK
                    (sample_world (fun _ => file_v1) no_fault))
                 eq_refl eq_refl).
  - exact (proj1 (proj2 (filelock_answers_without_a_call false 3 LCK_FCNTL 3
                           (sample_world (fun _ => file_v1) no_fault)))
                 eq_refl (or_intror eq_refl)).
  - exact (proj2 (proj2 (filelock_answers_without_a_call false 3 0 LCK_WRITE
                           (sample_world (fun _ => file_v1) no_fault)))
                 eq_refl eq_refl).
Defined.

(** ** pem_string_to_x509_chain on every path *)

Section ParseProps.

Variable PEM_X509_INFO_read_bio : string -> option (list X509_INFO).

Local Abbreviation parse := (pem_string_to_x509_chain PEM_X509_INFO_read_bio).

(** The function with both pointers set, as one expression. *)
Lemma parse_closed old str w :
  parse (Some old) (Some str) w =
  if w_fault w SysStackNew (w_clock w) || w_fault w SysBioNew (w_clock w)
  then ((-1, Some old),
        emit (EvLog LOG_ERR "pem_string_to_x509_chain: out of memory") w)
  else match PEM_X509_INFO_read_bio str with
       | None => ((1, Some old), w)
       | Some sk =>
           match certs_of sk with
           | [] => ((1, Some old), w)
           | c :: cs => ((0, Some (Some (c :: cs))), w)
           end
       end.
Proof.
  unfold pem_string_to_x509_chain, sk_X509_new_null, BIO_new_mem_buf.
  unfold_cfun.
  destruct (w_fault w SysStackNew (w_clock w)); [ reflexivity | ].
  destruct (w_fault w SysBioNew (w_clock w)); [ reflexivity | ].
  cbn [orb]. destruct (PEM_X509_INFO_read_bio str) as [sk|]; [ | reflexivity ].
  rewrite convert_loop_appends. cbn [app].
  destruct (certs_of sk); reflexivity.
Qed.

Lemma parse_null cs str w :
  cs = None \/ str = None ->
  parse cs str w =
  ((-1, cs),
   emit (EvLog LOG_ERR
           "pem_string_to_x509_chain: certstack and/or certstring is NULL") w).
Proof.
  intros [-> | ->]; unfold pem_string_to_x509_chain; unfold_cfun;
    [ reflexivity | destruct cs; reflexivity ].
Qed.

(** What a parse leaves behind: at most one log line. *)
Lemma parse_world cs str w :
  snd (parse cs str w) = w \/
  exists msg, snd (parse cs str w) = emit (EvLog LOG_ERR msg) w.
Proof.
  destruct cs as [old|]; [ destruct str as [s|] | ].
  - rewrite parse_closed.
    destruct (_ || _); [ right; eexists; reflexivity | ].
    destruct (PEM_X509_INFO_read_bio s) as [sk|]; [ | left; reflexivity ].
    destruct (certs_of sk); left; reflexivity.
  - rewrite parse_null by (right; reflexivity). right; eexists; reflexivity.
  - rewrite parse_null by (left; reflexivity). right; eexists; reflexivity.
Qed.

(** X11. [pem_string_to_x509_chain] returns 0, 1 or -1, and only a
    return of 0 writes through the destination: on every failure the
    caller's stack pointer holds what it held before.  The result is -1
    exactly when a pointer argument is NULL or an allocation fails, and 1
    (not the -1 of the function's comment) exactly when the text is
    rejected by the PEM reader or holds no certificate.  The function
    makes no system call. *)
Theorem parse_failure_leaves_destination :
  forall (cs : option (option (list X509))) (str : option string) (w : World),
    let r := parse cs str w in
    (fst (fst r) = 0 \/ fst (fst r) = 1 \/ fst (fst r) = -1)
    /\ (fst (fst r) <> 0 -> snd (fst r) = cs)
    /\ (fst (fst r) = -1 <->
        cs = None \/ str = None \/
        w_fault w SysStackNew (w_clock w) = true \/
        w_fault w SysBioNew (w_clock w) = true)
    /\ (fst (fst r) = 1 <->
        exists old s,
          cs = Some old /\ str = Some s /\
          w_fault w SysStackNew (w_clock w) = false /\
          w_fault w SysBioNew (w_clock w) = false /\
          (PEM_X509_INFO_read_bio s = None \/
           exists sk, PEM_X509_INFO_read_bio s = Some sk /\ certs_of sk = []))
    /\ (w_fdt (snd r) = w_fdt w /\ w_cred (snd r) = w_cred w /\
        w_clock (snd r) = w_clock w /\
        filter (fun e => negb (match e with EvLog _ _ => true | _ => false end))
               (w_trace (snd r))
        = filter (fun e => negb (match e with EvLog _ _ => true | _ => false end))
                 (w_trace w)).
Proof.
  intros cs str w r.
  assert (Hw : w_fdt (snd r) = w_fdt w /\ w_cred (snd r) = w_cred w /\
               w_clock (snd r) = w_clock w /\
               filter (fun e => negb (match e with EvLog _ _ => true | _ => false end))
                      (w_trace (snd r))
               = filter (fun e => negb (match e with EvLog _ _ => true | _ => false end))
                        (w_trace w)).
  { destruct (parse_world cs str w) as [E | [msg E]]; fold r in E;
      rewrite E; repeat split; reflexivity. }
  subst r.
  destruct cs as [old|]; [ destruct str as [s|] | ].
  - rewrite parse_closed in *.
    destruct (w_fault w SysStackNew (w_clock w)) eqn:F1;
      [ | destruct (w_fault w SysBioNew (w_clock w)) eqn:F2 ]; cbn [orb fst snd].
    + split; [ auto | ]. split; [ reflexivity | ].
      split; [ split; auto | ].
      split; [ | exact Hw ].
      split; [ discriminate | ].
      intros [o [s' [_ [_ [H _]]]]]. discriminate.
    + split; [ auto | ]. split; [ reflexivity | ].
      split; [ split; auto | ].
      split; [ | exact Hw ].
      split; [ discriminate | ].
      intros [o [s' [_ [_ [_ [H _]]]]]]. discriminate.
    + destruct (PEM_X509_INFO_read_bio s) as [sk|] eqn:Er;
        [ destruct (certs_of sk) as [|c l] eqn:Ec | ]; cbn [fst snd].
      * split; [ auto | ]. split; [ reflexivity | ].
        split; [ split; [ discriminate | ] | ].
        { intros [H | [H | [H | H]]]; discriminate. }
        split; [ | exact Hw ].
        split; [ intros _ | reflexivity ].
        exists old, s. repeat split; auto. right. exists sk. auto.
      * split; [ auto | ]. split; [ intros H; contradiction | ].
        split; [ split; [ discriminate | ] | ].
        { intros [H | [H | [H | H]]]; discriminate. }
        split; [ | exact Hw ].
        split; [ discriminate | ].
        intros [o [s' [_ [Hs [_ [_ [H | [sk' [H1 H2]]]]]]]]];
          injection Hs as <-; rewrite Er in *; [ discriminate | ].
        injection H1 as <-. rewrite Ec in H2. discriminate.
      * split; [ auto | ]. split; [ reflexivity | ].
        split; [ split; [ discriminate | ] | ].
        { intros [H | [H | [H | H]]]; discriminate. }
        split; [ | exact Hw ].
        split; [ intros _ | reflexivity ].
        exists old, s. repeat split; auto.
  - rewrite parse_null in * by (right; reflexivity). cbn [fst snd].
    split; [ auto | ]. split; [ reflexivity | ].
    split; [ split; auto | ].
    split; [ | exact Hw ].
    split; [ discriminate | ].
    intros [o [s' [_ [H _]]]]. discriminate.
  - rewrite parse_null in * by (left; reflexivity). cbn [fst snd].
    split; [ auto | ]. split; [ reflexivity | ].
    split; [ split; auto | ].
    split; [ | exact Hw ].
    split; [ discriminate | ].
    intros [o [s' [H _]]]. discriminate.
Qed.

(** ** psp_get_payload_proxy and psp_cleanup_chains *)

Local Abbreviation get_payload :=
  (psp_get_payload_proxy PEM_X509_INFO_read_bio).

(** The function as one expression over its two lookups. *)
Lemma get_payload_closed flag cs argc argv w :
  get_payload flag cs argc argv w =
  match chain_value (lcmaps_getArgValue "px509_chain" "STACK_OF(X509) *"
                       argc argv) with
  | Some chain => ((0, (Some chain, flag)), w)
  | None =>
      let w1 :=
        emit (EvLog LOG_DEBUG
                "psp_get_payload_proxy: no X.509 chain is set, trying pem string.")
             w in
      match pem_value (lcmaps_getArgValue "pem_string" "char *" argc argv) with
      | None =>
          ((-1, (cs, flag)),
           emit (EvLog LOG_WARNING
                   "psp_get_payload_proxy: no chain or pemstring is set.") w1)
      | Some pem =>
          let p := parse (Some None) (Some pem) w1 in
          if truthy (fst (fst p)) then
            ((-1, (cs, flag)),
             emit (EvLog LOG_WARNING
                     "psp_get_payload_proxy: cannot convert pemstring to chain.")
                  (snd p))
          else
            ((0, (match snd (fst p) with Some c => c | None => None end, 1)),
             snd p)
      end
  end.
Proof.
  unfold psp_get_payload_proxy. unfold_cfun.
  destruct (chain_value _); [ reflexivity | ].
  destruct (pem_value _) as [pem|]; [ | reflexivity ].
  cbv zeta.
  destruct (parse (Some None) (Some pem) _) as [[rc out] w2].
  cbn [fst snd]. destruct (truthy rc); reflexivity.
Qed.

(** X12. [psp_get_payload_proxy] returns 0 or -1.  A chain that the
    framework passes is handed out as it is (even an empty one), the PEM
    text is then not looked at and the ownership flag
    [payload_chain_needs_cleaning] keeps its value.  Without such a
    chain, success means that the PEM text was parsed: the chain handed
    out is the non-empty list of its certificates in source order and the
    flag is set to 1.  On failure the caller's stack pointer and the
    flag are as on entry.  No run ever clears the flag. *)
Theorem payload_proxy_outcome :
  forall (flag : Z) (cs : option (list X509)) (argc : Z)
         (argv : list lcmaps_argument_t) (w : World),
    let r := get_payload flag cs argc argv w in
    let from_framework :=
      chain_value (lcmaps_getArgValue "px509_chain" "STACK_OF(X509) *"
                     argc argv) in
    (fst (fst r) = 0 \/ fst (fst r) = -1)
    /\ (forall chain, from_framework = Some chain ->
                      r = ((0, (Some chain, flag)), w))
    /\ (from_framework = None -> fst (fst r) = 0 ->
        exists pem infos,
          pem_value (lcmaps_getArgValue "pem_string" "char *" argc argv)
          = Some pem /\
          PEM_X509_INFO_read_bio pem = Some infos /\
          certs_of infos <> [] /\
          snd (fst r) = (Some (certs_of infos), 1))
    /\ (fst (fst r) <> 0 -> snd (fst r) = (cs, flag))
    /\ (flag <> 0 -> snd (snd (fst r)) <> 0).
Proof.
  intros flag cs argc argv w r from_framework. subst r from_framework.
  rewrite get_payload_closed.
  destruct (chain_value _) as [chain|].
  { cbn [fst snd]. split; [ auto | ].
    split; [ intros c H; injection H as <-; reflexivity | ].
    split; [ discriminate | ].
    split; [ intros H; contradiction | auto ]. }
  destruct (pem_value _) as [pem|].
  2:{ cbn [fst snd]. split; [ auto | ].
      split; [ discriminate | ].
      split; [ intros _ H; discriminate | ].
      split; [ reflexivity | auto ]. }
  cbv zeta. rewrite parse_closed.
  destruct (_ || _); cbn [fst snd].
  { change (truthy (-1)) with true. cbv iota. cbn [fst snd].
    split; [ auto | ]. split; [ discriminate | ].
    split; [ intros _ H; discriminate | ].
    split; [ reflexivity | auto ]. }
  destruct (PEM_X509_INFO_read_bio pem) as [infos|] eqn:Er;
    [ destruct (certs_of infos) as [|c l] eqn:Ec | ]; cbn [fst snd].
  - change (truthy 1) with true. cbv iota. cbn [fst snd].
    split; [ auto | ]. split; [ discriminate | ].
    split; [ intros _ H; discriminate | ].
    split; [ reflexivity | auto ].
  - rewrite truthy_0. cbn [fst snd].
    split; [ auto | ]. split; [ discriminate | ].
    split.
    { intros _ _. exists pem, infos.
      split; [ reflexivity | ]. split; [ exact Er | ].
      split; [ rewrite Ec; discriminate | rewrite Ec; reflexivity ]. }
    split; [ intros H; contradiction | intros _; discriminate ].
  - change (truthy 1) with true. cbv iota. cbn [fst snd].
    split; [ auto | ]. split; [ discriminate | ].
    split; [ intros _ H; discriminate | ].
    split; [ reflexivity | auto ].
Qed.

Lemma cleanup_closed flag pilot payload w :
  fst (psp_cleanup_chains flag pilot payload w) =
  match pilot with Some sk => [sk] | None => [] end
  ++ match payload with
     | Some sk => if truthy flag then [sk] else []
     | None => []
     end.
Proof.
  unfold psp_cleanup_chains, sk_X509_pop_free. unfold_cfun.
  destruct pilot as [p|], payload as [q|]; cbn [fst snd];
    try destruct (truthy flag); reflexivity.
Qed.

(** X13. Who frees the payload chain.  After a successful
    [psp_get_payload_proxy], [psp_cleanup_chains] called with the flag
    and the chain it returned frees the pilot chain when there is one,
    and frees the payload chain exactly when that chain was parsed from
    PEM text by this call or the flag was already set on entry.  So with
    the flag at its initial 0 a chain borrowed from the framework is left
    to the framework; once an earlier call has set the flag, a borrowed
    chain is freed as well. *)
Theorem cleanup_frees_owned_payload :
  forall (flag : Z) (cs pilot : option (list X509)) (argc : Z)
         (argv : list lcmaps_argument_t) (w : World),
    let r := get_payload flag cs argc argv w in
    fst (fst r) = 0 ->
    exists chain,
      fst (snd (fst r)) = Some chain /\
      fst (psp_cleanup_chains (snd (snd (fst r))) pilot (fst (snd (fst r)))
             (snd r))
      = match pilot with Some sk => [sk] | None => [] end
        ++ match chain_value (lcmaps_getArgValue "px509_chain"
                                "STACK_OF(X509) *" argc argv) with
           | Some _ => if truthy flag then [chain] else []
           | None => [chain]
           end.
Proof.
  intros flag cs pilot argc argv w r. subst r.
  rewrite cleanup_closed. rewrite get_payload_closed.
  destruct (chain_value _) as [chain|].
  { cbn [fst snd]. intros _. exists chain. split; reflexivity. }
  destruct (pem_value _) as [pem|]; [ | intros H; discriminate H ].
  cbv zeta. rewrite parse_closed.
  destruct (_ || _); cbn [fst snd].
  { change (truthy (-1)) with true. cbv iota. intros H; discriminate H. }
  destruct (PEM_X509_INFO_read_bio pem) as [infos|];
    [ destruct (certs_of infos) as [|c l] | ]; cbn [fst snd];
    try (change (truthy 1) with true; cbv iota; intros H; discriminate H).
  rewrite truthy_0. cbn [fst snd]. intros _.
  exists (c :: l). split; reflexivity.
Qed.

End ParseProps.

(** ** pem_string_to_x509_chain on PEM text *)

Lemma certs_of_app a b : certs_of (a ++ b) = certs_of a ++ certs_of b.
Proof.
  induction a as [|xi a IH]; simpl; [ reflexivity | ].
  destruct (xi_x509 xi); rewrite IH; reflexivity.
Qed.

Lemma certs_of_slots xi :
  certs_of [slots_info xi]
  = match s_x509 xi with Some c => [c] | None => [] end.
Proof. unfold slots_info. simpl. destruct (s_x509 xi); reflexivity. Qed.

Section PemTextProps.

Variable PEM_read_bio_all : string -> option (list PemBlock).
Variable d2i_X509 : PemBlock -> option X509.
Variable d2i_X509_CRL : PemBlock -> bool.
Variable d2i_PrivateKey : PemBlock -> bool.

Local Abbreviation loop := (info_loop d2i_X509 d2i_X509_CRL d2i_PrivateKey).
Local Abbreviation reader :=
  (openssl_PEM_X509_INFO_read_bio PEM_read_bio_all d2i_X509 d2i_X509_CRL
     d2i_PrivateKey).
Local Abbreviation decodes :=
  (block_decodes d2i_X509 d2i_X509_CRL d2i_PrivateKey).
Local Abbreviation text_certs := (block_certs d2i_X509).
Local Abbreviation parse_text := (pem_string_to_x509_chain reader).

(** When every block of a known kind decodes, the reader returns
    entries that hold the certificates of the text in source order. *)
Lemma info_loop_certs blocks : forall xi ret,
  forallb decodes blocks = true ->
  exists infos,
    loop blocks xi ret = Some infos /\
    certs_of infos
    = certs_of ret
      ++ match s_x509 xi with Some c => [c] | None => [] end
      ++ text_certs blocks.
Proof.
  induction blocks as [|b rest IH]; intros xi ret Hall.
  - cbn [info_loop]. eexists. split; [ reflexivity | ].
    unfold block_certs. cbn [flat_map]. rewrite app_nil_r.
    unfold slots_used.
    destruct (s_x509 xi) as [c|] eqn:Ex; cbn [has_cert orb].
    + rewrite certs_of_app, certs_of_slots, Ex. reflexivity.
    + destruct (s_crl xi || s_pkey xi).
      * rewrite certs_of_app, certs_of_slots, Ex. reflexivity.
      * rewrite app_nil_r. reflexivity.
  - cbn [forallb] in Hall. apply andb_true_iff in Hall.
    destruct Hall as [Hb Hrest]. unfold block_decodes in Hb.
    cbn [info_loop]. unfold block_certs. cbn [flat_map].
    fold (block_certs d2i_X509 rest).
    destruct (is_cert_name (pb_name b)).
    + destruct (d2i_X509 b) as [c|]; [ | discriminate Hb ].
      destruct (s_x509 xi) as [c0|] eqn:Ex; cbn [has_cert].
      * destruct (IH (mkSlots (Some c) (s_crl empty_slots)
                              (s_pkey empty_slots))
                     (ret ++ [slots_info xi]) Hrest) as [infos [E Hc]].
        exists infos. split; [ exact E | ].
        rewrite Hc, certs_of_app, certs_of_slots, Ex. cbn [s_x509].
        rewrite <- !app_assoc. reflexivity.
      * destruct (IH (mkSlots (Some c) (s_crl xi) (s_pkey xi)) ret Hrest)
          as [infos [E Hc]].
        exists infos. split; [ exact E | ].
        rewrite Hc. reflexivity.
    + destruct (is_crl_name (pb_name b)).
      * rewrite Hb.
        destruct (s_crl xi).
        -- destruct (IH (mkSlots (s_x509 empty_slots) true
                                 (s_pkey empty_slots))
                        (ret ++ [slots_info xi]) Hrest) as [infos [E Hc]].
           exists infos. split; [ exact E | ].
           rewrite Hc, certs_of_app, certs_of_slots. cbn [s_x509 empty_slots].
           rewrite <- !app_assoc. reflexivity.
        -- destruct (IH (mkSlots (s_x509 xi) true (s_pkey xi)) ret Hrest)
             as [infos [E Hc]].
           exists infos. split; [ exact E | ].
           rewrite Hc. reflexivity.
      * destruct (is_key_name (pb_name b)).
        -- rewrite Hb.
           destruct (s_pkey xi).
           ++ destruct (IH (mkSlots (s_x509 empty_slots)
                                    (s_crl empty_slots) true)
                           (ret ++ [slots_info xi]) Hrest)
                as [infos [E Hc]].
              exists infos. split; [ exact E | ].
              rewrite Hc, certs_of_app, certs_of_slots.
              cbn [s_x509 empty_slots].
              rewrite <- !app_assoc. reflexivity.
           ++ destruct (IH (mkSlots (s_x509 xi) (s_crl xi) true) ret Hrest)
                as [infos [E Hc]].
              exists infos. split; [ exact E | ].
              rewrite Hc. reflexivity.
        -- destruct (IH xi ret Hrest) as [infos [E Hc]].
           exists infos. split; [ exact E | exact Hc ].
Qed.

(** One block of a known kind that does not decode, anywhere in the
    text, and the reader returns NULL. *)
Lemma info_loop_gives_up blocks : forall xi ret,
  forallb decodes blocks = false -> loop blocks xi ret = None.
Proof.
  induction blocks as [|b rest IH]; intros xi ret Hbad;
    [ discriminate Hbad | ].
  cbn [forallb] in Hbad. apply andb_false_iff in Hbad.
  cbn [info_loop].
  destruct Hbad as [Hb | Hr].
  - unfold block_decodes in Hb.
    destruct (is_cert_name (pb_name b)).
    { destruct (d2i_X509 b) as [c|]; [ discriminate Hb | ].
      destruct (has_cert (s_x509 xi)); reflexivity. }
    destruct (is_crl_name (pb_name b)).
    { rewrite Hb. destruct (s_crl xi); reflexivity. }
    destruct (is_key_name (pb_name b)); [ | discriminate Hb ].
    rewrite Hb. destruct (s_pkey xi); reflexivity.
  - destruct (is_cert_name (pb_name b)).
    { destruct (d2i_X509 b) as [c|];
        destruct (has_cert (s_x509 xi)); try reflexivity; apply IH; exact Hr. }
    destruct (is_crl_name (pb_name b)).
    { destruct (d2i_X509_CRL b);
        destruct (s_crl xi); try reflexivity; apply IH; exact Hr. }
    destruct (is_key_name (pb_name b)).
    { destruct (d2i_PrivateKey b);
        destruct (s_pkey xi); try reflexivity; apply IH; exact Hr. }
    apply IH. exact Hr.
Qed.

Lemma text_certs_count blocks :
  forallb decodes blocks = true ->
  length (text_certs blocks)
  = length (filter (fun b => is_cert_name (pb_name b)) blocks).
Proof.
  induction blocks as [|b rest IH]; intros Hall; [ reflexivity | ].
  cbn [forallb] in Hall. apply andb_true_iff in Hall.
  destruct Hall as [Hb Hrest]. unfold block_decodes in Hb.
  unfold block_certs. cbn [flat_map filter].
  fold (block_certs d2i_X509 rest).
  destruct (is_cert_name (pb_name b)).
  - destruct (d2i_X509 b); [ | discriminate Hb ].
    cbn [app length]. rewrite (IH Hrest). reflexivity.
  - cbn [app]. apply IH. exact Hrest.
Qed.


End PemTextProps.



Lemma cleanup_frees_owned_payload_witness :
  fst (psp_cleanup_chains
         (snd (snd (fst (psp_get_payload_proxy sample_pem_reader 0 None 1
                           pem_only_args
                           (sample_world (fun _ => file_v1) no_fault)))))
         None
         (fst (snd (fst (psp_get_payload_proxy sample_pem_reader 0 None 1
                           pem_only_args
                           (sample_world (fun _ => file_v1) no_fault)))))
         (snd (psp_get_payload_proxy sample_pem_reader 0 None 1 pem_only_args
                 (sample_world (fun _ => file_v1) no_fault))))
  = [[sample_cert 1; sample_cert 2]] /\
  fst (psp_cleanup_chains
         (snd (snd (fst (psp_get_payload_proxy sample_pem_reader 1 None 1
                           [mkArg "px509_chain" "STACK_OF(X509) *"
                                  (Some (ArgChain (Some [sample_cert 3])))]
                           (sample_world (fun _ => file_v1) no_fault)))))
         None
         (fst (snd (fst (psp_get_payload_proxy sample_pem_reader 1 None 1
                           [mkArg "px509_chain" "STACK_OF(X509) *"
                                  (Some (ArgChain (Some [sample_cert 3])))]
                           (sample_world (fun _ => file_v1) no_fault)))))
         (snd (psp_get_payload_proxy sample_pem_reader 1 None 1
                 [mkArg "px509_chain" "STACK_OF(X509) *"
                        (Some (ArgChain (Some [sample_cert 3])))]
                 (sample_world (fun _ => file_v1) no_fault))))
  = [[sample_cert 3]].
Proof.
  split.
  - destruct (cleanup_frees_owned_payload sample_pem_reader 0 None None 1
                pem_only_args (sample_world (fun _ => file_v1) no_fault)
                eq_refl) as [chain [Hc Hf]].
    rewrite Hf. injection Hc as <-. reflexivity.
  - destruct (cleanup_frees_owned_payload sample_pem_reader 1 None None 1
                [mkArg "px509_chain" "STACK_OF(X509) *"
                       (Some (ArgChain (Some [sample_cert 3])))]
                (sample_world (fun _ => file_v1) no_fault)
                eq_refl) as [chain [Hc Hf]].
    rewrite Hf. injection Hc as <-. reflexivity.
Defined.

(** ** psp_store_proxy_dn *)

Lemma published_emit_log lvl msg w :
  published (emit (EvLog lvl msg) w) = published w.
Proof.
  unfold published. cbn [emit w_trace rev]. rewrite flat_map_app.
  cbn [flat_map cred_of app]. apply app_nil_r.
Qed.

(** X14. [psp_store_proxy_dn] returns 0 or -1.  When the certificate has
    no subject name, or the one-line text of the name cannot be
    allocated, it returns -1 without calling the framework.  Otherwise it
    calls addCredentialData exactly once, with the kind DN and the
    one-line subject, and returns what that call returned: 0 with the
    subject published as the only new credential, or -1 with nothing
    published. *)
Theorem store_proxy_dn_outcome :
  forall (payload : X509) (w : World),
    let r := psp_store_proxy_dn payload w in
    (fst r = 0 \/ fst r = -1)
    /\ (x_subject payload = None \/
        w_fault w SysMalloc (w_clock w) = true ->
        fst r = -1 /\ published (snd r) = published w /\
        filter is_add_cred (w_trace (snd r)) = filter is_add_cred (w_trace w))
    /\ (forall dn,
           x_subject payload = Some dn ->
           w_fault w SysMalloc (w_clock w) = false ->
           let refused := w_fault w SysAddCred (w_clock w) in
           fst r = (if refused then -1 else 0) /\
           published (snd r)
           = published w ++ (if refused then [] else [("DN", dn)]) /\
           filter is_add_cred (w_trace (snd r))
           = EvAddCred "DN" dn (if refused then -1 else 0)
             :: filter is_add_cred (w_trace w)).
Proof.
  intros payload w r. subst r.
  unfold psp_store_proxy_dn, X509_NAME_oneline, addCredentialData, free.
  unfold_cfun.
  destruct (x_subject payload) as [dn|].
  2:{ cbn [fst snd]. split; [ auto | ].
      split; [ intros _ | intros dn H; discriminate H ].
      split; [ reflexivity | ]. split; [ apply published_emit_log | ].
      reflexivity. }
  destruct (w_fault w SysMalloc (w_clock w)).
  { cbn [fst snd]. split; [ auto | ].
    split; [ intros _ | intros dn' _ H; discriminate H ].
    split; [ reflexivity | ]. split; [ apply published_emit_log | ].
    reflexivity. }
  destruct (w_fault w SysAddCred (w_clock w)); cbn [fst snd].
  - change (-1 =? 0) with false. cbv iota. cbn [fst snd].
    split; [ auto | ].
    split; [ intros [H | H]; discriminate H | ].
    intros dn' H _. injection H as <-.
    split; [ reflexivity | ].
    split; [ | reflexivity ].
    unfold published. cbn [emit w_trace rev].
    rewrite <- !app_assoc, flat_map_app. cbn [flat_map cred_of app].
    change (-1 =? 0) with false. cbv iota. reflexivity.
  - change (0 =? 0) with true. cbv iota. cbn [fst snd].
    split; [ auto | ].
    split; [ intros [H | H]; discriminate H | ].
    intros dn' H _. injection H as <-.
    split; [ reflexivity | ].
    split; [ | reflexivity ].
    unfold published. cbn [emit w_trace rev].
    rewrite <- !app_assoc, flat_map_app. cbn [flat_map cred_of app].
    change (0 =? 0) with true. cbv iota. reflexivity.
Qed.

Lemma store_proxy_dn_outcome_witness :
  fst (psp_store_proxy_dn (mkX509 9 None [])
         (sample_world (fun _ => file_v1) no_fault)) = -1 /\
  published (snd (psp_store_proxy_dn (sample_cert 1)
                    (sample_world (fun _ => file_v1) no_fault)))
  = [("DN", "/CN=sample")].
Proof.
  split.
  - exact (proj1 (proj1 (proj2 (store_proxy_dn_outcome (mkX509 9 None [])
                                  (sample_world (fun _ => file_v1) no_fault)))
                        (or_introl eq_refl))).
  - exact (proj1 (proj2 (proj2 (proj2 (store_proxy_dn_outcome (sample_cert 1)
                                  (sample_world (fun _ => file_v1) no_fault)))
                        "/CN=sample" eq_refl eq_refl))).
Defined.

(** ** read_proxy: the steps before the retry loop *)

Lemma close_and_raise_frame fd euid egid rc w :
  exists c evs,
    close_and_raise fd euid egid rc w
    = ((rc, None), upd 0 c (fd_remove fd (w_fdt w)) evs w)
    /\ filter is_read evs = [].
Proof.
  unfold close_and_raise.
  destruct (sys_close_closed fd w) as [x Ec]. rewrite Ec.
  match goal with
  | |- context [raise_priv _ _ ?W] =>
      destruct (raise_priv_frame euid egid W) as [r [c [evs [Er Hn]]]]
  end.
  rewrite Er. autorewrite with upd_simpl in *.
  exists c, (evs ++ [EvClose fd]). split; [ reflexivity | ].
  rewrite filter_app, Hn. reflexivity.
Qed.

Lemma lock_granted_upd sun lock_type c t evs w :
  lock_granted sun lock_type (upd 0 c t evs w) = lock_granted sun lock_type w.
Proof. reflexivity. Qed.

Lemma read_proxy_from_open_fails sun path lock_type uid euid egid w :
  w_fs w path = None \/ w_fault w SysOpen (w_clock w) = true ->
  exists k c t evs,
    read_proxy_from sun path lock_type uid euid egid w
    = ((-1, None), upd k c t evs w)
    /\ filter is_read evs = [].
Proof.
  intros Hbad. unfold read_proxy_from.
  destruct (sys_open_closed path w) as [[h [Hfs [Hflt _]]] | [_ Eo]].
  { destruct Hbad; congruence. }
  rewrite Eo; clear Eo. change (-1 =? -1) with true. cbv beta iota zeta.
  match goal with
  | |- context [raise_priv _ _ ?W] =>
      destruct (raise_priv_frame euid egid W) as [r [c [evs [Er Hn]]]]
  end.
  rewrite Er. norm_upd.
  eexists; eexists; eexists; eexists.
  split; [ reflexivity | ]. count_reads. reflexivity.
Qed.

Lemma read_proxy_from_lock_fails sun path lock_type uid euid egid w h :
  opens path h w -> lock_granted sun lock_type w = false ->
  exists k c t evs,
    read_proxy_from sun path lock_type uid euid egid w
    = ((-6, None), upd k c t evs w)
    /\ filter is_read evs = [].
Proof.
  intros [Hfs Hflt] Hlock. unfold read_proxy_from.
  destruct (sys_open_closed path w) as [[h' [Hfs' [_ Eo]]] | [Hbad _]].
  2:{ destruct Hbad as [Hbad | Hbad]; congruence. }
  rewrite Eo; clear Eo.
  remember (fd_fresh (w_fdt w)) as fd eqn:Efd.
  remember (mkOpenFile h' 0 None None) as o0 eqn:Eo0.
  assert (Hfd : (fd =? -1) = false).
  { apply Z.eqb_neq. pose proof (fd_fresh_ge3 (w_fdt w)). lia. }
  rewrite Hfd. cbv beta iota zeta.
  match goal with
  | |- context [filelock sun fd lock_type LCK_READ ?W] =>
      pose proof (lock_granted_iff sun fd lock_type W o0
                    (fd_lookup_store fd o0 (w_fdt w))) as Hiff;
      destruct (filelock_frame sun fd lock_type LCK_READ W o0
                  (fd_lookup_store fd o0 (w_fdt w)))
        as [lk [t1 [ev1 [El [_ [Hn1 _]]]]]]
  end.
  rewrite lock_granted_upd, Hlock in Hiff.
  rewrite El in Hiff. cbn [fst] in Hiff.
  rewrite El; clear El. norm_upd_all.
  assert (Hlk : truthy lk = true).
  { apply truthy_true. intros H0. apply Hiff in H0. discriminate. }
  rewrite Hlk.
  match goal with
  | |- context [close_and_raise fd _ _ ?rc ?W] =>
      destruct (close_and_raise_frame fd euid egid rc W) as [c [evs [Ec Hn]]]
  end.
  rewrite Ec. norm_upd.
  eexists; eexists; eexists; eexists.
  split; [ reflexivity | ]. count_reads. reflexivity.
Qed.

Lemma read_proxy_from_stat_fails sun path lock_type uid euid egid w h :
  opens path h w -> lock_granted sun lock_type w = true ->
  w_fault w SysFstat (w_clock w) = true ->
  exists k c t evs,
    read_proxy_from sun path lock_type uid euid egid w
    = ((-1, None), upd k c t evs w)
    /\ filter is_read evs = [].
Proof.
  intros [Hfs Hflt] Hlock Hstat. unfold read_proxy_from.
  destruct (sys_open_closed path w) as [[h' [Hfs' [_ Eo]]] | [Hbad _]].
  2:{ destruct Hbad as [Hbad | Hbad]; congruence. }
  rewrite Eo; clear Eo.
  remember (fd_fresh (w_fdt w)) as fd eqn:Efd.
  remember (mkOpenFile h' 0 None None) as o0 eqn:Eo0.
  assert (Hfd : (fd =? -1) = false).
  { apply Z.eqb_neq. pose proof (fd_fresh_ge3 (w_fdt w)). lia. }
  rewrite Hfd. cbv beta iota zeta.
  match goal with
  | |- context [filelock sun fd lock_type LCK_READ ?W] =>
      destruct (filelock_frame sun fd lock_type LCK_READ W o0
                  (fd_lookup_store fd o0 (w_fdt w)))
        as [lk [t1 [ev1 [El [K1 [Hn1 Hlk]]]]]]
  end.
  rewrite El; clear El. norm_upd_all.
  rewrite (Hlk eq_refl Hlock). rewrite truthy_0.
  destruct (proj2 K1 o0 (fd_lookup_store fd o0 (w_fdt w)))
    as [o1 [Ho1 _]].
  match goal with
  | |- context [sys_fstat fd ?W] => rewrite (sys_fstat_closed fd W o1 Ho1)
  end.
  norm_upd. rewrite Hstat.
  match goal with
  | |- context [close_and_raise fd _ _ ?rc ?W] =>
      destruct (close_and_raise_frame fd euid egid rc W) as [c [evs [Ec Hn]]]
  end.
  rewrite Ec. norm_upd.
  eexists; eexists; eexists; eexists.
  split; [ reflexivity | ]. count_reads. reflexivity.
Qed.

Lemma read_proxy_from_malloc_fails sun path lock_type uid euid egid w h :
  opens path h w -> lock_granted sun lock_type w = true ->
  w_fault w SysFstat (w_clock w) = false ->
  unsafe_perms uid (stat_of (h (w_clock w))) = false ->
  w_fault w SysMalloc (S (w_clock w)) = true ->
  exists k c t evs,
    read_proxy_from sun path lock_type uid euid egid w
    = ((-4, None), upd k c t evs w)
    /\ filter is_read evs = [].
Proof.
  intros Hopen Hlock Hstat Hsafe Hmem.
  destruct (read_proxy_from_snapshot sun path lock_type uid euid egid w h
              Hopen Hlock Hstat)
    as [fd [t1 [o1 [ev1 [_ [_ [_ [Hn1 E]]]]]]]].
  rewrite E; clear E. cbv zeta. rewrite Hsafe.
  rewrite malloc_closed. norm_upd. rewrite Hmem.
  match goal with
  | |- context [close_and_raise fd _ _ ?rc ?W] =>
      destruct (close_and_raise_frame fd euid egid rc W) as [c [evs [Ec Hn]]]
  end.
  rewrite Ec. norm_upd.
  eexists; eexists; eexists; eexists.
  split; [ reflexivity | ]. count_reads. reflexivity.
Qed.

(** Lift a statement about [read_proxy_from] without reads to
    [read_proxy]. *)
Lemma read_proxy_lift sun path lock_type w (rc : Z) :
  (forall W, w_fs W = w_fs w -> w_fault W = w_fault w ->
             w_clock W = w_clock w ->
             exists k c t evs,
               read_proxy_from sun path lock_type (c_ruid (w_cred w))
                 (c_euid (w_cred w)) (c_egid (w_cred w)) W
               = ((rc, None), upd k c t evs W)
               /\ filter is_read evs = []) ->
  fst (read_proxy sun path lock_type w) = (rc, None) /\
  reads (snd (read_proxy sun path lock_type w)) = reads w.
Proof.
  intros H.
  destruct (read_proxy_guarded sun path lock_type w) as [evs0 [Hn0 E]].
  rewrite E; clear E.
  match goal with
  | |- context [read_proxy_from _ _ _ _ _ _ ?W] =>
      destruct (H W eq_refl eq_refl eq_refl) as [k [c [t [evs [E Hn]]]]]
  end.
  rewrite E. cbn [fst snd]. norm_upd.
  split; [ reflexivity | ].
  rewrite reads_upd. count_reads. reflexivity.
Qed.

(** X15. The error codes of the steps that precede the retry loop, each
    without a single [read] and without assigning the proxy: a file that
    is missing or cannot be opened gives -1; a read lock that is not
    granted gives -6; a first [fstat] that fails gives -1; and when the
    file passes the permission check but the buffer cannot be allocated
    the result is -4. *)
Theorem read_proxy_early_failures :
  forall (sun : bool) (path : string) (lock_type : Z) (w : World),
    let r := read_proxy sun path lock_type w in
    (w_fs w path = None \/ w_fault w SysOpen (w_clock w) = true ->
     fst r = (-1, None) /\ reads (snd r) = reads w)
    /\ (forall h, opens path h w -> lock_granted sun lock_type w = false ->
                  fst r = (-6, None) /\ reads (snd r) = reads w)
    /\ (forall h, opens path h w -> lock_granted sun lock_type w = true ->
                  w_fault w SysFstat (w_clock w) = true ->
                  fst r = (-1, None) /\ reads (snd r) = reads w)
    /\ (forall h, reaches_check sun path lock_type h w ->
                  unsafe_perms (c_ruid (w_cred w)) (stat_of (h (w_clock w)))
                  = false ->
                  w_fault w SysMalloc (S (w_clock w)) = true ->
                  fst r = (-4, None) /\ reads (snd r) = reads w).
Proof.
  intros sun path lock_type w r. subst r.
  split; [ | split; [ | split ] ].
  - intros Hbad. apply read_proxy_lift. intros W Hfs Hflt Hclk.
    apply read_proxy_from_open_fails. rewrite Hfs, Hflt, Hclk. exact Hbad.
  - intros h [Hfs0 Hflt0] Hlock. apply read_proxy_lift.
    intros W Hfs Hflt Hclk.
    apply (read_proxy_from_lock_fails _ _ _ _ _ _ W h).
    + split; [ rewrite Hfs | rewrite Hflt, Hclk ]; assumption.
    + unfold lock_granted in *. rewrite Hflt, Hclk. exact Hlock.
  - intros h [Hfs0 Hflt0] Hlock Hstat. apply read_proxy_lift.
    intros W Hfs Hflt Hclk.
    apply (read_proxy_from_stat_fails _ _ _ _ _ _ W h).
    + split; [ rewrite Hfs | rewrite Hflt, Hclk ]; assumption.
    + unfold lock_granted in *. rewrite Hflt, Hclk. exact Hlock.
    + rewrite Hflt, Hclk. exact Hstat.
  - intros h [[Hfs0 Hflt0] [Hlock Hstat]] Hsafe Hmem. apply read_proxy_lift.
    intros W Hfs Hflt Hclk.
    apply (read_proxy_from_malloc_fails _ _ _ _ _ _ W h).
    + split; [ rewrite Hfs | rewrite Hflt, Hclk ]; assumption.
    + unfold lock_granted in *. rewrite Hflt, Hclk. exact Hlock.
    + rewrite Hflt, Hclk. exact Hstat.
    + rewrite Hclk. exact Hsafe.
    + rewrite Hflt, Hclk. exact Hmem.
Qed.

(** ** The retry loop in general *)

Lemma sys_read_result fd buf count w o :
  fd_lookup fd (w_fdt w) = Some o ->
  exists size buf' t',
    sys_read fd buf count w
    = ((size, buf'), upd 1 (w_cred w) t' [EvRead fd count size] w)
    /\ keeps fd (w_fdt w) t'
    /\ (if w_fault w SysRead (w_clock w) then size = -1 /\ buf' = buf
        else
          let got := firstn (Z.to_nat count)
                       (skipn (Z.to_nat (of_off o))
                              (f_data (of_inode o (w_clock w)))) in
          size = Z.of_nat (length got) /\
          buf' = got ++ skipn (length got) buf).
Proof.
  intros H. unfold sys_read. rewrite H.
  destruct (w_fault w SysRead (w_clock w)).
  - exists (-1), buf, (w_fdt w).
    split; [ reflexivity | ]. split; [ apply keeps_refl | auto ].
  - eexists. eexists. eexists. split; [ reflexivity | ].
    split; [ eapply keeps_store; [ exact H | reflexivity ] | ].
    cbv zeta. split; reflexivity.
Qed.

Lemma firstn_full_length {A} (n : nat) (l : list A) :
  length (firstn n l) = n -> (n <= length l)%nat.
Proof. rewrite length_firstn. lia. Qed.

(** One pass of the loop up to its decision: the read and the
    re-snapshot.  [b] is the clock of the snapshot that the read is based
    on. *)
Lemma read_loop_accepts h (l : Locals) (w : World) (b : nat) (o : OpenFile)
    (size : Z) (buf : list Byte.byte) :
  of_inode o = h -> of_off o = 0 -> w_clock w = S b ->
  l_s1 l = stat_of (h b) ->
  length (l_buf l) = S (length (f_data (h b))) ->
  (if w_fault w SysRead (w_clock w) then size = -1 /\ buf = l_buf l
   else
     let got := firstn (Z.to_nat (st_size (l_s1 l)))
                  (skipn (Z.to_nat (of_off o))
                         (f_data (of_inode o (w_clock w)))) in
     size = Z.of_nat (length got) /\
     buf = got ++ skipn (length got) (l_buf l)) ->
  (size =? st_size (stat_of (h b))) = true ->
  w_fault w SysRead (S b) = false /\
  (length (f_data (h b)) <= length (f_data (h (S b))))%nat /\
  store_byte buf (Z.to_nat size) Byte.x00
  = firstn (length (f_data (h b))) (f_data (h (S b))) ++ [Byte.x00].
Proof.
  intros Hi Hoff Hclk Hs1 Hlen Hrd Hsz.
  rewrite Hclk, Hs1, Hoff, Hi in Hrd. rewrite st_size_stat_of in *.
  apply Z.eqb_eq in Hsz.
  destruct (w_fault w SysRead (S b)).
  { destruct Hrd as [-> _]. lia. }
  cbv zeta in Hrd. rewrite Nat2Z.id in Hrd. cbn [Z.to_nat skipn] in Hrd.
  destruct Hrd as [Hsize Hbuf].
  assert (Hgot : length (firstn (length (f_data (h b))) (f_data (h (S b))))
                 = length (f_data (h b))) by lia.
  split; [ reflexivity | ].
  split; [ apply firstn_full_length; exact Hgot | ].
  rewrite Hbuf, Hsize, Nat2Z.id. apply store_terminator.
  rewrite Hgot. exact Hlen.
Qed.

Lemma sys_lseek_fault fd w o :
  fd_lookup fd (w_fdt w) = Some o ->
  w_fault w SysLseek (w_clock w) = true ->
  sys_lseek_set fd 0 w
  = (-1, upd 0 (w_cred w) (w_fdt w) [EvLseek fd 0 (-1)] w).
Proof.
  intros H F. unfold sys_lseek_set. rewrite H, F. reflexivity.
Qed.

(** One iteration with its calls resolved.  [b] is the clock of the
    snapshot the read is based on; the read sees the file at [S b] and
    the re-snapshot sees it at [S (S b)]. *)
Lemma read_loop_step fd h n i l w b o :
  fd_lookup fd (w_fdt w) = Some o -> of_inode o = h ->
  w_clock w = S b -> l_s1 l = stat_of (h b) ->
  exists size buf t1 o1,
    keeps fd (w_fdt w) t1 /\ fd_lookup fd t1 = Some o1 /\ of_inode o1 = h /\
    (if w_fault w SysRead (w_clock w) then size = -1 /\ buf = l_buf l
     else
       let got := firstn (Z.to_nat (st_size (l_s1 l)))
                    (skipn (Z.to_nat (of_off o))
                           (f_data (of_inode o (w_clock w)))) in
       size = Z.of_nat (length got) /\
       buf = got ++ skipn (length got) (l_buf l)) /\
    read_loop fd (S n) i l w =
    let s1 := stat_of (h b) in
    let s2 := stat_of (h (S (S b))) in
    let rd := EvRead fd (st_size s1) size in
    if w_fault w SysFstat (S (S b)) then
      (mkLocals buf size s1 None (-1),
       upd 2 (w_cred w) t1 [EvFstat fd (-1); rd] w)
    else if same_stamp s2 s1 then
      (mkLocals buf size s1 (Some s2) (if size =? st_size s1 then 0 else -1),
       upd 2 (w_cred w) t1 [EvFstat fd 0; rd] w)
    else if i <? tries - 1 then
      if w_fault w SysRealloc (S (S (S b))) then
        (mkLocals buf size s1 (Some s2) (-4),
         upd 2 (w_cred w) t1
             [EvRealloc (st_size s2 + 1) false; EvFstat fd 0; rd] w)
      else
        let buf_new :=
          firstn (Z.to_nat (st_size s2 + 1)) buf
          ++ repeat (w_junk w) (Z.to_nat (st_size s2 + 1) - length buf) in
        if w_fault w SysLseek (S (S (S b))) then
          (mkLocals buf_new size s2 (Some s1) (-1),
           upd 2 (w_cred w) t1
               [EvLseek fd 0 (-1); EvUsleep 500;
                EvRealloc (st_size s2 + 1) true; EvFstat fd 0; rd] w)
        else
          read_loop fd n (i + 1)
            (mkLocals buf_new size s2 (Some s1) (l_rc l))
            (upd 2 (w_cred w)
                 (fd_store fd (mkOpenFile h 0 (of_flock o1) (of_fcntl o1)) t1)
                 [EvLseek fd 0 0; EvUsleep 500;
                  EvRealloc (st_size s2 + 1) true; EvFstat fd 0; rd] w)
    else
      read_loop fd n (i + 1) (mkLocals buf size s1 (Some s2) (-5))
                (upd 2 (w_cred w) t1 [EvFstat fd 0; rd] w).
Proof.
  intros Ho Hi Hclk Hs1.
  rewrite read_loop_S.
  destruct (sys_read_result fd (l_buf l) (st_size (l_s1 l)) w o Ho)
    as [size [buf [t1 [Er [K1 Hrd]]]]].
  rewrite Er; clear Er. cbv beta iota zeta.
  destruct (proj2 K1 o Ho) as [o1 [Ho1 Hi1]].
  exists size, buf, t1, o1.
  split; [ exact K1 | ]. split; [ exact Ho1 | ].
  split; [ congruence | ]. split; [ exact Hrd | ].
  match goal with
  | |- context [sys_fstat fd ?W] => rewrite (sys_fstat_closed fd W o1 Ho1)
  end.
  norm_upd. rewrite Hi1, Hi, Hclk, Hs1.
  destruct (w_fault w SysFstat (S (S b))); [ reflexivity | ].
  destruct (same_stamp (stat_of (h (S (S b)))) (stat_of (h b)));
    [ reflexivity | ].
  destruct (i <? tries - 1); [ | reflexivity ].
  rewrite realloc_closed. norm_upd. rewrite Hclk.
  destruct (w_fault w SysRealloc (S (S (S b)))); [ reflexivity | ].
  cbv beta iota zeta. rewrite usleep_closed. norm_upd.
  destruct (w_fault w SysLseek (S (S (S b)))) eqn:Fsk.
  - match goal with
    | |- context [sys_lseek_set fd 0 ?W] =>
        rewrite (sys_lseek_fault fd W o1 Ho1)
    end.
    + norm_upd. reflexivity.
    + norm_upd. rewrite Hclk. exact Fsk.
  - match goal with
    | |- context [sys_lseek_set fd 0 ?W] =>
        rewrite (sys_lseek_closed fd W o1 Ho1)
    end.
    + norm_upd. rewrite truthy_0, Hi1, Hi. reflexivity.
    + norm_upd. rewrite Hclk. exact Fsk.
Qed.

Lemma read_loop_outcome fd h n : forall i l w b o,
  fd_lookup fd (w_fdt w) = Some o -> of_inode o = h -> of_off o = 0 ->
  w_clock w = S b -> l_s1 l = stat_of (h b) ->
  length (l_buf l) = S (length (f_data (h b))) ->
  i = tries - Z.of_nat (S n) ->
  exists l' k t' evs,
    read_loop fd (S n) i l w = (l', upd k (w_cred w) t' evs w)
    /\ keeps fd (w_fdt w) t'
    /\ (1 <= length (filter is_read evs) <= S n)%nat
    /\ (l_rc l' = 0 \/ l_rc l' = -1 \/ l_rc l' = -4 \/ l_rc l' = -5)
    /\ (l_rc l' = 0 ->
        exists b',
          (b <= b')%nat /\
          same_stamp (stat_of (h (S (S b')))) (stat_of (h b')) = true /\
          w_fault w SysRead (S b') = false /\
          w_fault w SysFstat (S (S b')) = false /\
          (length (f_data (h b')) <= length (f_data (h (S b'))))%nat /\
          store_byte (l_buf l') (Z.to_nat (l_size l')) Byte.x00
          = firstn (length (f_data (h b'))) (f_data (h (S b')))
            ++ [Byte.x00]).
Proof.
  induction n as [|n IH];
    intros i l w b o Ho Hi Hoff Hclk Hs1 Hlen Hidx;
    match goal with
    | |- context [read_loop fd (S ?m) i l w] =>
        destruct (read_loop_step fd h m i l w b o Ho Hi Hclk Hs1)
          as [size [buf [t1 [o1 [K1 [Ho1 [Hi1 [Hrd E]]]]]]]]
    end;
    rewrite E; clear E; cbv zeta;
    (destruct (w_fault w SysFstat (S (S b))) eqn:Fst;
     [ eexists; eexists; eexists; eexists;
       (split; [ reflexivity | ]);
       (split; [ exact K1 | ]);
       (split; [ cbn [filter is_read length]; lia | ]);
       (split; [ cbn [l_rc]; auto | ]);
       cbn [l_rc]; intros H; discriminate H | ]);
    (destruct (same_stamp (stat_of (h (S (S b)))) (stat_of (h b))) eqn:Est;
     [ eexists; eexists; eexists; eexists;
       (split; [ reflexivity | ]);
       (split; [ exact K1 | ]);
       (split; [ cbn [filter is_read length]; lia | ]);
       cbn [l_rc l_buf l_size];
       destruct (size =? st_size (stat_of (h b))) eqn:Esz;
       (split; [ auto | ]);
       [ intros _;
         destruct (read_loop_accepts h l w b o size buf
                     Hi Hoff Hclk Hs1 Hlen Hrd Esz) as [Hr [Hle Hst]];
         exists b; repeat split; auto
       | intros H; discriminate H ] | ]).
  - (* last attempt *)
    subst i. change (tries - Z.of_nat 1 <? tries - 1) with false.
    cbv beta iota zeta. cbn [read_loop].
    eexists; eexists; eexists; eexists.
    split; [ reflexivity | ].
    split; [ exact K1 | ].
    split; [ cbn [filter is_read length]; lia | ].
    cbn [l_rc]. split; [ auto | ]. intros H; discriminate H.
  - (* retry *)
    assert (Hlt : (i <? tries - 1) = true).
    { apply Z.ltb_lt. subst i. unfold tries. lia. }
    rewrite Hlt.
    destruct (w_fault w SysRealloc (S (S (S b)))) eqn:Frl.
    { eexists; eexists; eexists; eexists.
      split; [ reflexivity | ].
      split; [ exact K1 | ].
      split; [ cbn [filter is_read length]; lia | ].
      cbn [l_rc]. split; [ auto | ]. intros H; discriminate H. }
    destruct (w_fault w SysLseek (S (S (S b)))) eqn:Fsk.
    { eexists; eexists; eexists; eexists.
      split; [ reflexivity | ].
      split; [ exact K1 | ].
      split; [ cbn [filter is_read length]; lia | ].
      cbn [l_rc]. split; [ auto | ]. intros H; discriminate H. }
    match goal with
    | |- context [read_loop fd (S n) ?I ?L ?W] =>
        destruct (IH I L W (S (S b))
                    (mkOpenFile h 0 (of_flock o1) (of_fcntl o1)))
          as [l' [k [t3 [evs [Erec [K3 [Hcnt [Hrc Hok]]]]]]]]
    end.
    + apply fd_lookup_store.
    + reflexivity.
    + reflexivity.
    + norm_upd. rewrite Hclk. reflexivity.
    + reflexivity.
    + cbn [l_buf]. rewrite realloc_length.
      rewrite st_size_stat_of.
      rewrite Z2Nat.inj_add, Nat2Z.id by lia. simpl. lia.
    + subst i. rewrite !Nat2Z.inj_succ. lia.
    + rewrite Erec; clear Erec. norm_upd_all.
      eexists; eexists; eexists; eexists.
      split; [ reflexivity | ].
      split.
      { eapply keeps_trans; [ exact K1 | ].
        eapply keeps_trans; [ | exact K3 ].
        eapply keeps_store; [ exact Ho1 | simpl; congruence ]. }
      split.
      { rewrite filter_app, length_app. cbn [filter is_read length]. lia. }
      split; [ exact Hrc | ].
      intros H0. destruct (Hok H0) as [b' [Hb [H1 [H2 [H3 [H4 H5]]]]]].
      exists b'. repeat split; auto. lia.
Qed.

(** ** read_proxy on every path *)

(** The steps after the loop: unlock, close, regain. *)
Ltac run_tail fd o2 Ho2 :=
  match goal with
  | |- context [filelock ?sun fd ?lt LCK_UNLOCK ?W] =>
      let x := fresh "x" in
      let t := fresh "t" in
      let ev := fresh "ev" in
      let Eu := fresh "Eu" in
      let Hn := fresh "Hnu" in
      destruct (filelock_frame sun fd lt LCK_UNLOCK W o2 Ho2)
        as [x [t [ev [Eu [_ [Hn _]]]]]];
      rewrite Eu; clear Eu; norm_upd_all
  end;
  match goal with
  | |- context [sys_close fd ?W] =>
      let x := fresh "x" in
      let Ec := fresh "Ec" in
      destruct (sys_close_closed fd W) as [x Ec];
      rewrite Ec; clear Ec; norm_upd
  end;
  match goal with
  | |- context [raise_priv ?e ?g ?W] =>
      let r := fresh "r" in
      let c := fresh "c" in
      let ev := fresh "ev" in
      let Er := fresh "Er" in
      let Hn := fresh "Hnr" in
      destruct (raise_priv_frame e g W) as [r [c [ev [Er Hn]]]];
      rewrite Er; clear Er; norm_upd
  end.

Lemma malloc_block_length (x : Byte.byte) (n : nat) :
  length (repeat x (Z.to_nat (Z.of_nat n + 1))) = S n.
Proof.
  rewrite repeat_length, Z2Nat.inj_add, Nat2Z.id by lia. simpl. lia.
Qed.

Lemma read_proxy_from_outcome sun path lock_type uid euid egid w :
  exists rc px k c t evs,
    read_proxy_from sun path lock_type uid euid egid w
    = ((rc, px), upd k c t evs w)
    /\ (length (filter is_read evs) <= 10)%nat
    /\ (rc = 0 \/ rc = -1 \/ rc = -3 \/ rc = -4 \/ rc = -5 \/ rc = -6)
    /\ (rc <> 0 -> px = None)
    /\ (rc = 0 ->
        exists h b,
          w_fs w path = Some h /\
          unsafe_perms uid (stat_of (h (w_clock w))) = false /\
          (w_clock w <= b)%nat /\
          same_stamp (stat_of (h (S (S b)))) (stat_of (h b)) = true /\
          (length (f_data (h b)) <= length (f_data (h (S b))))%nat /\
          px = Some (firstn (length (f_data (h b))) (f_data (h (S b)))
                     ++ [Byte.x00]) /\
          (1 <= length (filter is_read evs))%nat).
Proof.
  assert (Hfail : forall rc,
             rc <> 0 ->
             (rc = 0 \/ rc = -1 \/ rc = -3 \/ rc = -4 \/ rc = -5 \/ rc = -6) ->
             (exists k c t evs,
                 read_proxy_from sun path lock_type uid euid egid w
                 = ((rc, None), upd k c t evs w)
                 /\ filter is_read evs = []) ->
             exists rc px k c t evs,
               read_proxy_from sun path lock_type uid euid egid w
               = ((rc, px), upd k c t evs w)
               /\ (length (filter is_read evs) <= 10)%nat
               /\ (rc = 0 \/ rc = -1 \/ rc = -3 \/ rc = -4 \/ rc = -5
                   \/ rc = -6)
               /\ (rc <> 0 -> px = None)
               /\ (rc = 0 ->
                   exists h b,
                     w_fs w path = Some h /\
                     unsafe_perms uid (stat_of (h (w_clock w))) = false /\
                     (w_clock w <= b)%nat /\
                     same_stamp (stat_of (h (S (S b)))) (stat_of (h b)) = true /\
                     (length (f_data (h b)) <= length (f_data (h (S b))))%nat /\
                     px = Some (firstn (length (f_data (h b)))
                                       (f_data (h (S b))) ++ [Byte.x00]) /\
                     (1 <= length (filter is_read evs))%nat)).
  { intros rc Hne Hset [k [c [t [evs [E Hn]]]]].
    exists rc, None, k, c, t, evs.
    split; [ exact E | ]. split; [ rewrite Hn; simpl; lia | ].
    split; [ exact Hset | ]. split; [ reflexivity | ].
    intros H0. contradiction. }
  destruct (w_fs w path) as [h|] eqn:Hfs.
  2:{ apply (Hfail (-1)); [ discriminate | auto | ].
      apply read_proxy_from_open_fails. left. exact Hfs. }
  destruct (w_fault w SysOpen (w_clock w)) eqn:Hop.
  { apply (Hfail (-1)); [ discriminate | auto | ].
    apply read_proxy_from_open_fails. right. exact Hop. }
  assert (Hopen : opens path h w) by (split; assumption).
  destruct (lock_granted sun lock_type w) eqn:Hlock.
  2:{ apply (Hfail (-6)); [ discriminate | auto 10 | ].
      apply (read_proxy_from_lock_fails _ _ _ _ _ _ _ h); assumption. }
  destruct (w_fault w SysFstat (w_clock w)) eqn:Hstat.
  { apply (Hfail (-1)); [ discriminate | auto | ].
    apply (read_proxy_from_stat_fails _ _ _ _ _ _ _ h); assumption. }
  destruct (unsafe_perms uid (stat_of (h (w_clock w)))) eqn:Hsafe.
  { apply (Hfail (-3)); [ discriminate | auto | ].
    destruct (read_proxy_from_snapshot sun path lock_type uid euid egid w h
                Hopen Hlock Hstat)
      as [fd [t1 [o1 [ev1 [_ [_ [_ [Hn1 E]]]]]]]].
    rewrite E; clear E. cbv zeta. rewrite Hsafe.
    match goal with
    | |- context [close_and_raise fd _ _ ?rc ?W] =>
        destruct (close_and_raise_frame fd euid egid rc W)
          as [c [evs [Ec Hn]]]
    end.
    rewrite Ec. norm_upd.
    eexists; eexists; eexists; eexists.
    split; [ reflexivity | ]. count_reads. reflexivity. }
  destruct (w_fault w SysMalloc (S (w_clock w))) eqn:Hmem.
  { apply (Hfail (-4)); [ discriminate | auto 10 | ].
    apply (read_proxy_from_malloc_fails _ _ _ _ _ _ _ h); assumption. }
  (* the loop *)
  destruct (read_proxy_from_snapshot sun path lock_type uid euid egid w h
              Hopen Hlock Hstat)
    as [fd [t1 [o1 [ev1 [Ho1 [Hi1 [Hoff1 [Hn1 E]]]]]]]].
  rewrite E; clear E. cbv zeta. rewrite Hsafe.
  rewrite malloc_closed. norm_upd. rewrite Hmem.
  change (Z.to_nat tries) with 10%nat.
  match goal with
  | |- context [read_loop fd 10 0 ?L ?W] =>
      destruct (read_loop_outcome fd h 9 0 L W (w_clock w) o1)
        as [l' [k2 [t2 [ev2 [El [K2 [Hcnt [Hrc Hok]]]]]]]];
        [ norm_upd; exact Ho1
        | exact Hi1
        | exact Hoff1
        | norm_upd; reflexivity
        | reflexivity
        | cbn [l_buf]; rewrite st_size_stat_of; apply malloc_block_length
        | reflexivity
        | ]
  end.
  rewrite El; clear El. norm_upd_all.
  destruct (proj2 K2 o1 Ho1) as [o2 [Ho2 _]].
  run_tail fd o2 Ho2.
  destruct (Z.eqb_spec (l_rc l') 0) as [H0 | Hne].
  - rewrite H0, truthy_0.
    destruct (Hok H0) as [b' [Hb [Hst [_ [_ [Hle Hbuf]]]]]].
    rewrite Hbuf.
    eexists; eexists; eexists; eexists; eexists; eexists.
    split; [ reflexivity | ].
    split; [ count_reads; rewrite length_app; cbn [length]; lia | ].
    split; [ auto | ]. split; [ intros H; contradiction | ].
    intros _. exists h, b'.
    split; [ reflexivity | ]. split; [ exact Hsafe | ].
    split; [ exact Hb | ]. split; [ exact Hst | ].
    split; [ exact Hle | ]. split; [ reflexivity | ].
    count_reads. rewrite length_app. cbn [length]. lia.
  - assert (Ht : truthy (l_rc l') = true) by (apply truthy_true; exact Hne).
    rewrite Ht. rewrite free_closed. norm_upd.
    eexists; eexists; eexists; eexists; eexists; eexists.
    split; [ reflexivity | ].
    split; [ count_reads; rewrite length_app; cbn [length]; lia | ].
    split; [ destruct Hrc as [H | [H | [H | H]]]; auto 10 | ].
    split; [ reflexivity | ].
    intros H. contradiction.
Qed.

Lemma read_proxy_outcome sun path lock_type w :
  exists rc px k c t evs,
    read_proxy sun path lock_type w = ((rc, px), upd k c t evs w)
    /\ (length (filter is_read evs) <= 10)%nat
    /\ (rc = 0 \/ rc = -1 \/ rc = -3 \/ rc = -4 \/ rc = -5 \/ rc = -6)
    /\ (rc <> 0 -> px = None)
    /\ (rc = 0 ->
        exists h b,
          w_fs w path = Some h /\
          unsafe_perms (c_ruid (w_cred w)) (stat_of (h (w_clock w))) = false /\
          (w_clock w <= b)%nat /\
          same_stamp (stat_of (h (S (S b)))) (stat_of (h b)) = true /\
          (length (f_data (h b)) <= length (f_data (h (S b))))%nat /\
          px = Some (firstn (length (f_data (h b))) (f_data (h (S b)))
                     ++ [Byte.x00]) /\
          (1 <= length (filter is_read evs))%nat).
Proof.
  destruct (read_proxy_guarded sun path lock_type w) as [evs0 [Hn0 E]].
  rewrite E; clear E.
  match goal with
  | |- context [read_proxy_from _ _ _ ?u ?e ?g ?W] =>
      destruct (read_proxy_from_outcome sun path lock_type u e g W)
        as [rc [px [k [c [t [evs [E [Hcnt [Hrc [Hnone Hok]]]]]]]]]]
  end.
  rewrite E; clear E. norm_upd_all.
  exists rc, px. eexists; eexists; eexists; eexists.
  split; [ reflexivity | ].
  split; [ rewrite filter_app, Hn0, app_nil_r; exact Hcnt | ].
  split; [ exact Hrc | ]. split; [ exact Hnone | ].
  intros H0. destruct (Hok H0) as [h [b [H1 [H2 [H3 [H4 [H5 [H6 H7]]]]]]]].
  exists h, b. repeat split; auto.
  rewrite filter_app, length_app, Hn0. cbn [length]. lia.
Qed.

(** X16. [read_proxy] returns one of its documented codes 0, -1, ...,
    -6, and it assigns the proxy exactly when it returns 0: every error
    leaves the proxy pointer unassigned, and a return of 0 always comes
    with a buffer that ends in a zero byte. *)
Theorem read_proxy_assigns_only_on_success :
  forall (sun : bool) (path : string) (lock_type : Z) (w : World),
    let r := read_proxy sun path lock_type w in
    read_proxy_code (fst (fst r)) = true
    /\ (fst (fst r) <> 0 -> snd (fst r) = None)
    /\ (fst (fst r) = 0 ->
        exists content, snd (fst r) = Some (content ++ [Byte.x00])).
Proof.
  intros sun path lock_type w r. subst r.
  destruct (read_proxy_outcome sun path lock_type w)
    as [rc [px [k [c [t [evs [E [_ [Hrc [Hnone Hok]]]]]]]]]].
  rewrite E. cbn [fst snd].
  split.
  { destruct Hrc as [H | [H | [H | [H | [H | H]]]]]; subst rc; reflexivity. }
  split; [ exact Hnone | ].
  intros H0. destruct (Hok H0) as [h [b [_ [_ [_ [_ [_ [Hpx _]]]]]]]].
  eexists. exact Hpx.
Qed.

(** X17. Whatever the file does and whatever fails, [read_proxy] issues
    at most 10 [read] calls, and at least one whenever it returns 0. *)
Theorem read_proxy_reads_at_most_ten_times :
  forall (sun : bool) (path : string) (lock_type : Z) (w : World),
    let r := read_proxy sun path lock_type w in
    (reads (snd r) <= reads w + 10)%nat
    /\ (fst (fst r) = 0 -> (reads w + 1 <= reads (snd r))%nat).
Proof.
  intros sun path lock_type w r. subst r.
  destruct (read_proxy_outcome sun path lock_type w)
    as [rc [px [k [c [t [evs [E [Hcnt [_ [_ Hok]]]]]]]]]].
  rewrite E. cbn [fst snd]. rewrite reads_upd.
  split; [ lia | ].
  intros H0. destruct (Hok H0) as [h [b [_ [_ [_ [_ [_ [_ H1]]]]]]]]. lia.
Qed.

(** X18. What a successful [read_proxy] hands out.  When it returns 0,
    the file passed the ownership and permission check on the first
    snapshot, and the proxy is the content of the file as one single
    [read] saw it, cut to the size that the snapshot before that read
    reported, followed by a zero byte; the snapshot taken after that
    read agrees with the one before it in size, mtime and ctime, and the
    file had at least that many bytes when it was read.  So no mixture
    of two reads is ever returned. *)
Theorem read_proxy_returns_one_consistent_read :
  forall (sun : bool) (path : string) (lock_type : Z) (w : World)
         (h : nat -> File),
    w_fs w path = Some h ->
    fst (fst (read_proxy sun path lock_type w)) = 0 ->
    unsafe_perms (c_ruid (w_cred w)) (stat_of (h (w_clock w))) = false /\
    exists b,
      (w_clock w <= b)%nat /\
      same_stamp (stat_of (h (S (S b)))) (stat_of (h b)) = true /\
      (length (f_data (h b)) <= length (f_data (h (S b))))%nat /\
      snd (fst (read_proxy sun path lock_type w))
      = Some (firstn (length (f_data (h b))) (f_data (h (S b)))
              ++ [Byte.x00]).
Proof.
  intros sun path lock_type w h Hfs.
  destruct (read_proxy_outcome sun path lock_type w)
    as [rc [px [k [c [t [evs [E [_ [_ [_ Hok]]]]]]]]]].
  rewrite E. cbn [fst snd]. intros H0.
  destruct (Hok H0) as [h' [b [H1 [H2 [H3 [H4 [H5 [H6 _]]]]]]]].
  assert (h' = h) as -> by congruence.
  split; [ exact H2 | ].
  exists b. repeat split; auto.
Qed.

Lemma read_proxy_returns_one_consistent_read_witness :
  fst (fst (read_proxy false proxy_path LCK_FLOCK
              (sample_world renewed_once no_fault))) = 0 /\
  exists b,
    same_stamp (stat_of (renewed_once (S (S b)))) (stat_of (renewed_once b))
    = true /\
    snd (fst (read_proxy false proxy_path LCK_FLOCK
                (sample_world renewed_once no_fault)))
    = Some (firstn (length (f_data (renewed_once b)))
                   (f_data (renewed_once (S b))) ++ [Byte.x00]).
Proof.
  split; [ reflexivity | ].
  destruct (read_proxy_returns_one_consistent_read false proxy_path LCK_FLOCK
              (sample_world renewed_once no_fault) renewed_once
              eq_refl eq_refl) as [_ [b [_ [H1 [_ H2]]]]].
  exists b. split; [ exact H1 | exact H2 ].
Defined.

(** ** read_proxy: the first pass of the loop *)

(** From the entry of [read_proxy] to the entry of its loop, and from
    the exit of the loop to the return. *)
Lemma read_proxy_bridge sun path lock_type w h :
  reaches_loop sun path lock_type h w ->
  exists fd t1 o1 ev1,
    fd_lookup fd t1 = Some o1 /\ of_inode o1 = h /\ of_off o1 = 0 /\
    forall l' k t' evs,
      read_loop fd 10 0
        (mkLocals (repeat (w_junk w)
                     (Z.to_nat (st_size (stat_of (h (w_clock w))) + 1)))
                  0 (stat_of (h (w_clock w))) None 0)
        (upd 1 (guard_cred (w_cred w)) t1 ev1 w)
      = (l', upd k (guard_cred (w_cred w)) t' evs
               (upd 1 (guard_cred (w_cred w)) t1 ev1 w)) ->
      keeps fd t1 t' ->
      fst (read_proxy sun path lock_type w)
      = (if truthy (l_rc l') then (l_rc l', None)
         else (0, Some (store_byte (l_buf l') (Z.to_nat (l_size l'))
                                   Byte.x00)))
      /\ reads (snd (read_proxy sun path lock_type w))
         = (length (filter is_read evs) + reads w)%nat.
Proof.
  intros [[Hopen [Hlock Hstat]] [Hsafe Hmem]].
  destruct (read_proxy_guarded sun path lock_type w) as [evs0 [Hn0 E]].
  rewrite E; clear E.
  match goal with
  | |- context [read_proxy_from _ _ _ ?u ?e ?g ?W] =>
      destruct (read_proxy_from_snapshot sun path lock_type u e g W h)
        as [fd [t1 [o1 [ev1 [Ho1 [Hi1 [Hoff1 [Hn1 E]]]]]]]];
        [ exact Hopen | exact Hlock | exact Hstat | ]
  end.
  rewrite E; clear E. cbv zeta. norm_upd. rewrite Hsafe.
  rewrite malloc_closed. norm_upd. rewrite Hmem.
  change (Z.to_nat tries) with 10%nat. cbn [negb].
  eexists fd, t1, o1, _.
  split; [ exact Ho1 | ]. split; [ exact Hi1 | ]. split; [ exact Hoff1 | ].
  intros l' k t' evs El K2.
  rewrite El; clear El. norm_upd_all.
  destruct (proj2 K2 o1 Ho1) as [o2 [Ho2 _]].
  run_tail fd o2 Ho2.
  destruct (truthy (l_rc l')).
  - rewrite free_closed. norm_upd. cbn [fst snd].
    split; [ reflexivity | ].
    rewrite reads_upd. count_reads. rewrite !length_app. cbn [length]. lia.
  - cbn [fst snd]. split; [ reflexivity | ].
    rewrite reads_upd. count_reads. rewrite !length_app. cbn [length]. lia.
Qed.

Lemma read_complete (h : nat -> File) (b : nat) (size : Z)
    (buf lbuf : list Byte.byte) :
  (let got := firstn (Z.to_nat (st_size (stat_of (h b))))
                (skipn (Z.to_nat 0) (f_data (h (S b)))) in
   size = Z.of_nat (length got) /\ buf = got ++ skipn (length got) lbuf) ->
  (size =? st_size (stat_of (h b)))
  = (length (f_data (h b)) <=? length (f_data (h (S b))))%nat.
Proof.
  cbv zeta. rewrite st_size_stat_of, Nat2Z.id. cbn [Z.to_nat skipn].
  intros [-> _]. rewrite length_firstn.
  destruct (Nat.leb_spec (length (f_data (h b))) (length (f_data (h (S b))))).
  - apply Z.eqb_eq. lia.
  - apply Z.eqb_neq. lia.
Qed.

Lemma read_proxy_first_pass :
  forall (sun : bool) (path : string) (lock_type : Z) (w : World)
         (h : nat -> File),
    reaches_loop sun path lock_type h w ->
    w_fault w SysFstat (S (S (w_clock w))) = false ->
    same_stamp (stat_of (h (S (S (w_clock w)))))
               (stat_of (h (w_clock w))) = true ->
    fst (read_proxy sun path lock_type w)
    = (if negb (w_fault w SysRead (S (w_clock w)))
          && (length (f_data (h (w_clock w)))
              <=? length (f_data (h (S (w_clock w)))))%nat
       then (0, Some (firstn (length (f_data (h (w_clock w))))
                             (f_data (h (S (w_clock w)))) ++ [Byte.x00]))
       else (-1, None))
    /\ reads (snd (read_proxy sun path lock_type w)) = (1 + reads w)%nat.
Proof.
  intros sun path lock_type w h Hreach Fst Est.
  destruct (read_proxy_bridge sun path lock_type w h Hreach)
    as [fd [t1 [o1 [ev1 [Ho1 [Hi1 [Hoff1 Hbridge]]]]]]].
  match type of Hbridge with
  | forall l' k t' evs, read_loop fd 10 0 ?L ?W = _ -> _ =>
      destruct (read_loop_step fd h 9 0 L W (w_clock w) o1
                  Ho1 Hi1 eq_refl eq_refl)
        as [size [buf [t2 [o2 [K2 [Ho2 [Hi2 [Hrd E]]]]]]]]
  end.
  cbv zeta in E. rewrite ?w_fault_upd, ?w_cred_upd, ?w_junk_upd in E.
  rewrite Fst, Est in E.
  destruct (Hbridge _ _ _ _ E K2) as [Hres Hreads].
  rewrite Hres, Hreads. cbn [l_rc l_buf l_size filter is_read length].
  split; [ | reflexivity ].
  norm_upd_in Hrd. cbn [l_s1 l_buf] in Hrd. rewrite Hoff1, Hi1 in Hrd.
  destruct (w_fault w SysRead (S (w_clock w))) eqn:Frd.
  - destruct Hrd as [-> _]. cbn [negb andb].
    rewrite st_size_stat_of.
    assert (Hne : (-1 =? Z.of_nat (length (f_data (h (w_clock w))))) = false)
      by (apply Z.eqb_neq; lia).
    rewrite Hne. reflexivity.
  - cbn [negb andb].
    rewrite (read_complete h (w_clock w) size buf _ Hrd).
    destruct (Nat.leb_spec (length (f_data (h (w_clock w))))
                           (length (f_data (h (S (w_clock w)))))) as [Hle|Hgt];
      [ | reflexivity ].
    rewrite truthy_0.
    cbv zeta in Hrd. rewrite st_size_stat_of, Nat2Z.id in Hrd.
    cbn [Z.to_nat skipn] in Hrd. destruct Hrd as [Hsize Hbuf].
    assert (Hgot : length (firstn (length (f_data (h (w_clock w))))
                                  (f_data (h (S (w_clock w)))))
                   = length (f_data (h (w_clock w))))
      by (rewrite length_firstn; lia).
    rewrite Hbuf, Hsize, Nat2Z.id.
    rewrite store_terminator; [ reflexivity | ].
    rewrite Hgot, repeat_length. rewrite ?st_size_stat_of. lia.
Qed.


(** X19. The common case and its two failures.  Once [read_proxy] has
    reached its loop, when the snapshot taken after the first [read]
    agrees with the first snapshot in size, mtime and ctime, there is
    exactly one [read] and no retry: the result is 0 with the first
    size-many bytes read and a terminating zero when the [read]
    delivered as many bytes as the snapshot's size, and -1 without a
    proxy when the [read] failed or delivered fewer bytes. *)
Theorem first_read_is_final_when_snapshots_agree :
  forall (sun : bool) (path : string) (lock_type : Z) (w : World)
         (h : nat -> File),
    reaches_loop sun path lock_type h w ->
    w_fault w SysFstat (S (S (w_clock w))) = false ->
    same_stamp (stat_of (h (S (S (w_clock w)))))
               (stat_of (h (w_clock w))) = true ->
    fst (read_proxy sun path lock_type w)
    = (if negb (w_fault w SysRead (S (w_clock w)))
          && (length (f_data (h (w_clock w)))
              <=? length (f_data (h (S (w_clock w)))))%nat
       then (0, Some (firstn (length (f_data (h (w_clock w))))
                             (f_data (h (S (w_clock w)))) ++ [Byte.x00]))
       else (-1, None))
    /\ reads (snd (read_proxy sun path lock_type w)) = (1 + reads w)%nat.
Proof. exact read_proxy_first_pass. Qed.

Lemma first_read_is_final_when_snapshots_agree_witness :
  reaches_loop false proxy_path LCK_FCNTL (fun _ => file_v1)
               (sample_world (fun _ => file_v1) no_fault) /\
  fst (read_proxy false proxy_path LCK_FCNTL
         (sample_world (fun _ => file_v1) no_fault))
  = (0, Some (pem_v1 ++ [Byte.x00])) /\
  reads (snd (read_proxy false proxy_path LCK_FCNTL
                (sample_world (fun _ => file_v1) no_fault))) = 1%nat.
Proof.
  assert (Ho : reaches_loop false proxy_path LCK_FCNTL (fun _ => file_v1)
                 (sample_world (fun _ => file_v1) no_fault))
    by (repeat split; reflexivity).
  split; [ exact Ho | ].
  exact (first_read_is_final_when_snapshots_agree false proxy_path LCK_FCNTL
           (sample_world (fun _ => file_v1) no_fault) (fun _ => file_v1)
           Ho eq_refl eq_refl).
Defined.

(** X20. Failures on the way to a second attempt.  Once [read_proxy]
    has reached its loop, each of these ends it after exactly one [read]
    and without a proxy: the snapshot after the first [read] cannot be
    taken (-1); that snapshot differs from the first one and the buffer
    cannot be resized (-4); the buffer is resized but the file cannot be
    rewound (-1). *)
Theorem retry_preparation_failures :
  forall (sun : bool) (path : string) (lock_type : Z) (w : World)
         (h : nat -> File),
    reaches_loop sun path lock_type h w ->
    let r := read_proxy sun path lock_type w in
    let differs :=
      same_stamp (stat_of (h (S (S (w_clock w)))))
                 (stat_of (h (w_clock w))) = false in
    (w_fault w SysFstat (S (S (w_clock w))) = true ->
     fst r = (-1, None) /\ reads (snd r) = (1 + reads w)%nat)
    /\ (w_fault w SysFstat (S (S (w_clock w))) = false -> differs ->
        w_fault w SysRealloc (S (S (S (w_clock w)))) = true ->
        fst r = (-4, None) /\ reads (snd r) = (1 + reads w)%nat)
    /\ (w_fault w SysFstat (S (S (w_clock w))) = false -> differs ->
        w_fault w SysRealloc (S (S (S (w_clock w)))) = false ->
        w_fault w SysLseek (S (S (S (w_clock w)))) = true ->
        fst r = (-1, None) /\ reads (snd r) = (1 + reads w)%nat).
Proof.
  intros sun path lock_type w h Hreach r differs. subst r differs.
  destruct (read_proxy_bridge sun path lock_type w h Hreach)
    as [fd [t1 [o1 [ev1 [Ho1 [Hi1 [Hoff1 Hbridge]]]]]]].
  match type of Hbridge with
  | forall l' k t' evs, read_loop fd 10 0 ?L ?W = _ -> _ =>
      destruct (read_loop_step fd h 9 0 L W (w_clock w) o1
                  Ho1 Hi1 eq_refl eq_refl)
        as [size [buf [t2 [o2 [K2 [Ho2 [Hi2 [Hrd E]]]]]]]]
  end.
  cbv zeta in E. rewrite ?w_fault_upd, ?w_cred_upd, ?w_junk_upd in E.
  change (0 <? tries - 1) with true in E. cbv iota in E.
  split; [ | split ].
  - intros Fst. rewrite Fst in E.
    destruct (Hbridge _ _ _ _ E K2) as [Hres Hreads].
    rewrite Hres, Hreads. split; reflexivity.
  - intros Fst Est Frl. rewrite Fst, Est, Frl in E.
    destruct (Hbridge _ _ _ _ E K2) as [Hres Hreads].
    rewrite Hres, Hreads. split; reflexivity.
  - intros Fst Est Frl Fsk. rewrite Fst, Est, Frl, Fsk in E.
    destruct (Hbridge _ _ _ _ E K2) as [Hres Hreads].
    rewrite Hres, Hreads. split; reflexivity.
Qed.

Lemma retry_preparation_failures_witness :
  reaches_loop false proxy_path LCK_FCNTL renewed_once
    (sample_world renewed_once
       (fun s t => match s with SysRealloc => true | _ => false end)) /\
  fst (read_proxy false proxy_path LCK_FCNTL
         (sample_world renewed_once
            (fun s t => match s with SysRealloc => true | _ => false end)))
  = (-4, None).
Proof.
  assert (Ho : reaches_loop false proxy_path LCK_FCNTL renewed_once
                 (sample_world renewed_once
                    (fun s t => match s with SysRealloc => true | _ => false end)))
    by (repeat split; reflexivity).
  split; [ exact Ho | ].
  exact (proj1 (proj1 (proj2 (retry_preparation_failures false proxy_path
                                LCK_FCNTL
                                (sample_world renewed_once
                                   (fun s t => match s with
                                               | SysRealloc => true
                                               | _ => false
                                               end))
                                renewed_once Ho))
                      eq_refl eq_refl eq_refl)).
Defined.

(** ** psp_get_pilot_proxy *)

Lemma cstring_of_stops (d rest : list Byte.byte) :
  cstring_of (d ++ Byte.x00 :: rest) = cstring_of d.
Proof.
  induction d as [|c d IH]; [ reflexivity | ].
  cbn [app cstring_of]. destruct (Byte.eqb c Byte.x00); [ reflexivity | ].
  rewrite IH. reflexivity.
Qed.

Lemma read_proxy_restores sun path lock_type w :
  exists rc px k c evs,
    read_proxy sun path lock_type w = ((rc, px), upd k c (w_fdt w) evs w)
    /\ (regain_ok (w_cred w) -> c = w_cred w).
Proof.
  destruct (read_proxy_guarded sun path lock_type w) as [evs0 [_ E]].
  rewrite E.
  match goal with
  | |- context [read_proxy_from _ _ _ _ _ _ ?W] =>
      destruct (read_proxy_from_cleans sun path lock_type (w_cred w) W)
        as [k [c [evs [Ef Hc]]]];
      destruct (read_proxy_from sun path lock_type (c_ruid (w_cred w))
                  (c_euid (w_cred w)) (c_egid (w_cred w)) W)
        as [[rc px] w'] eqn:Er
  end.
  cbn [snd] in Ef. subst w'. norm_upd.
  exists rc, px. eexists; exists c; eexists.
  split; [ reflexivity | ].
  intros Hok. apply Hc; [ exact Hok | reflexivity ].
Qed.

Section PilotProps.

Variable sun : bool.
Variable getenv : string -> option string.
Variable PEM_X509_INFO_read_bio : string -> option (list X509_INFO).

Local Abbreviation get_pilot :=
  (psp_get_pilot_proxy sun getenv PEM_X509_INFO_read_bio).
Local Abbreviation parse := (pem_string_to_x509_chain PEM_X509_INFO_read_bio).

Lemma parse_keeps_on_failure cs str w :
  fst (fst (parse cs str w)) <> 0 -> snd (fst (parse cs str w)) = cs.
Proof.
  destruct cs as [old|]; [ destruct str as [s|] | ].
  - rewrite parse_closed. destruct (_ || _); [ reflexivity | ].
    destruct (PEM_X509_INFO_read_bio s) as [sk|]; [ | reflexivity ].
    destruct (certs_of sk); [ reflexivity | ].
    cbn [fst snd]. intros H. contradiction.
  - rewrite parse_null by (right; reflexivity). reflexivity.
  - rewrite parse_null by (left; reflexivity). reflexivity.
Qed.

Lemma parse_code cs str w :
  fst (fst (parse cs str w)) = 0 \/ fst (fst (parse cs str w)) = 1 \/
  fst (fst (parse cs str w)) = -1.
Proof.
  destruct cs as [old|]; [ destruct str as [s|] | ].
  - rewrite parse_closed. destruct (_ || _); [ auto | ].
    destruct (PEM_X509_INFO_read_bio s) as [sk|]; [ | auto ].
    destruct (certs_of sk); auto.
  - rewrite parse_null by (right; reflexivity). auto.
  - rewrite parse_null by (left; reflexivity). auto.
Qed.

Lemma parse_frame cs str w :
  w_fdt (snd (parse cs str w)) = w_fdt w /\
  w_cred (snd (parse cs str w)) = w_cred w /\
  reads (snd (parse cs str w)) = reads w.
Proof.
  destruct (parse_world PEM_X509_INFO_read_bio cs str w) as [E | [msg E]];
    rewrite E; repeat split; reflexivity.
Qed.

(** The function once the environment variable and the lock type are
    resolved. *)
Lemma get_pilot_closed cs lock_type w path flags :
  getenv "X509_USER_PROXY" = Some path ->
  lock_flags_of lock_type = Some flags ->
  get_pilot cs lock_type w =
  let r := read_proxy sun path flags w in
  if truthy (fst (fst r)) then ((-1, cs), snd r)
  else
    let p := parse cs (option_map cstring_of (snd (fst r))) (snd r) in
    if truthy (fst (fst p)) then
      ((-1, snd (fst p)),
       emit (EvLog LOG_WARNING
               "psp_get_pilot_proxy: cannot convert pemstring to chain.")
            (emit EvFree (snd p)))
    else ((0, snd (fst p)), emit EvFree (snd p)).
Proof.
  intros Henv Hflags. unfold psp_get_pilot_proxy. rewrite Henv.
  destruct lock_type; try discriminate Hflags;
    injection Hflags as <-; unfold_cfun; unfold free; cbv zeta;
    match goal with
    | |- context [read_proxy sun path ?f w] =>
        destruct (read_proxy sun path f w) as [[rc px] w1]
    end;
    cbn [fst snd];
    (destruct (truthy rc); [ reflexivity | ]);
    match goal with
    | |- context [parse ?a ?b ?c] =>
        destruct (parse a b c) as [[prc pout] w2]
    end;
    cbn [fst snd]; destruct (truthy prc); reflexivity.
Qed.

(** X21. [psp_get_pilot_proxy] returns 0 or -1, whichever code
    [read_proxy] or the conversion failed with.  On failure the caller's
    stack pointer holds what it held before; on success it holds a chain
    with at least one certificate.  On every path the descriptor table
    is the one of entry (the proxy file is closed again) and, for a
    process that can regain its ids, so are the credentials.  When the
    environment variable X509_USER_PROXY is unset or the lock type is
    not one of the three known values, it fails after a single log line,
    without touching the file system. *)
Theorem pilot_proxy_outcome :
  forall (cs : option (option (list X509))) (lock_type : lock_type_t)
         (w : World),
    let r := get_pilot cs lock_type w in
    (fst (fst r) = 0 \/ fst (fst r) = -1)
    /\ (fst (fst r) <> 0 -> snd (fst r) = cs)
    /\ (fst (fst r) = 0 ->
        exists chain, snd (fst r) = Some (Some chain) /\ chain <> [])
    /\ w_fdt (snd r) = w_fdt w
    /\ (regain_ok (w_cred w) -> w_cred (snd r) = w_cred w)
    /\ (getenv "X509_USER_PROXY" = None \/
        lock_flags_of lock_type = None ->
        fst (fst r) = -1 /\
        exists lvl msg, snd r = emit (EvLog lvl msg) w).
Proof.
  intros cs lock_type w r. subst r.
  destruct (getenv "X509_USER_PROXY") as [path|] eqn:Henv.
  2:{ unfold psp_get_pilot_proxy. rewrite Henv. unfold_cfun. cbn [fst snd].
      split; [ auto | ]. split; [ reflexivity | ].
      split; [ intros H; discriminate H | ].
      split; [ reflexivity | ]. split; [ reflexivity | ].
      intros _. split; [ reflexivity | ]. eexists; eexists; reflexivity. }
  destruct (lock_flags_of lock_type) as [flags|] eqn:Hflags.
  2:{ unfold psp_get_pilot_proxy. rewrite Henv.
      destruct lock_type; try discriminate Hflags.
      unfold_cfun. cbn [fst snd].
      split; [ auto | ]. split; [ reflexivity | ].
      split; [ intros H; discriminate H | ].
      split; [ reflexivity | ]. split; [ reflexivity | ].
      intros _. split; [ reflexivity | ]. eexists; eexists; reflexivity. }
  rewrite (get_pilot_closed cs lock_type w path flags Henv Hflags).
  cbv zeta.
  destruct (read_proxy_restores sun path flags w)
    as [rc [px [k [c [evs [E Hc]]]]]].
  rewrite E. cbn [fst snd].
  destruct (truthy rc).
  { cbn [fst snd]. split; [ auto | ]. split; [ reflexivity | ].
    split; [ intros H; discriminate H | ].
    split; [ reflexivity | ]. split; [ exact Hc | ].
    intros [H | H]; discriminate H. }
  match goal with
  | |- context [parse ?a ?b ?W] =>
      pose proof (parse_keeps_on_failure a b W) as Hkeep;
      pose proof (parse_code a b W) as Hcode;
      pose proof (parse_frame a b W) as [Hfdt [Hcred _]];
      pose proof (parse_success_nonempty PEM_X509_INFO_read_bio a b W) as Hne;
      destruct (parse a b W) as [[prc pout] w2]
  end.
  cbn [fst snd] in *.
  destruct (Z.eqb_spec prc 0) as [-> | Hprc].
  - rewrite truthy_0. cbn [fst snd].
    split; [ auto | ]. split; [ intros H; contradiction | ].
    split; [ intros _; apply (Hne 0 pout w2 eq_refl eq_refl) | ].
    split; [ exact Hfdt | ].
    split; [ intros Hok; rewrite <- (Hc Hok); exact Hcred | ].
    intros [H | H]; discriminate H.
  - assert (Ht : truthy prc = true) by (apply truthy_true; exact Hprc).
    rewrite Ht. cbn [fst snd].
    split; [ auto | ]. split; [ intros _; apply Hkeep; exact Hprc | ].
    split; [ intros H; discriminate H | ].
    split; [ exact Hfdt | ].
    split; [ intros Hok; rewrite <- (Hc Hok); exact Hcred | ].
    intros [H | H]; discriminate H.
Qed.


End PilotProps.


(** ** raise_priv in general *)

Lemma raise_priv_run euid egid w rc w' :
  raise_priv euid egid w = (rc, w') ->
  (rc = 0 \/ rc = -1)
  /\ (rc = 0 -> c_euid (w_cred w') = euid /\ c_egid (w_cred w') = egid)
  /\ (rc <> 0 ->
      c_euid (w_cred w') = c_euid (w_cred w) \/ c_euid (w_cred w') = 0)
  /\ (c_ruid (w_cred w') = c_ruid (w_cred w) /\
      c_suid (w_cred w') = c_suid (w_cred w) /\
      c_rgid (w_cred w') = c_rgid (w_cred w) /\
      c_sgid (w_cred w') = c_sgid (w_cred w))
  /\ (w_fdt w' = w_fdt w /\ w_clock w' = w_clock w /\ w_fs w' = w_fs w)
  /\ (euid <> 0 -> c_ruid (w_cred w) <> 0 -> rc = -1 /\ w' = w)
  /\ (id_valid euid = true -> id_valid egid = true ->
      (rc = 0 <->
       (euid = 0 /\ may_seteuid (w_cred w) 0 = true) \/
       (euid <> 0 /\ c_ruid (w_cred w) = 0))
      /\ (rc <> 0 -> w_cred w' = w_cred w)).
Proof.
  destruct w as [c fs clk flt junk t tr].
  destruct c as [ru eu su rg eg sg].
  unfold raise_priv. unfold_cfun. unfold getuid, seteuid, setegid.
  cbn -[may_seteuid may_setegid].
  destruct (Z.eqb_spec euid 0) as [He|He]; cbn -[may_seteuid may_setegid].
  - subst euid.
    destruct (may_seteuid (mkCred ru eu su rg eg sg) 0) eqn:M1;
      cbn -[may_seteuid may_setegid].
    2:{ intros E. injection E as <- <-. simpl.
        repeat split; auto; try congruence; try (intros; discriminate).
        intros [[_ Hx] | [Hx _]]; congruence. }
    destruct (may_setegid (mkCred ru 0 su rg eg sg) egid) eqn:M2;
      cbn -[may_seteuid may_setegid].
    + intros E. injection E as <- <-. simpl.
      repeat split; auto; try congruence.
    + intros E. injection E as <- <-. simpl.
      repeat split; auto; try congruence; try (intros; discriminate);
        rewrite may_setegid_root in M2 by auto; discriminate.
  - destruct (Z.eqb_spec ru 0) as [Hr|Hr]; cbn -[may_seteuid may_setegid].
    2:{ intros E. injection E as <- <-. simpl.
        repeat split; auto; try congruence; try (intros; discriminate).
        intros [[Hx _] | [_ Hx]]; congruence. }
    subst ru.
    assert (M1 : may_seteuid (mkCred 0 eu su rg eg sg) 0 = true)
      by reflexivity.
    rewrite M1. cbn -[may_seteuid may_setegid].
    destruct (may_setegid (mkCred 0 0 su rg eg sg) egid) eqn:M2;
      cbn -[may_seteuid may_setegid].
    2:{ intros E. injection E as <- <-. simpl.
        repeat split; auto; try congruence; try (intros; discriminate);
          rewrite may_setegid_root in M2 by auto; discriminate. }
    destruct (may_seteuid (mkCred 0 0 su rg egid sg) euid) eqn:M3;
      cbn -[may_seteuid may_setegid].
    + intros E. injection E as <- <-. simpl.
      repeat split; auto; try congruence.
    + intros E. injection E as <- <-. simpl.
      repeat split; auto; try congruence; try (intros; discriminate);
        rewrite may_seteuid_root in M3 by auto; discriminate.
Qed.

(** X23. What [raise_priv] leaves behind.  It returns 0 or -1 and
    changes nothing but the effective ids; on 0 the effective user and
    group are the requested ones.  When neither the requested effective
    user nor the real user is 0 it fails without issuing a call.  A
    failure can come after the first seteuid has succeeded: on -1 the
    effective user is the one of entry or 0.  When both requested ids
    are valid ids, it returns 0 exactly when the requested effective
    user is 0 and the process may set its effective user to 0, or the
    requested effective user is not 0 and the real user is 0, and a
    failure then leaves the credentials of entry. *)
Theorem raise_priv_outcome :
  forall (euid egid : Z) (w : World),
    let r := raise_priv euid egid w in
    let c := w_cred w in
    let c' := w_cred (snd r) in
    (fst r = 0 \/ fst r = -1)
    /\ (fst r = 0 -> c_euid c' = euid /\ c_egid c' = egid)
    /\ (fst r <> 0 -> c_euid c' = c_euid c \/ c_euid c' = 0)
    /\ (c_ruid c' = c_ruid c /\ c_suid c' = c_suid c /\
        c_rgid c' = c_rgid c /\ c_sgid c' = c_sgid c)
    /\ (w_fdt (snd r) = w_fdt w /\ w_clock (snd r) = w_clock w /\
        w_fs (snd r) = w_fs w)
    /\ (euid <> 0 -> c_ruid c <> 0 -> fst r = -1 /\ snd r = w)
    /\ (id_valid euid = true -> id_valid egid = true ->
        (fst r = 0 <->
         (euid = 0 /\ may_seteuid c 0 = true) \/
         (euid <> 0 /\ c_ruid c = 0))
        /\ (fst r <> 0 -> c' = c)).
Proof.
  intros euid egid w r c c'. subst r c c'.
  destruct (raise_priv euid egid w) as [rc w'] eqn:E. cbn [fst snd].
  apply (raise_priv_run euid egid w rc w' E).
Qed.

Lemma raise_priv_outcome_witness :
  w_cred (snd (raise_priv 0 0
                 (mkWorld (mkCred 1000 1000 1000 1000 1000 1000)
                          (fun _ => None) 0%nat no_fault Byte.x00 [] [])))
  = mkCred 1000 1000 1000 1000 1000 1000 /\
  (c_euid (w_cred (snd (raise_priv 500 4294967295
                          (mkWorld (mkCred 0 500 500 0 20 20)
                                   (fun _ => None) 0%nat no_fault
                                   Byte.x00 [] [])))) = 500 \/
   c_euid (w_cred (snd (raise_priv 500 4294967295
                          (mkWorld (mkCred 0 500 500 0 20 20)
                                   (fun _ => None) 0%nat no_fault
                                   Byte.x00 [] [])))) = 0) /\
  c_euid (w_cred (snd (raise_priv 0 0
                         (mkWorld (mkCred 1000 1000 0 1000 1000 0)
                                  (fun _ => None) 0%nat no_fault
                                  Byte.x00 [] [])))) = 0.
Proof.
  split; [ | split ].
  - pose proof (raise_priv_outcome 0 0
                  (mkWorld (mkCred 1000 1000 1000 1000 1000 1000)
                           (fun _ => None) 0%nat no_fault Byte.x00 [] []))
      as [_ [_ [_ [_ [_ [_ H]]]]]].
    apply (proj2 (H eq_refl eq_refl)). discriminate.
  - pose proof (raise_priv_outcome 500 4294967295
                  (mkWorld (mkCred 0 500 500 0 20 20)
                           (fun _ => None) 0%nat no_fault Byte.x00 [] []))
      as [_ [_ [H _]]].
    apply H. discriminate.
  - pose proof (raise_priv_outcome 0 0
                  (mkWorld (mkCred 1000 1000 0 1000 1000 0)
                           (fun _ => None) 0%nat no_fault Byte.x00 [] []))
      as [_ [H _]].
    apply (proj1 (H eq_refl)).
Defined.

(** ** Sample runs of the general statements *)

Lemma proxy_is_rfc_iff_witness :
  psp_proxy_is_rfc limited_cert = 1 /\ psp_proxy_is_rfc (sample_cert 1) = 0.
Proof.
  split.
  - apply (proj1 (proxy_is_rfc_iff limited_cert)).
    exists (mkExt (Some OID_RFC_PROXY) true [Byte.x01]).
    split; [ right; left; reflexivity | reflexivity ].
  - apply (proj1 (proj2 (proxy_is_rfc_iff (sample_cert 1)))).
    intros ex [].
Defined.

Lemma priv_drop_outcome_witness :
  fst (priv_drop 1000 1000 (sample_world (fun _ => file_v1) no_fault)) = 0 /\
  c_euid (w_cred (snd (priv_drop 1000 1000
                         (sample_world (fun _ => file_v1) no_fault)))) = 1000 /\
  c_egid (w_cred (snd (priv_drop 1000 1000
                         (sample_world (fun _ => file_v1) no_fault)))) = 1000.
Proof.
  split; [ reflexivity | ].
  destruct (proj1 (proj2 (priv_drop_outcome 1000 1000
                            (sample_world (fun _ => file_v1) no_fault)))
                  eq_refl) as [Hg Hu].
  split; [ exact Hu | exact Hg ].
Defined.

Lemma parse_failure_leaves_destination_witness :
  snd (fst (pem_string_to_x509_chain sample_pem_reader
              (Some (Some [sample_cert 7])) (Some "no certificate here")
              (sample_world (fun _ => file_v1) no_fault)))
  = Some (Some [sample_cert 7]).
Proof.
  apply (proj1 (proj2 (parse_failure_leaves_destination sample_pem_reader
                         (Some (Some [sample_cert 7]))
                         (Some "no certificate here")
                         (sample_world (fun _ => file_v1) no_fault)))).
  discriminate.
Defined.

Lemma payload_proxy_outcome_witness :
  snd (fst (psp_get_payload_proxy sample_pem_reader 0 None 1 pem_only_args
              (sample_world (fun _ => file_v1) no_fault)))
  = (Some [sample_cert 1; sample_cert 2], 1) /\
  psp_get_payload_proxy sample_pem_reader 0 None 1
    [mkArg "px509_chain" "STACK_OF(X509) *" (Some (ArgChain (Some [])))]
    (sample_world (fun _ => file_v1) no_fault)
  = ((0, (Some [], 0)), sample_world (fun _ => file_v1) no_fault).
Proof.
  split.
  - destruct (proj1 (proj2 (proj2 (payload_proxy_outcome sample_pem_reader
                                     0 None 1 pem_only_args
                                     (sample_world (fun _ => file_v1) no_fault))))
                    eq_refl eq_refl)
      as [pem [infos [Hp [Hi [_ Hr]]]]].
    rewrite Hr. injection Hp as <-. injection Hi as <-. reflexivity.
  - exact (proj1 (proj2 (payload_proxy_outcome sample_pem_reader 0 None 1
                           [mkArg "px509_chain" "STACK_OF(X509) *"
                                  (Some (ArgChain (Some [])))]
                           (sample_world (fun _ => file_v1) no_fault)))
                 [] eq_refl).
Defined.

Lemma read_proxy_early_failures_witness :
  fst (read_proxy false "/nonexistent" LCK_FCNTL
         (sample_world (fun _ => file_v1) no_fault)) = (-1, None) /\
  fst (read_proxy false proxy_path LCK_FLOCK
         (sample_world (fun _ => file_v1) flock_fails)) = (-6, None).
Proof.
  split.
  - exact (proj1 (proj1 (read_proxy_early_failures false "/nonexistent"
                           LCK_FCNTL
                           (sample_world (fun _ => file_v1) no_fault))
                        (or_introl eq_refl))).
  - exact (proj1 (proj1 (proj2 (read_proxy_early_failures false proxy_path
                                  LCK_FLOCK
                                  (sample_world (fun _ => file_v1) flock_fails)))
                        (fun _ => file_v1) (conj eq_refl eq_refl) eq_refl)).
Defined.

Lemma pilot_proxy_outcome_witness :
  fst (fst (psp_get_pilot_proxy false (fun _ => None) sample_pem_reader
              (Some None) LOCK_FLOCK
              (sample_world (fun _ => pem_file) no_fault))) = -1 /\
  fst (fst (psp_get_pilot_proxy false sample_env sample_pem_reader
              (Some None) (LOCK_other 7)
              (sample_world (fun _ => pem_file) no_fault))) = -1.
Proof.
  split.
  - exact (proj1 (proj2 (proj2 (proj2 (proj2 (proj2
             (pilot_proxy_outcome false (fun _ => None) sample_pem_reader
                (Some None) LOCK_FLOCK
                (sample_world (fun _ => pem_file) no_fault))))))
             (or_introl eq_refl))).
  - exact (proj1 (proj2 (proj2 (proj2 (proj2 (proj2
             (pilot_proxy_outcome false sample_env sample_pem_reader
                (Some None) (LOCK_other 7)
                (sample_world (fun _ => pem_file) no_fault))))))
             (or_intror eq_refl))).
Defined.
